(** * BracketsSearchCursor: the line index, the match indexer and the search cursor

    A shallow embedding of [src/search/BracketsSearchCursor.js].

    Conventions of the embedding.
    - JavaScript numbers that hold offsets, indices and counts are integers [Z].
    - A JavaScript string is the list of its code units, [list ascii].
    - [option Z] is a number that may be [undefined] or [NaN] ([None]); the
      comparisons and arithmetic of the source on such a value are written out
      where the source can produce one.
    - The typed array [Uint32Array] stores every value modulo [2^32].
    - Mutable objects (the regular expression with its [lastIndex], the group
      array with its current group, the cursor, the document map) are passed
      and returned explicitly.
    - The [while] loops of the module take a [fuel]; running out of fuel is
      [None], and the theorems show how much fuel always suffices. *)

From Stdlib Require Import ZArith Ascii String Lia.
From stdpp Require Import base tactics option numbers list gmap.

Open Scope Z_scope.

Set Warnings "-clear-no-such-hyp".

Abbreviation text := (list ascii).
Abbreviation len l := (Z.of_nat (length l)).

(** ** The host: strings *)

(** A string literal as a list of code units. *)
Definition str (s : string) : text := list_ascii_of_string s.

(** [array[i]] for a number [i]: [undefined] outside the array. *)
Definition aget {A} (l : list A) (i : Z) : option A :=
  if decide (0 ≤ i) then l !! Z.to_nat i else None.

(** [array[i] = v] on a plain array: an element in range is replaced, a
    store at or past the end extends the array (the elements skipped over are
    holes, written [0] here; the scan below only stores at the end). *)
Definition aset (l : list Z) (i : Z) (v : Z) : list Z :=
  if decide (0 ≤ i < len l) then <[Z.to_nat i := v]> l
  else l ++ replicate (Z.to_nat (i - len l)) 0 ++ [v].

(** [x || d] on an optional number: [d] when [x] is undefined, NaN or 0. *)
Definition js_or (x : option Z) (d : Z) : Z :=
  match x with
  | Some v => if decide (v = 0) then d else v
  | None => d
  end.

Fixpoint isPrefix (p s : text) : bool :=
  match p, s with
  | [], _ => true
  | a :: p', b :: s' => if decide (a = b) then isPrefix p' s' else false
  | _ :: _, [] => false
  end.

(** [StringIndexOf(s, sep, 0)]: the first offset at which [sep] occurs. *)
Fixpoint indexOf (sep s : text) : option nat :=
  if isPrefix sep s then Some O
  else match s with
       | [] => None
       | _ :: s' => S <$> indexOf sep s'
       end.

(** The loop of [String.prototype.split] for a non-empty separator: cut at
    the next occurrence of the separator and go on after it. Every cut
    shortens the string, so [length s] rounds are enough. *)
Fixpoint splitLoop (rounds : nat) (sep s : text) : list text :=
  match rounds with
  | O => [s]
  | S rounds' =>
      match indexOf sep s with
      | None => [s]
      | Some j => take j s :: splitLoop rounds' sep (drop (j + length sep) s)
      end
  end.

(** [text.split(separator)]: with an empty separator the code units one by
    one (none for the empty string). *)
Definition split (s sep : text) : list text :=
  match sep with
  | [] => (λ c, [c]) <$> s
  | _ :: _ => splitLoop (length s) sep s
  end.

(** [lines.join(separator)]. *)
Fixpoint join (sep : text) (lines : list text) : text :=
  match lines with
  | [] => []
  | [l] => l
  | l :: rest => l ++ sep ++ join sep rest
  end.

(** ** The line index *)

Definition Uint32 (z : Z) : Z := z `mod` 2 ^ 32.

(** The [for] loop of [_createLineCharacterCountIndex]: the running total is
    a number, the stored element is a [Uint32]. *)
Fixpoint lineCharacterCountLoop (lines : list text) (lineSeparatorLength totalCharacterCount : Z)
    : list Z :=
  match lines with
  | [] => []
  | line :: rest =>
      let totalCharacterCount := totalCharacterCount + len line + lineSeparatorLength in
      Uint32 totalCharacterCount
        :: lineCharacterCountLoop rest lineSeparatorLength totalCharacterCount
  end.

Definition _createLineCharacterCountIndex (text lineSeparator : text) : list Z :=
  let lines := split text lineSeparator in
  lineCharacterCountLoop lines (len lineSeparator) 0.

(** A position [{line, ch}]; the line of a position the module builds is
    [undefined] when [_lineFromIndex] finds no line. *)
Record Pos := mkPos { line : option Z; ch : Z }.

Record Range := mkRange { from : Pos; to : Pos }.

(** [x > y] where [x] may be undefined: false then. *)
Definition gt_undef (x : option Z) (y : Z) : bool :=
  match x with
  | Some v => bool_decide (v > y)
  | None => false
  end.

(** The [for] loop of [_lineFromIndex], started at [lineNumber] with
    [rounds] lines left before [lineCount]. *)
Fixpoint lineFromIndexLoop (rounds : nat) (lineCharacterCountIndexArray : list Z)
    (lineNumber indexWithinDoc : Z) : option Z :=
  match rounds with
  | O => None
  | S rounds' =>
      if gt_undef (aget lineCharacterCountIndexArray lineNumber) indexWithinDoc
      then Some lineNumber
      else lineFromIndexLoop rounds' lineCharacterCountIndexArray (lineNumber + 1) indexWithinDoc
  end.

(** [_lineFromIndex]: [undefined] when the loop ends without a line, and
    when the start line is itself undefined (the loop test is false). *)
Definition _lineFromIndex (lineCharacterCountIndexArray : list Z)
    (startSearchingWithLine : option Z) (indexWithinDoc : Z) : option Z :=
  match startSearchingWithLine with
  | None => None
  | Some start =>
      let lineCount := len lineCharacterCountIndexArray in
      lineFromIndexLoop (Z.to_nat (lineCount - start)) lineCharacterCountIndexArray
        start indexWithinDoc
  end.

(** [_createPosFromIndex]. The element read for a line found by the loop is
    in range; [0] stands for a read that is not. *)
Definition _createPosFromIndex (lineCharacterCountIndexArray : list Z)
    (startSearchingWithLine : option Z) (indexWithinDoc : Z) : Pos :=
  let lineNumber := _lineFromIndex lineCharacterCountIndexArray startSearchingWithLine indexWithinDoc in
  let previousLineEndingCharacterIndex :=
    match lineNumber with
    | Some n => if decide (n > 0) then default 0 (aget lineCharacterCountIndexArray (n - 1)) else 0
    | None => 0
    end in
  {| line := lineNumber; ch := indexWithinDoc - previousLineEndingCharacterIndex |}.

(** [_indexFromPos]: NaN ([None]) when the line before [pos.line] is outside
    the index. An undefined line is not [> 0]. *)
Definition _indexFromPos (lineCharacterCountIndexArray : list Z) (pos : Pos) : option Z :=
  let indexAtStartOfLine :=
    match line pos with
    | Some n => if decide (n > 0) then aget lineCharacterCountIndexArray (n - 1) else Some 0
    | None => Some 0
    end in
  (λ i, i + ch pos) <$> indexAtStartOfLine.

(** [_createSearchResult]: an undefined [startLine] is line 0. *)
Definition _createSearchResult (docLineIndex : list Z) (indexStart indexEnd : Z)
    (startLine : option Z) : Range :=
  let startLine := Some (default 0 startLine) in
  let fromPos := _createPosFromIndex docLineIndex startLine indexStart in
  let toPos := _createPosFromIndex docLineIndex (line fromPos) indexEnd in
  {| from := fromPos; to := toPos |}.

(** ** The host: regular expressions *)

(** What the module takes from outside the file.
    - [regexEscape] is [StringUtils.regexEscape].
    - [regExpMatch source ignoreCase input p] is the pattern matcher of
      [new RegExp(source, ignoreCase ? "igm" : "gm")] tried at offset [p] of
      [input]: the number of code units matched, or [None] when the pattern
      does not match there. *)
Class Host := {
  regexEscape : text → text;
  regExpMatch : text → bool → text → Z → option nat;
}.

(** A [RegExp] object. The flags [g] and [m] are always set by
    [_convertToRegularExpression]; [lastIndex] is the mutable field. *)
Record RegExp := mkRegExp { source : text; ignoreCaseFlag : bool; lastIndex : Z }.

Definition setLastIndex (query : RegExp) (i : Z) : RegExp :=
  {| source := source query; ignoreCaseFlag := ignoreCaseFlag query; lastIndex := i |}.

(** A query given to the module: a string or a regular expression. *)
Inductive SearchQuery :=
| QueryString (s : text)
| QueryRegExp (r : RegExp).

Section WithHost.
Context `{host : Host}.

(** The position loop of [RegExp.prototype.exec] for a global expression:
    try the matcher at [i], [i+1], ... for [rounds] offsets. *)
Fixpoint execLoop (rounds : nat) (matcher : Z → option nat) (i : Z) : option (Z * Z) :=
  match rounds with
  | O => None
  | S rounds' =>
      match matcher i with
      | Some n => Some (i, i + Z.of_nat n)
      | None => execLoop rounds' matcher (i + 1)
      end
  end.

(** [query.exec(docText)]: the match array's [index] (or [null]) and the
    expression with its new [lastIndex]: the end of the match, or 0 after a
    failure. The offsets tried are [lastIndex], ..., [docText.length]; a
    negative [lastIndex] counts as 0. *)
Definition exec (query : RegExp) (docText : text) : option Z * RegExp :=
  let start := Z.max 0 (lastIndex query) in
  match execLoop (Z.to_nat (len docText - start + 1))
          (regExpMatch (source query) (ignoreCaseFlag query) docText) start with
  | Some (index, e) => (Some index, setLastIndex query e)
  | None => (None, setLastIndex query 0)
  end.

(** [_convertToRegularExpression]. *)
Definition _convertToRegularExpression (stringOrRegex : SearchQuery) (ignoreCase : bool) : RegExp :=
  match stringOrRegex with
  | QueryString s => {| source := regexEscape s; ignoreCaseFlag := ignoreCase; lastIndex := 0 |}
  | QueryRegExp r => {| source := source r; ignoreCaseFlag := ignoreCase; lastIndex := 0 |}
  end.

(** [_scanDocumentUsingRegularExpression]: the calls of [fnEachMatch] in
    order, each with its start and end position. *)
Fixpoint scanDocumentLoop (fuel : nat) (documentIndex : list Z) (documentText : text)
    (regex : RegExp) (endRangeIndex : option Z) (lastMatchedLine : option Z)
    : option (list (Pos * Pos)) :=
  match fuel with
  | O => None
  | S fuel' =>
      match exec regex documentText with
      | (None, _) => Some []
      | (Some index, regex) =>
          let startPosition := _createPosFromIndex documentIndex lastMatchedLine index in
          let endPosition := _createPosFromIndex documentIndex (line startPosition) (lastIndex regex) in
          let lastMatchedLine := line endPosition in
          if match endRangeIndex with
             | Some e => bool_decide (lastIndex regex ≤ e)
             | None => false
             end
          then
            let regex := if decide (index = lastIndex regex)
                         then setLastIndex regex (lastIndex regex + 1) else regex in
            cons (startPosition, endPosition)
              <$> scanDocumentLoop fuel' documentIndex documentText regex endRangeIndex lastMatchedLine
          else Some []
      end
  end.

Definition _scanDocumentUsingRegularExpression (fuel : nat) (documentIndex : list Z)
    (documentText : text) (regex : RegExp) (range : option Range) : option (list (Pos * Pos)) :=
  let startRangeIndex :=
    match range with
    | Some r => _indexFromPos documentIndex (from r)
    | None => Some 0
    end in
  let endRangeIndex :=
    match range with
    | Some r => _indexFromPos documentIndex (to r)
    | None => aget documentIndex (len documentIndex - 1)
    end in
  (* a NaN lastIndex is read as 0 by exec *)
  let regex := setLastIndex regex (default 0 startRangeIndex) in
  scanDocumentLoop fuel documentIndex documentText regex endRangeIndex (Some 0).

(** [_compareMatchResultToPos]: with an undefined or NaN operand neither
    [===] nor [<] holds, which leaves the last branch. *)
Definition _compareMatchResultToPos (matchIndex posIndex : option Z) : Z :=
  match matchIndex, posIndex with
  | Some m, Some p => if decide (m = p) then 0 else if decide (m < p) then -1 else 1
  | _, _ => 1
  end.

(** ** The group array *)

(** [_makeGroupArray(array, groupSize)]: the array with the closure's
    [_currentGroupIndex]. *)
Record GroupArray := mkGroupArray {
  ga_array : list Z;
  ga_groupSize : Z;
  _currentGroupIndex : Z;
}.

Definition _makeGroupArray (array : list Z) (groupSize : Z) : GroupArray :=
  {| ga_array := array; ga_groupSize := groupSize; _currentGroupIndex := - groupSize |}.

Definition withCurrent (a : GroupArray) (i : Z) : GroupArray :=
  {| ga_array := ga_array a; ga_groupSize := ga_groupSize a; _currentGroupIndex := i |}.

Definition withArray (a : GroupArray) (l : list Z) : GroupArray :=
  {| ga_array := l; ga_groupSize := ga_groupSize a; _currentGroupIndex := _currentGroupIndex a |}.

(** [nextGroupIndex()]: the new index, or [false] ([None]). *)
Definition nextGroupIndex (a : GroupArray) : option Z * GroupArray :=
  if decide (_currentGroupIndex a < len (ga_array a) - ga_groupSize a)
  then let i := _currentGroupIndex a + ga_groupSize a in (Some i, withCurrent a i)
  else (None, withCurrent a (- ga_groupSize a)).

Definition prevGroupIndex (a : GroupArray) : option Z * GroupArray :=
  if decide (_currentGroupIndex a - ga_groupSize a > -1)
  then let i := _currentGroupIndex a - ga_groupSize a in (Some i, withCurrent a i)
  else (None, withCurrent a (- ga_groupSize a)).

Definition setCurrentGroup (a : GroupArray) (groupNumber : Z) : GroupArray :=
  withCurrent a (groupNumber * ga_groupSize a).

Definition getGroupIndex (a : GroupArray) (groupNumber : Z) : Z := ga_groupSize a * groupNumber.

Definition getGroupValue (a : GroupArray) (groupNumber valueIndexWithinGroup : Z) : option Z :=
  aget (ga_array a) (ga_groupSize a * groupNumber + valueIndexWithinGroup).

Definition currentGroupIndex (a : GroupArray) : Z := _currentGroupIndex a.

(** The two quotients below are exact in the module: the current index and
    the array length are multiples of the group size. *)
Definition currentGroupNumber (a : GroupArray) : Z := _currentGroupIndex a `div` ga_groupSize a.

Definition itemCount (a : GroupArray) : Z := len (ga_array a) `div` ga_groupSize a.

(** [array.pop()]. *)
Definition pop (a : GroupArray) : GroupArray :=
  withArray a (take (length (ga_array a) - 1)%nat (ga_array a)).

(** ** The scan *)

(** The [while] loop of [_searchAndAddResultsToArray]. *)
Fixpoint searchLoop (fuel : nat) (query : RegExp) (docText : text) (groupArray : GroupArray)
    (index matchCountLimit searchEndIndex : Z) : option (RegExp * GroupArray * Z) :=
  match fuel with
  | O => None
  | S fuel' =>
      match exec query docText with
      | (None, query) => Some (query, groupArray, index)
      | (Some matchIndex, query) =>
          let groupArray := withArray groupArray (aset (ga_array groupArray) index matchIndex) in
          let index := index + 1 in
          let groupArray := withArray groupArray (aset (ga_array groupArray) index (lastIndex query)) in
          let index := index + 1 in
          let query := if decide (matchIndex = lastIndex query)
                       then setLastIndex query (lastIndex query + 1) else query in
          if decide (index >= matchCountLimit ∨ lastIndex query > searchEndIndex)
          then Some (query, groupArray, index)
          else searchLoop fuel' query docText groupArray index matchCountLimit searchEndIndex
      end
  end.

(** [_searchAndAddResultsToArray]: the expression and the group array as the
    loop leaves them, and the count of results. *)
Definition _searchAndAddResultsToArray (fuel : nat) (query : RegExp) (docText : text)
    (groupArray : GroupArray) (matchCountLimit searchEndIndex : option Z)
    : option (RegExp * GroupArray * Z) :=
  let index := 0 in
  let searchEndIndex := js_or searchEndIndex (len docText) in
  let matchCountLimit := js_or matchCountLimit 10000000 in
  let matchCountLimit := matchCountLimit * ga_groupSize groupArray in
  '(query, groupArray, index) ← searchLoop fuel query docText groupArray index matchCountLimit searchEndIndex;
  Some (query, groupArray, index `div` ga_groupSize groupArray).

(** [_.isEqual] on two values read from group arrays. *)
Definition _isGroupValuesEqual (groupArray1 : GroupArray) (groupNum1 : Z)
    (groupArray2 : GroupArray) (groupNum2 : Z) : bool :=
  bool_decide (getGroupValue groupArray1 groupNum1 0 = getGroupValue groupArray2 groupNum2 0)
  && bool_decide (getGroupValue groupArray1 groupNum1 1 = getGroupValue groupArray2 groupNum2 1).

(** [_removeIfDuplicateResultOnEdge]: the second group array afterwards. *)
Definition _removeIfDuplicateResultOnEdge (firstSearchResults secondSearchResults : GroupArray)
    : GroupArray :=
  if decide (itemCount firstSearchResults = 0 ∨ itemCount secondSearchResults = 0)
  then secondSearchResults
  else if _isGroupValuesEqual firstSearchResults 0 secondSearchResults
            (itemCount secondSearchResults - 1)
       then pop (pop secondSearchResults)
       else secondSearchResults.

(** [_createSearchResults], the two-part search. [maxResults] is the value
    after [maxResults || 10000000]; [startIndex] may be NaN, which [exec]
    reads as 0 and which is not [> 0]. *)
Definition _createSearchResults (fuel : nat) (maxResults : Z) (_startEndIndexArray : GroupArray)
    (docText : text) (query : RegExp) (startIndex : option Z) : option (RegExp * GroupArray) :=
  let query := setLastIndex query (default 0 startIndex) in
  '(query, _startEndIndexArray, resultCount) ←
     _searchAndAddResultsToArray fuel query docText _startEndIndexArray (Some maxResults) None;
  if decide (default 0 startIndex > 0 ∧ resultCount < maxResults) then
    let query := setLastIndex query 0 in
    let startEndIndexFromBeginningOfDocument := _makeGroupArray [] 2 in
    '(query, startEndIndexFromBeginningOfDocument, _) ←
       _searchAndAddResultsToArray fuel query docText startEndIndexFromBeginningOfDocument
         (Some maxResults) startIndex;
    let startEndIndexFromBeginningOfDocument :=
      _removeIfDuplicateResultOnEdge _startEndIndexArray startEndIndexFromBeginningOfDocument in
    Some (query,
          _makeGroupArray (ga_array startEndIndexFromBeginningOfDocument ++ ga_array _startEndIndexArray) 2)
  else Some (query, _startEndIndexArray).

(** ** The regular expression indexer *)

(** The closure of [_createRegexIndexer]: the text and line index it was
    made for, and its group array of start and end offsets. *)
Record RegexIndexer := mkRegexIndexer {
  ri_docText : text;
  ri_docLineIndex : list Z;
  ri_startEndIndexArray : GroupArray;
}.

Definition withGroupArray (ri : RegexIndexer) (a : GroupArray) : RegexIndexer :=
  {| ri_docText := ri_docText ri; ri_docLineIndex := ri_docLineIndex ri;
     ri_startEndIndexArray := a |}.

(** [_createSearchResult(docLineIndex, array[i], array[i + 1])]. The group
    indices the array hands out are in range; a read outside the array has no
    result here. *)
Definition searchResultAt (ri : RegexIndexer) (i : Z) : option Range :=
  indexStart ← aget (ga_array (ri_startEndIndexArray ri)) i;
  indexEnd ← aget (ga_array (ri_startEndIndexArray ri)) (i + 1);
  Some (_createSearchResult (ri_docLineIndex ri) indexStart indexEnd None).

(** [nextMatch()]: the range, or [false] ([None]). *)
Definition nextMatch (ri : RegexIndexer) : option Range * RegexIndexer :=
  let '(currentMatchIndex, a) := nextGroupIndex (ri_startEndIndexArray ri) in
  let ri := withGroupArray ri a in
  match currentMatchIndex with
  | None => (None, ri)
  | Some i => (searchResultAt ri i, ri)
  end.

Definition prevMatch (ri : RegexIndexer) : option Range * RegexIndexer :=
  let '(currentMatchIndex, a) := prevGroupIndex (ri_startEndIndexArray ri) in
  let ri := withGroupArray ri a in
  match currentMatchIndex with
  | None => (None, ri)
  | Some i => (searchResultAt ri i, ri)
  end.

Definition getItemByMatchNumber (ri : RegexIndexer) (matchNumber : Z) : option Range :=
  searchResultAt ri (getGroupIndex (ri_startEndIndexArray ri) matchNumber).

(** The [for] loop of [forEachMatch]: the calls of [fnMatch] in order. *)
Fixpoint forEachMatchLoop (rounds : nat) (ri : RegexIndexer) (index : Z) (lastLine : option Z)
    : option (list (Pos * Pos)) :=
  match rounds with
  | O => Some []
  | S rounds' =>
      let groupIndex := getGroupIndex (ri_startEndIndexArray ri) index in
      indexStart ← aget (ga_array (ri_startEndIndexArray ri)) groupIndex;
      indexEnd ← aget (ga_array (ri_startEndIndexArray ri)) (groupIndex + 1);
      let fromPos := _createPosFromIndex (ri_docLineIndex ri) lastLine indexStart in
      let toPos := _createPosFromIndex (ri_docLineIndex ri) (line fromPos) indexEnd in
      cons (fromPos, toPos) <$> forEachMatchLoop rounds' ri (index + 1) (line toPos)
  end.

Definition forEachMatch (ri : RegexIndexer) : option (list (Pos * Pos)) :=
  let length := itemCount (ri_startEndIndexArray ri) in
  forEachMatchLoop (Z.to_nat length) ri 0 (Some 0).

Definition getItemCount (ri : RegexIndexer) : Z := itemCount (ri_startEndIndexArray ri).

(** [getCurrentMatch()]: [undefined] ([None]) when no group is current. *)
Definition getCurrentMatch (ri : RegexIndexer) : option Range :=
  let currentMatchIndex := currentGroupIndex (ri_startEndIndexArray ri) in
  if decide (currentMatchIndex > -1) then searchResultAt ri currentMatchIndex else None.

Definition getMatchIndexStart (ri : RegexIndexer) (matchNumber : Z) : option Z :=
  getGroupValue (ri_startEndIndexArray ri) matchNumber 0.

Definition getMatchIndexEnd (ri : RegexIndexer) (matchNumber : Z) : option Z :=
  getGroupValue (ri_startEndIndexArray ri) matchNumber 1.

Definition setCurrentMatchNumber (ri : RegexIndexer) (number : Z) : RegexIndexer :=
  withGroupArray ri (setCurrentGroup (ri_startEndIndexArray ri) number).

Definition getCurrentMatchNumber (ri : RegexIndexer) : Z :=
  currentGroupNumber (ri_startEndIndexArray ri).

(** [_createRegexIndexer]: the indexer, and the query object with the
    [lastIndex] the scan leaves in it. *)
Definition _createRegexIndexer (fuel : nat) (docText : text) (docLineIndex : list Z)
    (query : RegExp) (maxResults : option Z) (startPosition : option Range)
    : option (RegExp * RegexIndexer) :=
  let _startEndIndexArray := _makeGroupArray [] 2 in
  let maxResults := js_or maxResults 10000000 in
  let startPosition :=
    default {| to := {| line := Some 0; ch := 0 |}; from := {| line := Some 0; ch := 0 |} |}
      startPosition in
  '(query, _startEndIndexArray) ←
     _createSearchResults fuel maxResults _startEndIndexArray docText query
       (_indexFromPos docLineIndex (from startPosition));
  Some (query, {| ri_docText := docText; ri_docLineIndex := docLineIndex;
                  ri_startEndIndexArray := _startEndIndexArray |}).

(** ** Binary search by offset *)

(** How the [while] loop of [_findResultIndexNearPos] ends: by [return
    searchIndex] on an exact hit, or by its test, with the last [searchIndex]
    and [compare] (both undefined if the loop body never ran). *)
Inductive BisectExit :=
| Hit (searchIndex : Z)
| Miss (searchIndex compare : option Z).

Fixpoint bisect (fuel : nat) (regexIndexer : RegexIndexer) (pos : option Z)
    (fnCompare : option Z → option Z → Z) (lowerBound upperBound : Z)
    (searchIndex compare : option Z) : option BisectExit :=
  if decide (lowerBound ≤ upperBound) then
    match fuel with
    | O => None
    | S fuel' =>
        let searchIndex := (upperBound + lowerBound) `div` 2 in
        let compare := fnCompare (getMatchIndexStart regexIndexer searchIndex) pos in
        if decide (compare = 0) then Some (Hit searchIndex)
        else if decide (compare = -1)
             then bisect fuel' regexIndexer pos fnCompare (searchIndex + 1) upperBound
                    (Some searchIndex) (Some compare)
             else bisect fuel' regexIndexer pos fnCompare lowerBound (searchIndex - 1)
                    (Some searchIndex) (Some compare)
    end
  else Some (Miss searchIndex compare).

(** What [_findResultIndexNearPos] returns: an index, [false], or the
    undefined [searchIndex] of a loop that never ran. *)
Inductive NearResult :=
| NearIndex (k : Z)
| NearFalse
| NearUndefined.

(** [if (matchIndex)]: a number other than 0. *)
Definition truthy (r : NearResult) : bool :=
  match r with
  | NearIndex k => bool_decide (k ≠ 0)
  | _ => false
  end.

(** [_findResultIndexNearPos]. The interval halves in every round, so
    [length] rounds are enough. *)
Definition _findResultIndexNearPos (regexIndexer : RegexIndexer) (pos : option Z)
    (reverse : bool) (fnCompare : option Z → option Z → Z) : option NearResult :=
  let length := getItemCount regexIndexer in
  let upperBound := length - 1 in
  let lowerBound := 0 in
  out ← bisect (Z.to_nat length) regexIndexer pos fnCompare lowerBound upperBound None None;
  match out with
  | Hit searchIndex => Some (NearIndex searchIndex)
  | Miss searchIndex compare =>
      let searchIndex :=
        if decide (compare = Some (-1) ∧ reverse = false)
        then (λ i, i + 1) <$> searchIndex else searchIndex in
      let searchIndex :=
        if decide (compare = Some 1 ∧ reverse = true)
        then (λ i, i - 1) <$> searchIndex else searchIndex in
      match searchIndex with
      | None => Some NearUndefined
      | Some k => if decide (k < 0 ∨ k >= length) then Some NearFalse else Some (NearIndex k)
      end
  end.

(** ** Documents and the document map *)

(** What the module reads of a [CodeMirror.Doc]; [docId] is the identity of
    the object, the key of the weak map. *)
Record Doc := mkDoc {
  docId : nat;
  getValue : text;
  lineSeparator : text;
  generation : Z;
  lineCount : Z;
}.

Record DocInfo := mkDocInfo {
  di_text : text;
  di_index : list Z;
  di_generation : Z;
}.

Definition _needToIndexDocument (_documentMap : gmap nat DocInfo) (doc : Doc) : bool :=
  match _documentMap !! docId doc with
  | Some docInfo => if decide (di_generation docInfo = generation doc) then false else true
  | None => true
  end.

Definition _indexDocument (_documentMap : gmap nat DocInfo) (doc : Doc) : gmap nat DocInfo :=
  let docText := getValue doc in
  let docLineIndex := _createLineCharacterCountIndex docText (lineSeparator doc) in
  <[docId doc := {| di_text := docText; di_index := docLineIndex;
                    di_generation := generation doc |}]> _documentMap.

(** [_getDocumentIndex] and [_getDocumentText]: reading a field of a missing
    entry throws ([None]). *)
Definition _getDocumentIndex (_documentMap : gmap nat DocInfo) (doc : Doc) : option (list Z) :=
  di_index <$> _documentMap !! docId doc.

Definition _getDocumentText (_documentMap : gmap nat DocInfo) (doc : Doc) : option text :=
  di_text <$> _documentMap !! docId doc.

(** ** The search cursor *)

(** The fields of the cursor object. A field never assigned is [None]
    (or [false] for the three flags, which are only tested for truth). *)
Record Cursor := mkCursor {
  doc : option Doc;
  query : option RegExp;
  ignoreCase : bool;
  maxResults : option Z;
  currentPosition : option Range;
  atOccurrence : bool;
  resultsCurrent : bool;
  regexIndexer : option RegexIndexer;
}.

(** The module's state: the document map and one cursor. *)
Record State := mkState {
  _documentMap : gmap nat DocInfo;
  cursor : Cursor;
}.

(** The [properties] object of [setSearchDocumentAndQuery]; [None] is a
    property that is absent. *)
Record Properties := mkProperties {
  p_document : option Doc;
  p_searchQuery : option SearchQuery;
  p_position : option Pos;
  p_ignoreCase : option bool;
  p_maxResults : option Z;
}.

Definition newCursor : Cursor :=
  {| doc := None; query := None; ignoreCase := false; maxResults := None;
     currentPosition := None; atOccurrence := false; resultsCurrent := false;
     regexIndexer := None |}.

Definition setDoc (c : Cursor) (v : option Doc) : Cursor :=
  {| doc := v; query := query c; ignoreCase := ignoreCase c; maxResults := maxResults c;
     currentPosition := currentPosition c; atOccurrence := atOccurrence c;
     resultsCurrent := resultsCurrent c; regexIndexer := regexIndexer c |}.
Definition setQueryField (c : Cursor) (v : option RegExp) : Cursor :=
  {| doc := doc c; query := v; ignoreCase := ignoreCase c; maxResults := maxResults c;
     currentPosition := currentPosition c; atOccurrence := atOccurrence c;
     resultsCurrent := resultsCurrent c; regexIndexer := regexIndexer c |}.
Definition setIgnoreCase (c : Cursor) (v : bool) : Cursor :=
  {| doc := doc c; query := query c; ignoreCase := v; maxResults := maxResults c;
     currentPosition := currentPosition c; atOccurrence := atOccurrence c;
     resultsCurrent := resultsCurrent c; regexIndexer := regexIndexer c |}.
Definition setMaxResults (c : Cursor) (v : option Z) : Cursor :=
  {| doc := doc c; query := query c; ignoreCase := ignoreCase c; maxResults := v;
     currentPosition := currentPosition c; atOccurrence := atOccurrence c;
     resultsCurrent := resultsCurrent c; regexIndexer := regexIndexer c |}.
Definition setCurrentPosition (c : Cursor) (v : option Range) : Cursor :=
  {| doc := doc c; query := query c; ignoreCase := ignoreCase c; maxResults := maxResults c;
     currentPosition := v; atOccurrence := atOccurrence c;
     resultsCurrent := resultsCurrent c; regexIndexer := regexIndexer c |}.
Definition setAtOccurrence (c : Cursor) (v : bool) : Cursor :=
  {| doc := doc c; query := query c; ignoreCase := ignoreCase c; maxResults := maxResults c;
     currentPosition := currentPosition c; atOccurrence := v;
     resultsCurrent := resultsCurrent c; regexIndexer := regexIndexer c |}.
Definition setResultsCurrent (c : Cursor) (v : bool) : Cursor :=
  {| doc := doc c; query := query c; ignoreCase := ignoreCase c; maxResults := maxResults c;
     currentPosition := currentPosition c; atOccurrence := atOccurrence c;
     resultsCurrent := v; regexIndexer := regexIndexer c |}.
Definition setRegexIndexer (c : Cursor) (v : option RegexIndexer) : Cursor :=
  {| doc := doc c; query := query c; ignoreCase := ignoreCase c; maxResults := maxResults c;
     currentPosition := currentPosition c; atOccurrence := atOccurrence c;
     resultsCurrent := resultsCurrent c; regexIndexer := v |}.

(** [_findNext] and [_findPrevious]. *)
Definition _findNext (cursor : Cursor) : option (option Range * Cursor) :=
  ri ← regexIndexer cursor;
  let '(match_, ri) := nextMatch ri in
  let cursor := setRegexIndexer cursor (Some ri) in
  match match_ with
  | None => Some (None, setCurrentPosition (setAtOccurrence cursor false) None)
  | Some m => Some (Some m, cursor)
  end.

Definition _findPrevious (cursor : Cursor) : option (option Range * Cursor) :=
  ri ← regexIndexer cursor;
  let '(match_, ri) := prevMatch ri in
  let cursor := setRegexIndexer cursor (Some ri) in
  match match_ with
  | None => Some (None, setCurrentPosition (setAtOccurrence cursor false) None)
  | Some m => Some (Some m, cursor)
  end.

(** [_setQuery]. *)
Definition _setQuery (cursor : Cursor) (query_ : SearchQuery) : Cursor :=
  let newRegexQuery := _convertToRegularExpression query_ (ignoreCase cursor) in
  let cursor :=
    match query cursor with
    | Some old =>
        if decide (source old ≠ source newRegexQuery)
        then setResultsCurrent cursor false else cursor
    | None => cursor
    end in
  setQueryField cursor (Some newRegexQuery).

(** [_setPos]. *)
Definition _setPos (cursor : Cursor) (pos : option Pos) : Cursor :=
  let pos := default {| line := Some 0; ch := 0 |} pos in
  setCurrentPosition cursor (Some {| from := pos; to := pos |}).

(** [_startingPositionForFind]; reading [lineCount] of a missing document
    throws ([None]). *)
Definition _startingPositionForFind (cursor : Cursor) (reverse : bool) : option Range :=
  match currentPosition cursor with
  | Some p => Some p
  | None =>
      position ← (if reverse
                  then (λ d, {| line := Some (lineCount d); ch := 0 |}) <$> doc cursor
                  else Some {| line := Some 0; ch := 0 |});
      Some {| from := position; to := position |}
  end.

(** Which values of a property pass [if (properties.x)]. *)
Definition truthyQuery (q : option SearchQuery) : bool :=
  match q with
  | Some (QueryString s) => bool_decide (s ≠ [])
  | Some (QueryRegExp _) => true
  | None => false
  end.

Definition truthyNumber (n : option Z) : bool :=
  match n with
  | Some v => bool_decide (v ≠ 0)
  | None => false
  end.

(** [setSearchDocumentAndQuery]. *)
Definition setSearchDocumentAndQuery (this : Cursor) (properties : Properties) : Cursor :=
  let this := setAtOccurrence this false in
  let this := if default false (p_ignoreCase properties)
              then setIgnoreCase this true else this in
  let this := if p_document properties is Some d then setDoc this (Some d) else this in
  let this := if truthyQuery (p_searchQuery properties)
              then if p_searchQuery properties is Some q then _setQuery this q else this
              else this in
  let this := if p_position properties is Some _
              then _setPos this (p_position properties) else this in
  let this := if truthyNumber (p_maxResults properties)
              then setMaxResults this (p_maxResults properties) else this in
  this.

Definition withCursor (st : State) (c : Cursor) : State :=
  {| _documentMap := _documentMap st; cursor := c |}.

(** [_updateResultsIfNeeded], [scanDocumentAndStoreResultsInCursor] and
    [getMatchCount] call each other; [fuel] also bounds the depth of these
    calls. A cursor without a document or query throws ([None]). *)
Fixpoint _updateResultsIfNeeded (fuel : nat) (st : State) : option State :=
  match fuel with
  | O => None
  | S fuel' =>
      d ← doc (cursor st);
      let st :=
        if _needToIndexDocument (_documentMap st) d
        then {| _documentMap := _indexDocument (_documentMap st) d;
                cursor := setResultsCurrent (cursor st) false |}
        else st in
      if resultsCurrent (cursor st) then Some st
      else snd <$> scanDocumentAndStoreResultsInCursor fuel' st
  end
with scanDocumentAndStoreResultsInCursor (fuel : nat) (st : State) : option (Z * State) :=
  match fuel with
  | O => None
  | S fuel' =>
      d ← doc (cursor st);
      let st :=
        if _needToIndexDocument (_documentMap st) d
        then {| _documentMap := _indexDocument (_documentMap st) d; cursor := cursor st |}
        else st in
      docText ← _getDocumentText (_documentMap st) d;
      docLineIndex ← _getDocumentIndex (_documentMap st) d;
      q ← query (cursor st);
      '(q, ri) ← _createRegexIndexer fuel' docText docLineIndex q
                   (maxResults (cursor st)) (currentPosition (cursor st));
      let c := setResultsCurrent (setRegexIndexer (setQueryField (cursor st) (Some q)) (Some ri)) true in
      getMatchCount fuel' (withCursor st c)
  end
with getMatchCount (fuel : nat) (st : State) : option (Z * State) :=
  match fuel with
  | O => None
  | S fuel' =>
      st ← _updateResultsIfNeeded fuel' st;
      ri ← regexIndexer (cursor st);
      Some (getItemCount ri, st)
  end.

(** [getDocCharacterCount]. *)
Definition getDocCharacterCount (fuel : nat) (st : State) : option (option Z * State) :=
  st ← _updateResultsIfNeeded fuel st;
  d ← doc (cursor st);
  docLineIndex ← _getDocumentIndex (_documentMap st) d;
  Some (aget docLineIndex (len docLineIndex - 1), st).

(** [getCurrentMatchNumber] of the cursor. *)
Definition cursorCurrentMatchNumber (fuel : nat) (st : State) : option (Z * State) :=
  st ← _updateResultsIfNeeded fuel st;
  ri ← regexIndexer (cursor st);
  Some (getCurrentMatchNumber ri, st).

(** [forEachMatch] of the cursor. *)
Definition cursorForEachMatch (fuel : nat) (st : State) : option (list (Pos * Pos) * State) :=
  st ← _updateResultsIfNeeded fuel st;
  ri ← regexIndexer (cursor st);
  calls ← forEachMatch ri;
  Some (calls, st).

(** [find]: the range found, or a false value ([None]). *)
Definition find (fuel : nat) (reverse : bool) (st : State) : option (option Range * State) :=
  st ← _updateResultsIfNeeded fuel st;
  let this := cursor st in
  ri ← regexIndexer this;
  '(foundPosition, this) ←
    (if getCurrentMatch ri is None then
       start ← _startingPositionForFind this reverse;
       let this := setCurrentPosition this (Some start) in
       d ← doc this;
       docLineIndex ← _getDocumentIndex (_documentMap st) d;
       matchIndex ← _findResultIndexNearPos ri (_indexFromPos docLineIndex (from start))
                      reverse _compareMatchResultToPos;
       if truthy matchIndex then
         match matchIndex with
         | NearIndex k =>
             let ri := setCurrentMatchNumber ri k in
             Some (getCurrentMatch ri, setRegexIndexer this (Some ri))
         | _ => Some (None, this)
         end
       else Some (None, this)
     else Some (None, this));
  '(foundPosition, this) ←
    (match foundPosition with
     | None => if reverse then _findPrevious this else _findNext this
     | Some _ => Some (foundPosition, this)
     end);
  let this :=
    match foundPosition with
    | Some _ => setAtOccurrence (setCurrentPosition this foundPosition) true
    | None => this
    end in
  Some (foundPosition, withCursor st this).

(** [createSearchCursor]. *)
Definition createSearchCursor (properties : Properties) : Cursor :=
  setSearchDocumentAndQuery newCursor properties.

End WithHost.

(** ** A host for the examples *)

(** Modelled from the spec: [StringUtils.regexEscape] is not under src/; the
    spec says that string queries are escaped before they are compiled. A
    backslash is put before each character that is special in a regular
    expression. *)
Definition isSpecial (c : ascii) : bool :=
  bool_decide (c ∈ str ".?*+^$[]\(){}|-").

Fixpoint miniEscape (s : text) : text :=
  match s with
  | [] => []
  | c :: s' => if isSpecial c then "\"%char :: c :: miniEscape s' else c :: miniEscape s'
  end.

(** A small regular expression engine, enough for the sources the examples
    use: literal characters, escaped special characters, [.], an atom under
    [*], and a one-atom lookahead [(?=a)]. *)
Inductive atom :=
| AChar (c : ascii)
| ADot.

Inductive item :=
| IOne (a : atom)
| IStar (a : atom)
| IAhead (a : atom).

Definition parseAtom (src : text) : option (atom * text) :=
  match src with
  | [] => None
  | c :: rest =>
      if decide (c = "\"%char) then
        match rest with
        | e :: rest' => if isSpecial e then Some (AChar e, rest') else None
        | [] => None
        end
      else if decide (c = "."%char) then Some (ADot, rest)
      else if isSpecial c then None
      else Some (AChar c, rest)
  end.

Fixpoint parseItems (rounds : nat) (src : text) : option (list item) :=
  match src with
  | [] => Some []
  | _ :: _ =>
      match rounds with
      | O => None
      | S rounds' =>
          if isPrefix (str "(?=") src then
            '(a, rest) ← parseAtom (drop 3 src);
            match rest with
            | c :: rest' =>
                if decide (c = ")"%char) then cons (IAhead a) <$> parseItems rounds' rest'
                else None
            | [] => None
            end
          else
            '(a, rest) ← parseAtom src;
            match rest with
            | c :: rest' =>
                if decide (c = "*"%char) then cons (IStar a) <$> parseItems rounds' rest'
                else cons (IOne a) <$> parseItems rounds' rest
            | [] => Some [IOne a]
            end
      end
  end.

(** The upper case of an ASCII letter, as the [i] flag compares. *)
Definition canonicalize (c : ascii) : ascii :=
  let n := nat_of_ascii c in
  if decide (97 ≤ n ≤ 122)%nat then ascii_of_nat (n - 32) else c.

Definition isLineTerminator (c : ascii) : bool :=
  bool_decide (nat_of_ascii c = 10%nat ∨ nat_of_ascii c = 13%nat).

Definition atomMatches (ignoreCase : bool) (a : atom) (c : ascii) : bool :=
  match a with
  | AChar x => if ignoreCase then bool_decide (canonicalize x = canonicalize c)
               else bool_decide (x = c)
  | ADot => negb (isLineTerminator c)
  end.

(** Greedy [a*] followed by the continuation [k]: one more [a] first, the
    continuation when that fails. *)
Fixpoint starLoop (k : text → option nat) (ignoreCase : bool) (a : atom) (s : text) : option nat :=
  match s with
  | c :: s' =>
      if atomMatches ignoreCase a c then
        match starLoop k ignoreCase a s' with
        | Some n => Some (S n)
        | None => k s
        end
      else k s
  | [] => k s
  end.

Fixpoint matchItems (ignoreCase : bool) (items : list item) (s : text) : option nat :=
  match items with
  | [] => Some O
  | IOne a :: rest =>
      match s with
      | c :: s' => if atomMatches ignoreCase a c then S <$> matchItems ignoreCase rest s' else None
      | [] => None
      end
  | IStar a :: rest => starLoop (matchItems ignoreCase rest) ignoreCase a s
  | IAhead a :: rest =>
      match s with
      | c :: _ => if atomMatches ignoreCase a c then matchItems ignoreCase rest s else None
      | [] => None
      end
  end.

Definition miniMatch (source : text) (ignoreCase : bool) (input : text) (p : Z) : option nat :=
  items ← parseItems (length source) source;
  matchItems ignoreCase items (drop (Z.to_nat p) input).

Definition miniHost : Host := {| regexEscape := miniEscape; regExpMatch := miniMatch |}.

(** A document as CodeMirror holds it: lines joined by ["\n"]. *)
Definition newline : text := [ascii_of_nat 10].

Definition mkDocument (id : nat) (value : string) (generation : Z) : Doc :=
  {| docId := id; getValue := str value; lineSeparator := newline; generation := generation;
     lineCount := len (split (str value) newline) |}.

Definition emptyState (c : Cursor) : State := {| _documentMap := ∅; cursor := c |}.

(** The scenarios of the examples. *)

Definition regexQuery (s : string) : SearchQuery :=
  QueryRegExp {| source := str s; ignoreCaseFlag := false; lastIndex := 0 |}.

Definition cursorFor (document : string) (q : SearchQuery) (ignoreCase : option bool)
    (position : option Pos) : Cursor :=
  @createSearchCursor miniHost
    {| p_document := Some (mkDocument 1 document 1); p_searchQuery := Some q;
       p_position := position; p_ignoreCase := ignoreCase; p_maxResults := None |}.

(** The state a call leaves behind (the state unchanged if the call has no
    result). *)
Definition stateAfter {A} (st : State) (r : option (A * State)) : State :=
  match r with
  | Some (_, st') => st'
  | None => st
  end.

(** The stored offsets of an indexer, as a flat array. *)
Definition storedOffsets (r : option (RegExp * RegexIndexer)) : option (list Z) :=
  (λ x, ga_array (ri_startEndIndexArray x.2)) <$> r.

(** ** Match tables as lists of pairs *)

(** The flat array that stores the pairs [ps]. *)
Fixpoint flat (ps : list (Z * Z)) : list Z :=
  match ps with
  | [] => []
  | (a, e) :: rest => a :: e :: flat rest
  end.

(** Strictly ascending: an earlier element is below a later one. *)
Definition ascending (l : list Z) : Prop :=
  ∀ (i j : nat) a b, l !! i = Some a → l !! j = Some b → (i < j)%nat → a < b.

Fixpoint ascendingb (l : list Z) : bool :=
  match l with
  | a :: (b :: _) as rest => bool_decide (a < b) && ascendingb rest
  | _ => true
  end.

(** ** Lines and their offsets *)

(** The number of characters of [lines], each with a separator of length
    [sepLen] after it. *)
Fixpoint charCount (sepLen : Z) (lines : list text) : Z :=
  match lines with
  | [] => 0
  | l :: rest => len l + sepLen + charCount sepLen rest
  end.

(** The offset at which line [i] starts: the characters of the lines before
    it, with their separators. *)
Definition lineStart (lines : list text) (sep : text) (i : nat) : Z :=
  charCount (len sep) (take i lines).

(** ** The scan as a relation *)

Section ScanModel.
Context `{host : Host} (docText : text) (query : RegExp).

(** Expressions with the source and flags of [query]. *)
Definition sameRegExp (q : RegExp) : Prop :=
  source q = source query ∧ ignoreCaseFlag q = ignoreCaseFlag query.

(** The matcher of [query] on [docText]; it does not depend on
    [lastIndex]. *)
Definition matcherOf : Z → option nat :=
  regExpMatch (source query) (ignoreCaseFlag query) docText.

(** What [exec] finds from [lastIndex = L]: the first offset from [L] on
    (from 0 for a negative [L]) at which the pattern matches, and the end of
    that match. *)
Definition execAt (L : Z) : option (Z * Z) :=
  let start := Z.max 0 L in
  execLoop (Z.to_nat (len docText - start + 1)) matcherOf start.

(** [lastIndex] after a match from [a] to [e] is handled: one past an
    empty match. *)
Definition bump (a e : Z) : Z := if decide (a = e) then e + 1 else e.

(** [Scan limit endIndex L index ps]: the loop of
    [_searchAndAddResultsToArray], entered with [lastIndex = L] and [index]
    values stored, appends the pairs [ps]. *)
Inductive Scan (limit endIndex : Z) : Z → Z → list (Z * Z) → Prop :=
| Scan_null L index :
    execAt L = None → Scan limit endIndex L index []
| Scan_break L index a e :
    execAt L = Some (a, e) →
    index + 2 >= limit ∨ bump a e > endIndex →
    Scan limit endIndex L index [(a, e)]
| Scan_step L index a e ps :
    execAt L = Some (a, e) →
    ¬ (index + 2 >= limit ∨ bump a e > endIndex) →
    Scan limit endIndex (bump a e) (index + 2) ps →
    Scan limit endIndex L index ((a, e) :: ps).

(** [ScanU endIndex L ps]: the same loop when the limit is never
    reached. *)
Inductive ScanU (endIndex : Z) : Z → list (Z * Z) → Prop :=
| ScanU_null L :
    execAt L = None → ScanU endIndex L []
| ScanU_break L a e :
    execAt L = Some (a, e) → bump a e > endIndex → ScanU endIndex L [(a, e)]
| ScanU_step L a e ps :
    execAt L = Some (a, e) → bump a e ≤ endIndex →
    ScanU endIndex (bump a e) ps →
    ScanU endIndex L ((a, e) :: ps).

End ScanModel.

(** [_removeIfDuplicateResultOnEdge] on lists of pairs. *)
Definition dedupPairs (first second : list (Z * Z)) : list (Z * Z) :=
  match first, last second with
  | p :: _, Some x => if decide (p = x) then take (length second - 1) second else second
  | _, _ => second
  end.

(** A two-line document and an indexer over it, for the instances of
    the theorems. *)
Definition twoLines : text := str "ab" ++ newline ++ str "ab".

Definition twoLinesIndexer : RegexIndexer :=
  {| ri_docText := twoLines;
     ri_docLineIndex := _createLineCharacterCountIndex twoLines newline;
     ri_startEndIndexArray := _makeGroupArray [0; 2; 3; 5] 2 |}.

Definition dotStar : RegExp := {| source := str ".*"; ignoreCaseFlag := false; lastIndex := 0 |}.

Definition doubleA : RegExp := {| source := str "aa"; ignoreCaseFlag := false; lastIndex := 0 |}.

Definition abcPattern : RegExp :=
  {| source := str "abc"; ignoreCaseFlag := false; lastIndex := 0 |}.

(** ** Further operations of the module *)

Section MoreOperations.
Context `{host : Host}.

(** [getFullResultInfo]: the current match with the [index] of the match
    array ([None] where [exec] returns null), and the expression with its new
    [lastIndex]. An undefined [lastIndex] is read as 0 by [exec]. Without a
    current match the assignment to [currentMatch.match] throws ([None]),
    after [exec] has run. *)
Definition getFullResultInfo (ri : RegexIndexer) (matchNumber : Z) (query : RegExp)
    (docText : text) : option (Range * option Z) * RegExp :=
  let groupIndex := getGroupIndex (ri_startEndIndexArray ri) matchNumber in
  let query :=
    setLastIndex query (default 0 (aget (ga_array (ri_startEndIndexArray ri)) groupIndex)) in
  let '(matchInfo, query) := exec query docText in
  ((λ currentMatch, (currentMatch, matchInfo)) <$> getCurrentMatch ri, query).

(** [getFullInfoForCurrentMatch] of the cursor; it does not refresh the
    results first. *)
Definition getFullInfoForCurrentMatch (st : State) : option ((Range * option Z) * State) :=
  d ← doc (cursor st);
  docText ← _getDocumentText (_documentMap st) d;
  ri ← regexIndexer (cursor st);
  q ← query (cursor st);
  let '(info, q) := getFullResultInfo ri (getCurrentMatchNumber ri) q docText in
  info ← info;
  Some (info, withCursor st (setQueryField (cursor st) (Some q))).

(** [a > b] on line numbers that may be undefined: false then. *)
Definition gt_line (a b : option Z) : bool :=
  match a, b with
  | Some x, Some y => bool_decide (x > y)
  | _, _ => false
  end.

(** The [for] loop of [forEachMatchWithinRange]: the calls of [fnResult] in
    order. *)
Fixpoint forEachMatchWithinRangeLoop (rounds : nat) (ri : RegexIndexer) (index : Z)
    (lastLine : option Z) (endPosition : Pos) : option (list (Pos * Pos)) :=
  match rounds with
  | O => Some []
  | S rounds' =>
      let groupIndex := getGroupIndex (ri_startEndIndexArray ri) index in
      indexStart ← aget (ga_array (ri_startEndIndexArray ri)) groupIndex;
      indexEnd ← aget (ga_array (ri_startEndIndexArray ri)) (groupIndex + 1);
      let fromPos := _createPosFromIndex (ri_docLineIndex ri) lastLine indexStart in
      let toPos := _createPosFromIndex (ri_docLineIndex ri) (line fromPos) indexEnd in
      if gt_line (line fromPos) (line endPosition) then Some []
      else cons (fromPos, toPos)
             <$> forEachMatchWithinRangeLoop rounds' ri (index + 1) (line toPos) endPosition
  end.

(** [forEachMatchWithinRange] of the indexer [ri], called with the indexer
    [regexIndexer] to search. The nearest match's position is computed from
    the array element at the match number itself. With an undefined nearest
    index (an empty table) no test of the function holds and nothing is
    called. *)
Definition forEachMatchWithinRange (ri regexIndexer : RegexIndexer)
    (startPosition endPosition : Pos) : option (list (Pos * Pos)) :=
  nearestMatchIndex ←
    _findResultIndexNearPos regexIndexer (_indexFromPos (ri_docLineIndex ri) startPosition)
      false _compareMatchResultToPos;
  match nearestMatchIndex with
  | NearFalse => Some []
  | NearUndefined => Some []
  | NearIndex k =>
      offset ← aget (ga_array (ri_startEndIndexArray ri)) k;
      let nearestMatchPosition :=
        _createPosFromIndex (ri_docLineIndex ri) (line startPosition) offset in
      if gt_line (line nearestMatchPosition) (line endPosition) then Some []
      else
        let length := itemCount (ri_startEndIndexArray ri) in
        forEachMatchWithinRangeLoop (Z.to_nat (length - k)) ri k (line startPosition) endPosition
  end.

(** [forEachMatchWithinRange] of the cursor. *)
Definition cursorForEachMatchWithinRange (fuel : nat) (st : State)
    (startPosition endPosition : Pos) : option (list (Pos * Pos) * State) :=
  st ← _updateResultsIfNeeded fuel st;
  ri ← regexIndexer (cursor st);
  calls ← forEachMatchWithinRange ri ri startPosition endPosition;
  Some (calls, st).

(** [scanDocumentForMatches]: the calls of [fnEachMatch], and the document
    map afterwards. *)
Definition scanDocumentForMatches (fuel : nat) (_documentMap : gmap nat DocInfo) (document : Doc)
    (searchQuery : SearchQuery) (ignoreCase : bool) (range : option Range)
    : option (list (Pos * Pos) * gmap nat DocInfo) :=
  let _documentMap :=
    if _needToIndexDocument _documentMap document
    then _indexDocument _documentMap document else _documentMap in
  let regex := _convertToRegularExpression searchQuery ignoreCase in
  documentIndex ← _getDocumentIndex _documentMap document;
  documentText ← _getDocumentText _documentMap document;
  calls ← _scanDocumentUsingRegularExpression fuel documentIndex documentText regex range;
  Some (calls, _documentMap).

End MoreOperations.

(** An indexer whose table stores the pairs [ps], with match number [k]
    current ([k = -1]: no match is current). *)
Definition holds (ri : RegexIndexer) (ps : list (Z * Z)) (k : Z) : Prop :=
  ga_array (ri_startEndIndexArray ri) = flat ps
  ∧ ga_groupSize (ri_startEndIndexArray ri) = 2
  ∧ _currentGroupIndex (ri_startEndIndexArray ri) = 2 * k
  ∧ -1 ≤ k < len ps.

(** A cursor whose results, when they are current, are in an indexer that
    holds a table. *)
Definition cursorOk (c : Cursor) : Prop :=
  resultsCurrent c = true → ∃ ri ps k, regexIndexer c = Some ri ∧ holds ri ps k.

(** Fuel for the scans of the cursor's document [d]: four more than the
    length of its text, and of the text stored for it in the map at its
    generation. *)
Definition enoughFuel (fuel : nat) (st : State) (d : Doc) : Prop :=
  (length (getValue d) + 4 ≤ fuel)%nat
  ∧ ∀ info, _documentMap st !! docId d = Some info →
            di_generation info = generation d →
            (length (di_text info) + 4 ≤ fuel)%nat.

(** The match number [find] moves to from match [k] (or from no match,
    [k = -1]) when it steps with [_findNext] or [_findPrevious]; -1 when the
    step returns false. *)
Definition stepTarget (reverse : bool) (ps : list (Z * Z)) (k : Z) : Z :=
  if reverse then (if decide (1 ≤ k) then k - 1 else -1)
  else (if decide (k + 1 < len ps) then k + 1 else -1).

(** The match number [find] selects when no match is current and the
    binary search has answered [near]: the index found unless it is 0, which
    [if (matchIndex)] takes for false; then, and after [false] or an
    undefined index, the target of the step from no match. *)
Definition seedTarget (reverse : bool) (ps : list (Z * Z)) (near : NearResult) : Z :=
  match near with
  | NearIndex j => if decide (j = 0) then stepTarget reverse ps (-1) else j
  | _ => stepTarget reverse ps (-1)
  end.

(** A settled state for the instances of the theorems: the two-line
    document indexed at its generation, and a cursor over it whose results
    are current, with [twoLinesIndexer] and no match selected. *)
Definition twoLinesDoc : Doc :=
  {| docId := 1; getValue := twoLines; lineSeparator := newline; generation := 1;
     lineCount := 2 |}.

Definition abQuery : RegExp := {| source := str "ab"; ignoreCaseFlag := false; lastIndex := 0 |}.

Definition twoLinesState : State :=
  {| _documentMap := _indexDocument ∅ twoLinesDoc;
     cursor := {| doc := Some twoLinesDoc; query := Some abQuery; ignoreCase := false;
                  maxResults := None; currentPosition := None; atOccurrence := false;
                  resultsCurrent := true; regexIndexer := Some twoLinesIndexer |} |}.

(** The same state with match [k] selected. *)
Definition twoLinesStateAt (k : Z) : State :=
  withCursor twoLinesState
    (setRegexIndexer (cursor twoLinesState) (Some (setCurrentMatchNumber twoLinesIndexer k))).

(** A new cursor over the one-line document ["a"], searched for ["a"],
    before any scan. *)
Definition oneCharDoc : Doc := mkDocument 1 "a" 1.

Definition aQuery : RegExp := {| source := str "a"; ignoreCaseFlag := false; lastIndex := 0 |}.

Definition oneCharState : State :=
  emptyState (cursorFor "a" (QueryString (str "a")) None None).

(** The positions of the pairs [ps], the line of each offset searched from
    the line of the position before it: what the loops of [forEachMatch] and
    of [_scanDocumentUsingRegularExpression] build for the matches [ps]. *)
Fixpoint positionsFrom (L : list Z) (lastLine : option Z) (ps : list (Z * Z))
    : list (Pos * Pos) :=
  match ps with
  | [] => []
  | (a, e) :: rest =>
      let fromPos := _createPosFromIndex L lastLine a in
      let toPos := _createPosFromIndex L (line fromPos) e in
      (fromPos, toPos) :: positionsFrom L (line toPos) rest
  end.

(** * Properties *)

(** ** The cursor's properties object *)

Section CursorFrame.
Context `{host : Host}.

Lemma _setQuery_same_source (c : Cursor) (q : SearchQuery) (old : RegExp) :
  query c = Some old →
  source (_convertToRegularExpression q (ignoreCase c)) = source old →
  resultsCurrent (_setQuery c q) = resultsCurrent c.
Proof.
  intros Hq Hs. unfold _setQuery. rewrite Hq.
  destruct (decide _) as [Hne|_]; [by rewrite Hs in Hne | done].
Qed.

Lemma _setQuery_new_source (c : Cursor) (q : SearchQuery) (old : RegExp) :
  query c = Some old →
  source (_convertToRegularExpression q (ignoreCase c)) ≠ source old →
  resultsCurrent (_setQuery c q) = false.
Proof.
  intros Hq Hs. unfold _setQuery. rewrite Hq.
  destruct (decide _) as [_|Heq]; [done|]. destruct Heq. congruence.
Qed.

Lemma _setQuery_frame (c : Cursor) (q : SearchQuery) :
  doc (_setQuery c q) = doc c ∧ ignoreCase (_setQuery c q) = ignoreCase c
  ∧ maxResults (_setQuery c q) = maxResults c
  ∧ currentPosition (_setQuery c q) = currentPosition c
  ∧ atOccurrence (_setQuery c q) = atOccurrence c
  ∧ regexIndexer (_setQuery c q) = regexIndexer c.
Proof. unfold _setQuery. destruct (query c); [destruct (decide _)|]; done. Qed.

(** C10. [setSearchDocumentAndQuery] resets [atOccurrence] and leaves every
    stored field as it was when its property is absent or falsy: an absent or
    false [ignoreCase] (so a cursor that ignores case keeps doing so), an
    absent or zero [maxResults], an absent [document] or [position], an
    absent or empty [searchQuery] (which leaves the query and
    [resultsCurrent]); the indexer is never touched. *)
Theorem setSearchDocumentAndQuery_frame (c : Cursor) (p : Properties) :
  let c' := setSearchDocumentAndQuery c p in
  atOccurrence c' = false
  ∧ ((p_ignoreCase p = None ∨ p_ignoreCase p = Some false) → ignoreCase c' = ignoreCase c)
  ∧ (ignoreCase c = true → ignoreCase c' = true)
  ∧ ((p_maxResults p = None ∨ p_maxResults p = Some 0) → maxResults c' = maxResults c)
  ∧ (p_document p = None → doc c' = doc c)
  ∧ ((p_searchQuery p = None ∨ p_searchQuery p = Some (QueryString []))
     → query c' = query c ∧ resultsCurrent c' = resultsCurrent c)
  ∧ (p_position p = None → currentPosition c' = currentPosition c)
  ∧ regexIndexer c' = regexIndexer c.
Proof.
  destruct p as [pd pq pp pi pm]. unfold setSearchDocumentAndQuery. simpl.
  set (c1 := if default false pi then _ else _).
  set (c2 := match pd with Some d => _ | None => _ end).
  set (c3 := if truthyQuery pq then _ else _).
  set (c4 := match pp with Some _ => _ | None => _ end).
  set (c5 := if truthyNumber pm then _ else _).
  assert (H1 : atOccurrence c1 = false ∧ doc c1 = doc c ∧ query c1 = query c
               ∧ maxResults c1 = maxResults c ∧ currentPosition c1 = currentPosition c
               ∧ resultsCurrent c1 = resultsCurrent c ∧ regexIndexer c1 = regexIndexer c
               ∧ (default false pi = false → ignoreCase c1 = ignoreCase c)
               ∧ (ignoreCase c = true → ignoreCase c1 = true)).
  { subst c1. destruct (default false pi); simpl; intuition congruence. }
  assert (H2 : atOccurrence c2 = atOccurrence c1 ∧ ignoreCase c2 = ignoreCase c1
               ∧ query c2 = query c1 ∧ maxResults c2 = maxResults c1
               ∧ currentPosition c2 = currentPosition c1
               ∧ resultsCurrent c2 = resultsCurrent c1 ∧ regexIndexer c2 = regexIndexer c1
               ∧ (pd = None → doc c2 = doc c1)).
  { subst c2. destruct pd; simpl; intuition congruence. }
  assert (H3 : atOccurrence c3 = atOccurrence c2 ∧ ignoreCase c3 = ignoreCase c2
               ∧ doc c3 = doc c2 ∧ maxResults c3 = maxResults c2
               ∧ currentPosition c3 = currentPosition c2 ∧ regexIndexer c3 = regexIndexer c2
               ∧ (truthyQuery pq = false → query c3 = query c2
                                            ∧ resultsCurrent c3 = resultsCurrent c2)).
  { subst c3. destruct (truthyQuery pq); [destruct pq as [q|]|]; simpl;
      [pose proof (_setQuery_frame c2 q) | |]; intuition congruence. }
  assert (H4 : atOccurrence c4 = atOccurrence c3 ∧ ignoreCase c4 = ignoreCase c3
               ∧ doc c4 = doc c3 ∧ maxResults c4 = maxResults c3 ∧ query c4 = query c3
               ∧ resultsCurrent c4 = resultsCurrent c3 ∧ regexIndexer c4 = regexIndexer c3
               ∧ (pp = None → currentPosition c4 = currentPosition c3)).
  { subst c4. destruct pp; simpl; intuition congruence. }
  assert (H5 : atOccurrence c5 = atOccurrence c4 ∧ ignoreCase c5 = ignoreCase c4
               ∧ doc c5 = doc c4 ∧ currentPosition c5 = currentPosition c4
               ∧ query c5 = query c4 ∧ resultsCurrent c5 = resultsCurrent c4
               ∧ regexIndexer c5 = regexIndexer c4
               ∧ (truthyNumber pm = false → maxResults c5 = maxResults c4)).
  { subst c5. destruct (truthyNumber pm); simpl; intuition congruence. }
  clearbody c1 c2 c3 c4 c5.
  destruct H1 as (?&?&?&?&?&?&?&Hi&Hi'), H2 as (?&?&?&?&?&?&?&Hd), H3 as (?&?&?&?&?&?&Hq),
    H4 as (?&?&?&?&?&?&?&Hp), H5 as (?&?&?&?&?&?&?&Hm).
  split_and!.
  - congruence.
  - intros [->| ->]; simpl in Hi; rewrite <- Hi by done; congruence.
  - intros Ht. specialize (Hi' Ht). congruence.
  - intros [->| ->]; simpl in Hm; rewrite Hm by done; congruence.
  - intros Hn. specialize (Hd Hn). congruence.
  - intros Hn. destruct Hq as [Hq Hr]; [by destruct Hn as [->| ->]|].
    split; congruence.
  - intros Hn. specialize (Hp Hn). congruence.
  - congruence.
Qed.

End CursorFrame.

(** ** Arrays and group arrays *)

Lemma aget_Some {A} (l : list A) (i : Z) (v : A) :
  aget l i = Some v ↔ 0 ≤ i ∧ l !! Z.to_nat i = Some v.
Proof. unfold aget. destruct (decide (0 ≤ i)); intuition (try discriminate; lia). Qed.

Lemma aget_range {A} (l : list A) (i : Z) (v : A) : aget l i = Some v → 0 ≤ i < len l.
Proof. intros [? H]%aget_Some. apply lookup_lt_Some in H. lia. Qed.

Lemma aget_is_Some {A} (l : list A) (i : Z) : 0 ≤ i < len l → is_Some (aget l i).
Proof. intros ?. unfold aget. rewrite decide_True by lia. apply lookup_lt_is_Some. lia. Qed.

Lemma aget_of_nat {A} (l : list A) (k : nat) : aget l (Z.of_nat k) = l !! k.
Proof. unfold aget. rewrite decide_True by lia. by rewrite Nat2Z.id. Qed.

Lemma aset_end (l : list Z) (v : Z) : aset l (len l) v = l ++ [v].
Proof. unfold aset. rewrite decide_False by lia. by rewrite Z.sub_diag. Qed.

Lemma length_flat (ps : list (Z * Z)) : length (flat ps) = (2 * length ps)%nat.
Proof. induction ps as [|[a e] ps IH]; simpl; lia. Qed.

Lemma flat_app (ps qs : list (Z * Z)) : flat (ps ++ qs) = flat ps ++ flat qs.
Proof. induction ps as [|[a e] ps IH]; simpl; [done | by rewrite IH]. Qed.

Lemma flat_inj (ps qs : list (Z * Z)) : flat ps = flat qs → ps = qs.
Proof.
  revert qs. induction ps as [|[a e] ps IH]; intros [|[b f] qs] H; try done.
  simpl in H. injection H as -> -> H. f_equal. by apply IH.
Qed.

Lemma flat_lookup_start (ps : list (Z * Z)) (k : nat) : flat ps !! (2 * k)%nat = ps.*1 !! k.
Proof.
  revert k. induction ps as [|[a e] ps IH]; intros [|k]; try done.
  replace (2 * S k)%nat with (S (S (2 * k))) by lia. apply IH.
Qed.

Lemma flat_lookup_end (ps : list (Z * Z)) (k : nat) : flat ps !! (2 * k + 1)%nat = ps.*2 !! k.
Proof.
  revert k. induction ps as [|[a e] ps IH]; intros [|k]; try done.
  replace (2 * S k + 1)%nat with (S (S (2 * k + 1))) by lia. apply IH.
Qed.

Lemma getGroupValue_flat_start (g : GroupArray) (ps : list (Z * Z)) (k : Z) :
  ga_array g = flat ps → ga_groupSize g = 2 → getGroupValue g k 0 = aget (ps.*1) k.
Proof.
  intros Ha Hg. unfold getGroupValue, aget. rewrite Ha, Hg.
  destruct (decide (0 ≤ k)).
  - rewrite decide_True by lia. rewrite <- flat_lookup_start. f_equal. lia.
  - by rewrite decide_False by lia.
Qed.

Lemma getGroupValue_flat_end (g : GroupArray) (ps : list (Z * Z)) (k : Z) :
  ga_array g = flat ps → ga_groupSize g = 2 → getGroupValue g k 1 = aget (ps.*2) k.
Proof.
  intros Ha Hg. unfold getGroupValue, aget. rewrite Ha, Hg.
  destruct (decide (0 ≤ k)).
  - rewrite decide_True by lia. rewrite <- flat_lookup_end. f_equal. lia.
  - by rewrite decide_False by lia.
Qed.

Lemma itemCount_flat (g : GroupArray) (ps : list (Z * Z)) :
  ga_array g = flat ps → ga_groupSize g = 2 → itemCount g = len ps.
Proof.
  intros Ha Hg. unfold itemCount. rewrite Ha, Hg, length_flat.
  rewrite Nat2Z.inj_mul. change (Z.of_nat 2) with 2. rewrite Z.mul_comm. by apply Z.div_mul.
Qed.

Lemma take_flat (ps : list (Z * Z)) (k : nat) : take (2 * k) (flat ps) = flat (take k ps).
Proof.
  revert k. induction ps as [|[a e] ps IH]; intros [|k]; try done.
  replace (2 * S k)%nat with (S (S (2 * k))) by lia.
  change (a :: e :: take (2 * k) (flat ps) = flat (take (S k) ((a, e) :: ps))).
  by rewrite IH.
Qed.

(** [_removeIfDuplicateResultOnEdge] on group arrays that store pairs. *)
Lemma removeIfDuplicate_flat (g1 g2 : GroupArray) (P Sx : list (Z * Z)) :
  ga_array g1 = flat P → ga_groupSize g1 = 2 →
  ga_array g2 = flat Sx → ga_groupSize g2 = 2 →
  ga_array (_removeIfDuplicateResultOnEdge g1 g2) = flat (dedupPairs P Sx).
Proof.
  intros Ha1 Hs1 Ha2 Hs2. unfold _removeIfDuplicateResultOnEdge, dedupPairs.
  rewrite (itemCount_flat g1 P Ha1 Hs1), (itemCount_flat g2 Sx Ha2 Hs2).
  destruct P as [|p P].
  { by rewrite decide_True by (left; done). }
  rewrite last_lookup. destruct (Sx !! pred (length Sx)) as [x|] eqn:Hx.
  - pose proof (lookup_lt_Some _ _ _ Hx) as Hlt.
    rewrite decide_False by (simpl; lia).
    unfold _isGroupValuesEqual.
    rewrite (getGroupValue_flat_start g1 _ _ Ha1 Hs1), (getGroupValue_flat_end g1 _ _ Ha1 Hs1).
    rewrite (getGroupValue_flat_start g2 _ _ Ha2 Hs2), (getGroupValue_flat_end g2 _ _ Ha2 Hs2).
    replace (len Sx - 1) with (Z.of_nat (pred (length Sx))) by lia.
    change 0 with (Z.of_nat 0). rewrite !aget_of_nat, !list_lookup_fmap, Hx. simpl.
    destruct (decide (p = x)) as [->|Hne].
    + rewrite !bool_decide_eq_true_2 by done. simpl.
      rewrite Ha2, !length_take, length_flat.
      rewrite take_take.
      replace (((2 * length Sx - 1) `min` (2 * length Sx) - 1) `min` (2 * length Sx - 1))%nat
        with (2 * (length Sx - 1))%nat by lia.
      apply take_flat.
    + destruct p as [pa pe], x as [xa xe]. simpl.
      destruct (decide (pa = xa)) as [->|?].
      * rewrite bool_decide_eq_true_2 by done.
        rewrite bool_decide_eq_false_2 by congruence. done.
      * rewrite bool_decide_eq_false_2 by congruence. done.
  - apply lookup_ge_None in Hx.
    rewrite decide_True; [done|]. right. destruct Sx; simpl in *; [done | lia].
Qed.

Lemma dedupPairs_sublist (P Sx : list (Z * Z)) x : x ∈ dedupPairs P Sx → x ∈ Sx.
Proof.
  unfold dedupPairs. destruct P as [|p P]; [done|].
  destruct (last Sx); [|done]. destruct (decide _); [|done].
  intros Hin. apply list_elem_of_lookup_1 in Hin as [i Hi].
  apply lookup_take_Some in Hi as [Hi _]. by eapply list_elem_of_lookup_2.
Qed.

(** ** Strictly ascending lists *)

Lemma ascending_nil : ascending [].
Proof. intros i j a b Hi. done. Qed.

Lemma ascending_cons (a : Z) (l : list Z) :
  ascending (a :: l) ↔ (∀ b, b ∈ l → a < b) ∧ ascending l.
Proof.
  split.
  - intros H. split.
    + intros b [k Hk]%list_elem_of_lookup_1. apply (H O (S k) a b); [done | done | lia].
    + intros i j x y Hi Hj ?. apply (H (S i) (S j) x y); [done..|lia].
  - intros [Hhd Htl] [|i] [|j] x y Hi Hj ?; simpl in *; try lia.
    + simplify_eq. apply Hhd. by eapply list_elem_of_lookup_2.
    + apply (Htl i j); [done | done | lia].
Qed.

Lemma ascending_app (l1 l2 : list Z) :
  ascending (l1 ++ l2) ↔ ascending l1 ∧ ascending l2 ∧ ∀ a b, a ∈ l1 → b ∈ l2 → a < b.
Proof.
  induction l1 as [|x l1 IH]; simpl.
  - split; [intros H | intros (_ & H & _); done].
    split_and!; [apply ascending_nil | done | intros a b Ha; by apply elem_of_nil in Ha].
  - rewrite !ascending_cons, IH. setoid_rewrite elem_of_app. setoid_rewrite elem_of_cons.
    naive_solver.
Qed.

Lemma ascendingb_sound (l : list Z) : ascendingb l = true → ascending l.
Proof.
  induction l as [|a [|b l] IH]; intros H.
  - apply ascending_nil.
  - apply ascending_cons. split; [intros b Hb; by apply elem_of_nil in Hb | apply ascending_nil].
  - simpl in H. apply andb_prop in H as [Hab%bool_decide_eq_true_1 Hrest].
    specialize (IH Hrest). apply ascending_cons. split; [|done].
    apply ascending_cons in IH as [Hb _].
    intros c [->|Hc]%elem_of_cons; [done|]. specialize (Hb c Hc). lia.
Qed.

(** ** Splitting and joining *)

Lemma isPrefix_spec (p s : text) : isPrefix p s = true ↔ ∃ r, s = p ++ r.
Proof.
  revert s. induction p as [|a p IH]; intros s; simpl.
  - split; [eauto | done].
  - destruct s as [|b s]; [split; [done | by intros [r ?]]|].
    destruct (decide (a = b)) as [->|Hne].
    + rewrite IH. split; intros [r Hr]; exists r; [by rewrite Hr | by simplify_eq].
    + split; [done | intros [r Hr]; by simplify_eq].
Qed.

Lemma indexOf_spec (sep s : text) (j : nat) :
  indexOf sep s = Some j → s = take j s ++ sep ++ drop (j + length sep) s.
Proof.
  revert j. induction s as [|c s IH]; intros j; simpl.
  - destruct (isPrefix sep []) eqn:Hp; [|done].
    intros [= <-]. apply isPrefix_spec in Hp as [r Hr].
    symmetry in Hr. apply app_eq_nil in Hr as [-> ->]. done.
  - destruct (isPrefix sep (c :: s)) eqn:Hp.
    + intros [= <-]. apply isPrefix_spec in Hp as [r Hr]. simpl.
      rewrite Hr at 1. f_equal. rewrite Hr. by rewrite drop_app_length.
    + destruct (indexOf sep s) as [k|] eqn:Hk; [|done].
      intros [= <-]. simpl. f_equal. by apply IH.
Qed.

Lemma splitLoop_not_nil (rounds : nat) (sep s : text) : splitLoop rounds sep s ≠ [].
Proof. destruct rounds; simpl; [done|]. by destruct (indexOf sep s). Qed.

Lemma join_cons (sep l : text) (rest : list text) :
  rest ≠ [] → join sep (l :: rest) = l ++ sep ++ join sep rest.
Proof. by destruct rest. Qed.

Lemma join_splitLoop (rounds : nat) (sep s : text) : join sep (splitLoop rounds sep s) = s.
Proof.
  revert s. induction rounds as [|rounds IH]; intros s; simpl; [done|].
  destruct (indexOf sep s) as [j|] eqn:Hj; [|done].
  rewrite join_cons by apply splitLoop_not_nil. rewrite IH.
  symmetry. by apply indexOf_spec.
Qed.

(** Joining the pieces of a split gives the text back. *)
Lemma join_split (s sep : text) : join sep (split s sep) = s.
Proof.
  destruct sep as [|c sep]; simpl; [|apply join_splitLoop].
  induction s as [|a [|b s] IH]; [done..|].
  change (join [] ([a] :: ((λ c, [c]) <$> b :: s)) = a :: b :: s).
  rewrite join_cons by done. simpl in *. by rewrite IH.
Qed.

Lemma split_not_nil (s sep : text) : s ≠ [] ∨ sep ≠ [] → split s sep ≠ [].
Proof.
  destruct sep as [|c sep]; simpl; [|intros _; apply splitLoop_not_nil].
  destruct s; [by intros [?|?] | done].
Qed.

(** ** The line index *)

Lemma charCount_app (sepLen : Z) (l1 l2 : list text) :
  charCount sepLen (l1 ++ l2) = charCount sepLen l1 + charCount sepLen l2.
Proof. induction l1 as [|l l1 IH]; simpl; lia. Qed.

Lemma charCount_nonneg (sepLen : Z) (lines : list text) : 0 ≤ sepLen → 0 ≤ charCount sepLen lines.
Proof. intros ?. induction lines; simpl; lia. Qed.

Lemma charCount_take_le (sepLen : Z) (lines : list text) (i j : nat) :
  0 ≤ sepLen → (i ≤ j)%nat → charCount sepLen (take i lines) ≤ charCount sepLen (take j lines).
Proof.
  intros ? Hij. replace j with (i + (j - i))%nat by lia.
  rewrite <- take_take_drop. rewrite charCount_app.
  pose proof (charCount_nonneg sepLen (take (j - i) (drop i lines))). lia.
Qed.

Lemma charCount_take_all (sepLen : Z) (lines : list text) (i : nat) :
  0 ≤ sepLen → charCount sepLen (take i lines) ≤ charCount sepLen lines.
Proof.
  intros ?. rewrite <- (take_drop i lines) at 2. rewrite charCount_app.
  pose proof (charCount_nonneg sepLen (drop i lines)). lia.
Qed.

Lemma charCount_take_S (sepLen : Z) (lines : list text) (i : nat) (l : text) :
  lines !! i = Some l →
  charCount sepLen (take (S i) lines) = charCount sepLen (take i lines) + len l + sepLen.
Proof.
  intros Hl. erewrite take_S_r by done. rewrite charCount_app. simpl. lia.
Qed.

Lemma charCount_join (sep : text) (lines : list text) :
  lines ≠ [] → len (join sep lines) + len sep = charCount (len sep) lines.
Proof.
  induction lines as [|l [|l' rest] IH]; intros Hne; [done|simpl; lia|].
  rewrite join_cons by done. rewrite !length_app. specialize (IH ltac:(done)).
  change (charCount (len sep) (l :: l' :: rest))
    with (len l + len sep + charCount (len sep) (l' :: rest)). lia.
Qed.

(** The text from the start of line [i] on is line [i] and the lines after
    it. *)
Lemma drop_lineStart (sep : text) (lines : list text) (i : nat) :
  (i < length lines)%nat →
  drop (Z.to_nat (lineStart lines sep i)) (join sep lines) = join sep (drop i lines).
Proof.
  unfold lineStart. revert i. induction lines as [|l rest IH]; intros i Hi; [simpl in Hi; lia|].
  destruct i as [|i]; [done|]. simpl in Hi.
  assert (rest ≠ []) as Hne by (destruct rest; [simpl in Hi; lia | done]).
  rewrite join_cons by done. simpl take. simpl charCount. simpl drop.
  pose proof (charCount_nonneg (len sep) (take i rest) ltac:(lia)).
  replace (Z.to_nat (len l + len sep + charCount (len sep) (take i rest)))
    with (length l + (length sep + Z.to_nat (charCount (len sep) (take i rest))))%nat by lia.
  rewrite <- drop_drop, drop_app_length. rewrite <- drop_drop, drop_app_length.
  apply IH. lia.
Qed.

Lemma length_lineCharacterCountLoop (lines : list text) (sepLen total : Z) :
  length (lineCharacterCountLoop lines sepLen total) = length lines.
Proof. revert total. induction lines as [|l lines IH]; intros total; simpl; [done|]. by rewrite IH. Qed.

Lemma lineCharacterCountLoop_lookup (lines : list text) (sepLen total : Z) (k : nat) (l : text) :
  lines !! k = Some l →
  lineCharacterCountLoop lines sepLen total !! k
  = Some (Uint32 (total + charCount sepLen (take (S k) lines))).
Proof.
  revert total k. induction lines as [|l0 lines IH]; intros total k Hk; [done|].
  destruct k as [|k]; simpl.
  - do 2 f_equal. lia.
  - simpl in Hk. rewrite (IH _ _ Hk). do 2 f_equal. lia.
Qed.

Section LineIndex.
Context (docText sep : text).
Context (Hsize : len docText + len sep < 2 ^ 32).

Let lines := split docText sep.
Let L := _createLineCharacterCountIndex docText sep.

Lemma length_lineIndex : length L = length lines.
Proof. apply length_lineCharacterCountLoop. Qed.

Lemma charCount_lines : lines ≠ [] → charCount (len sep) lines = len docText + len sep.
Proof.
  intros Hne. rewrite <- (charCount_join sep lines Hne). subst lines. by rewrite join_split.
Qed.

(** Without wrap-around, element [k] of the index is the start offset of
    line [k + 1]. *)
Lemma lineIndex_lookup (k : nat) (l : text) :
  lines !! k = Some l → L !! k = Some (lineStart lines sep (S k)).
Proof.
  intros Hk. subst L. unfold _createLineCharacterCountIndex. fold lines.
  rewrite (lineCharacterCountLoop_lookup _ _ _ _ _ Hk). f_equal.
  unfold lineStart, Uint32. rewrite Z.add_0_l. apply Z.mod_small.
  assert (lines ≠ []) as Hne by (intros Heq; by rewrite Heq in Hk).
  pose proof (charCount_nonneg (len sep) (take (S k) lines) ltac:(lia)).
  pose proof (charCount_take_all (len sep) lines (S k) ltac:(lia)).
  pose proof (charCount_lines Hne). lia.
Qed.

Lemma lineStart_S (k : nat) (l : text) :
  lines !! k = Some l → lineStart lines sep (S k) = lineStart lines sep k + len l + len sep.
Proof. apply charCount_take_S. Qed.

Lemma lineStart_mono (i j : nat) : (i ≤ j)%nat → lineStart lines sep i ≤ lineStart lines sep j.
Proof. apply charCount_take_le. lia. Qed.

End LineIndex.

Lemma take_join_head (sep l : text) (rest : list text) :
  take (length l) (join sep (l :: rest)) = l.
Proof.
  destruct rest as [|l' rest]; [apply take_ge; simpl; lia|].
  rewrite join_cons by done. apply take_app_length.
Qed.

(** C3, amended. For a text and a line separator that are not both empty
    and whose lengths sum to less than [2^32], the line index has one
    element per line, its last element is the length of the text plus the
    length of the separator, and for every [i > 0] the element [L[i-1]] is
    the start offset of line [i]: the text from that offset on is line [i]
    followed by the lines after it. *)
Theorem line_index_last_and_starts (docText sep : text) :
  len docText + len sep < 2 ^ 32 →
  docText ≠ [] ∨ sep ≠ [] →
  let lines := split docText sep in
  let L := _createLineCharacterCountIndex docText sep in
  len L = len lines
  ∧ aget L (len L - 1) = Some (len docText + len sep)
  ∧ ∀ (i : nat) (lineText : text), (0 < i)%nat → lines !! i = Some lineText →
      aget L (Z.of_nat i - 1) = Some (lineStart lines sep i)
      ∧ drop (Z.to_nat (lineStart lines sep i)) docText = join sep (drop i lines)
      ∧ take (length lineText) (drop (Z.to_nat (lineStart lines sep i)) docText) = lineText.
Proof.
  intros Hsize Hne lines L.
  assert (lines ≠ []) as Hlines by by apply split_not_nil.
  pose proof (length_lineIndex docText sep) as Hlen. fold lines L in Hlen.
  split_and!.
  - by rewrite Hlen.
  - assert (0 < length lines)%nat as Hpos by (destruct lines; [done | simpl; lia]).
    destruct (lookup_lt_is_Some_2 lines (length lines - 1)) as [l Hl]; [lia|].
    replace (len L - 1) with (Z.of_nat (length lines - 1)) by lia.
    rewrite aget_of_nat. subst L. rewrite (lineIndex_lookup docText sep Hsize _ l Hl).
    f_equal. unfold lineStart. fold lines.
    replace (S (length lines - 1)) with (length lines) by lia.
    rewrite take_ge by done. by apply charCount_lines.
  - intros i lineText Hi Hl.
    destruct (lookup_lt_is_Some_2 lines (i - 1)) as [l' Hl'];
      [apply lookup_lt_Some in Hl; lia|].
    assert (drop (Z.to_nat (lineStart lines sep i)) docText = join sep (drop i lines)) as Hdrop.
    { rewrite <- (join_split docText sep) at 1. fold lines.
      apply drop_lineStart. by eapply lookup_lt_Some. }
    split_and!.
    + replace (Z.of_nat i - 1) with (Z.of_nat (i - 1)) by lia.
      rewrite aget_of_nat. subst L. rewrite (lineIndex_lookup docText sep Hsize _ l' Hl').
      do 2 f_equal. lia.
    + done.
    + rewrite Hdrop. erewrite drop_S by done. apply take_join_head.
Qed.

(** The [for] loop of [_lineFromIndex] stops at the first line whose
    element is above the offset. *)
Lemma lineFromIndexLoop_first (rounds : nat) (L : list Z) (n target index : Z) :
  n ≤ target → target - n < Z.of_nat rounds →
  (∀ k, n ≤ k < target → ∃ v, aget L k = Some v ∧ v ≤ index) →
  (∃ w, aget L target = Some w ∧ index < w) →
  lineFromIndexLoop rounds L n index = Some target.
Proof.
  revert n. induction rounds as [|rounds IH]; intros n Hn Hr Hbefore Hat; [lia|].
  simpl. destruct (decide (n = target)) as [->|Hne].
  - destruct Hat as (w & -> & Hw). simpl. by rewrite bool_decide_eq_true_2 by lia.
  - destruct (Hbefore n ltac:(lia)) as (v & -> & Hv). simpl.
    rewrite bool_decide_eq_false_2 by lia.
    apply IH; [lia | lia | | done]. intros k Hk. apply Hbefore. lia.
Qed.

(** C8. For the line index of a document (a text with a non-empty line
    separator, together shorter than [2^32]) and a valid position (a line of
    the document, [ch] from 0 to the length of the line's text),
    [_indexFromPos] gives an offset, and [_createPosFromIndex] with the
    search started at line 0 gives the position back. *)
Theorem posFromIndex_indexFromPos (docText sep : text) (l : nat) (c : Z) (lineText : text) :
  len docText + len sep < 2 ^ 32 →
  sep ≠ [] →
  split docText sep !! l = Some lineText →
  0 ≤ c ≤ len lineText →
  let L := _createLineCharacterCountIndex docText sep in
  let pos := {| line := Some (Z.of_nat l); ch := c |} in
  ∃ i, _indexFromPos L pos = Some i ∧ _createPosFromIndex L (Some 0) i = pos.
Proof.
  intros Hsize Hsep Hl Hc L pos.
  set (lines := split docText sep) in *.
  assert (0 < len sep) as Hseplen by (destruct sep; [done | simpl; lia]).
  pose proof (lookup_lt_Some _ _ _ Hl) as Hlt.
  pose proof (length_lineIndex docText sep) as Hlen. fold lines L in Hlen.
  assert (∀ k : nat, (k < length lines)%nat → aget L (Z.of_nat k) = Some (lineStart lines sep (S k)))
    as HL.
  { intros k Hk. destruct (lookup_lt_is_Some_2 lines k Hk) as [l' Hl'].
    rewrite aget_of_nat. subst L. by rewrite (lineIndex_lookup docText sep Hsize _ l' Hl'). }
  assert ((if decide (Z.of_nat l > 0) then aget L (Z.of_nat l - 1) else Some 0)
          = Some (lineStart lines sep l)) as Hstart.
  { destruct (decide (Z.of_nat l > 0)).
    - replace (Z.of_nat l - 1) with (Z.of_nat (l - 1)) by lia. rewrite HL by lia.
      do 2 f_equal. lia.
    - by replace l with O by lia. }
  exists (lineStart lines sep l + c). split.
  - unfold _indexFromPos. simpl. by rewrite Hstart.
  - unfold _createPosFromIndex, _lineFromIndex.
    rewrite (lineFromIndexLoop_first _ L 0 (Z.of_nat l)).
    + subst pos. f_equal.
      destruct (decide (Z.of_nat l > 0)) as [Hpos|Hzero].
      * rewrite Hstart. simpl. lia.
      * simplify_eq. lia.
    + lia.
    + lia.
    + intros k Hk. exists (lineStart lines sep (S (Z.to_nat k))). split.
      * rewrite <- HL by lia. f_equal. lia.
      * pose proof (lineStart_mono docText sep (S (Z.to_nat k)) l ltac:(lia)).
        fold lines in H. lia.
    + exists (lineStart lines sep (S l)). split; [by apply HL|].
      pose proof (lineStart_S docText sep l lineText Hl) as HS. fold lines in HS. lia.
Qed.

(** ** Binary search by offset *)

Section Bisect.
Context (ri : RegexIndexer) (ps : list (Z * Z)).
Context (Harray : ga_array (ri_startEndIndexArray ri) = flat ps).
Context (Hsize : ga_groupSize (ri_startEndIndexArray ri) = 2).
Context (Hasc : ascending (ps.*1)).

Lemma getMatchIndexStart_flat (k : Z) : getMatchIndexStart ri k = aget (ps.*1) k.
Proof. by apply getGroupValue_flat_start. Qed.

Lemma getItemCount_flat : getItemCount ri = len ps.
Proof. by apply itemCount_flat. Qed.

Lemma starts_lt (i j a b : Z) :
  aget (ps.*1) i = Some a → aget (ps.*1) j = Some b → i < j → a < b.
Proof.
  intros [? Hi]%aget_Some [? Hj]%aget_Some ?. eapply Hasc; [done..|lia].
Qed.

Lemma starts_le (i j a b : Z) :
  aget (ps.*1) i = Some a → aget (ps.*1) j = Some b → i ≤ j → a ≤ b.
Proof.
  intros Hi Hj ?. destruct (decide (i = j)) as [->|]; [naive_solver lia|].
  pose proof (starts_lt i j a b Hi Hj). lia.
Qed.

(** The interval shrinks in every round: the loop never runs out of
    fuel that covers the interval. *)
Lemma bisect_terminates (r : RegexIndexer) (pos : option Z)
    (fnCompare : option Z → option Z → Z) (fuel : nat) (lo hi : Z) (si cp : option Z) :
  hi - lo + 1 ≤ Z.of_nat fuel → is_Some (bisect fuel r pos fnCompare lo hi si cp).
Proof.
  revert lo hi si cp. induction fuel as [|fuel IH]; intros lo hi si cp Hfuel; simpl.
  - by rewrite decide_False by lia.
  - destruct (decide (lo ≤ hi)); [|done].
    assert (lo ≤ (hi + lo) `div` 2 ≤ hi) as Hmid.
    { split; [apply Z.div_le_lower_bound | apply Z.div_le_upper_bound]; lia. }
    destruct (decide (_ = 0)); [done|].
    destruct (decide (_ = -1)); apply IH; lia.
Qed.

Local Ltac bisect_side :=
  intros;
  match goal with
  | H : ∀ k v, aget _ k = Some v → _ → _ |- _ => eapply H; [eassumption | lia]
  end.

(** The loop ends with an exact hit, or at a boundary [b]: the starts
    before [b] are below the offset, the starts from [b] on are above it,
    and the last probe was just before [b] (compare -1) or at [b]
    (compare 1). *)
Lemma bisect_spec (offset : Z) (fuel : nat) (lo hi : Z) (si cp : option Z) :
  0 ≤ lo → hi < len ps → lo ≤ hi + 1 → hi - lo + 1 ≤ Z.of_nat fuel →
  (∀ k v, aget (ps.*1) k = Some v → k < lo → v < offset) →
  (∀ k v, aget (ps.*1) k = Some v → hi < k → offset < v) →
  (lo = hi + 1 → (cp = Some (-1) ∧ si = Some (lo - 1)) ∨ (cp = Some 1 ∧ si = Some lo)) →
  (∃ k, bisect fuel ri (Some offset) _compareMatchResultToPos lo hi si cp = Some (Hit k)
        ∧ aget (ps.*1) k = Some offset)
  ∨ (∃ b si' cp', bisect fuel ri (Some offset) _compareMatchResultToPos lo hi si cp
                  = Some (Miss (Some si') (Some cp'))
       ∧ 0 ≤ b ≤ len ps
       ∧ (∀ k v, aget (ps.*1) k = Some v → k < b → v < offset)
       ∧ (∀ k v, aget (ps.*1) k = Some v → b ≤ k → offset < v)
       ∧ ((cp' = -1 ∧ si' = b - 1) ∨ (cp' = 1 ∧ si' = b))).
Proof.
  revert lo hi si cp. induction fuel as [|fuel IH]; intros lo hi si cp Hlo Hhi Hle Hfuel Hbelow Habove Hlast.
  - assert (lo = hi + 1) as Heq by lia. right.
    simpl. rewrite decide_False by lia.
    destruct (Hlast Heq) as [[-> ->]|[-> ->]].
    + exists lo, (lo - 1), (-1). split_and!; [done|lia|lia|bisect_side..|]. left. done.
    + exists lo, lo, 1. split_and!; [done|lia|lia|bisect_side..|]. right. done.
  - simpl. destruct (decide (lo ≤ hi)) as [Hin|Hout].
    + set (mid := (hi + lo) `div` 2).
      assert (lo ≤ mid ≤ hi) as Hmid.
      { subst mid. split; [apply Z.div_le_lower_bound | apply Z.div_le_upper_bound]; lia. }
      destruct (aget_is_Some (ps.*1) mid) as [v Hv]; [rewrite length_fmap; lia|].
      rewrite getMatchIndexStart_flat, Hv. unfold _compareMatchResultToPos.
      destruct (decide (v = offset)) as [->|Hne].
      * rewrite decide_True by done. left. by exists mid.
      * destruct (decide (v < offset)) as [Hlt|Hge].
        -- rewrite decide_False by done. rewrite decide_True by done.
           apply IH; [lia..| | |].
           ++ intros k w Hk ?. pose proof (starts_le k mid w v Hk Hv). lia.
           ++ done.
           ++ intros ?. left. split; [done|]. f_equal. lia.
        -- rewrite decide_False by done. rewrite decide_False by done.
           apply IH; [lia..| | |].
           ++ done.
           ++ intros k w Hk ?. pose proof (starts_le mid k v w Hv Hk). lia.
           ++ intros ?. right. split; [done|]. f_equal. lia.
    + assert (lo = hi + 1) as Heq by lia. right.
      destruct (Hlast Heq) as [[-> ->]|[-> ->]].
      * exists lo, (lo - 1), (-1). split_and!; [done|lia|lia|bisect_side..|]. left. done.
      * exists lo, lo, 1. split_and!; [done|lia|lia|bisect_side..|]. right. done.
Qed.

End Bisect.

Lemma findResultIndexNearPos_miss (ri : RegexIndexer) (pos : option Z) (reverse : bool)
    (fnCompare : option Z → option Z → Z) (si cp : Z) :
  bisect (Z.to_nat (getItemCount ri)) ri pos fnCompare 0 (getItemCount ri - 1) None None
    = Some (Miss (Some si) (Some cp)) →
  _findResultIndexNearPos ri pos reverse fnCompare
  = Some (let k := if decide (cp = -1 ∧ reverse = false) then si + 1
                   else if decide (cp = 1 ∧ reverse = true) then si - 1 else si in
          if decide (k < 0 ∨ k >= getItemCount ri) then NearFalse else NearIndex k).
Proof.
  intros H. unfold _findResultIndexNearPos. rewrite H.
  set (k := if decide (cp = -1 ∧ reverse = false) then si + 1 else _).
  assert (k = if decide (cp = -1 ∧ reverse = false) then si + 1
              else if decide (cp = 1 ∧ reverse = true) then si - 1 else si) as Hk by done.
  clearbody k. cbv zeta. simpl.
  destruct (decide (cp = -1)) as [?|?], (decide (cp = 1)) as [?|?], reverse; try lia; try subst cp;
    repeat (first [ rewrite decide_True in Hk by (split; congruence)
                  | rewrite decide_False in Hk by (intros [? ?]; congruence) ]);
    repeat (first [ rewrite decide_True by (split; congruence)
                  | rewrite decide_False by (intros [? ?]; congruence) ]);
    subst k; simpl; by destruct (decide _).
Qed.

(** C5. On a non-empty match table whose start offsets are strictly
    ascending, [_findResultIndexNearPos] returns a result, and:
    - the index of the match that starts at [offset], when there is one;
    - otherwise, forward, the smallest [k] whose start is at or above
      [offset], and [false] when every start is below [offset];
    - otherwise, in reverse, the largest [k] whose start is below [offset],
      and [false] when every start is at or above [offset]. *)
Theorem findResultIndexNearPos_correct (ri : RegexIndexer) (ps : list (Z * Z))
    (offset : Z) (reverse : bool) :
  ga_array (ri_startEndIndexArray ri) = flat ps →
  ga_groupSize (ri_startEndIndexArray ri) = 2 →
  ps ≠ [] →
  ascending (ps.*1) →
  ∃ r, _findResultIndexNearPos ri (Some offset) reverse _compareMatchResultToPos = Some r
    ∧ (∀ k : nat, ps.*1 !! k = Some offset → r = NearIndex (Z.of_nat k))
    ∧ (offset ∉ ps.*1 → reverse = false →
         (∀ (k : nat) v, ps.*1 !! k = Some v → offset ≤ v →
            (∀ (j : nat) w, (j < k)%nat → ps.*1 !! j = Some w → w < offset) →
            r = NearIndex (Z.of_nat k))
         ∧ ((∀ v, v ∈ ps.*1 → v < offset) → r = NearFalse))
    ∧ (offset ∉ ps.*1 → reverse = true →
         (∀ (k : nat) v, ps.*1 !! k = Some v → v < offset →
            (∀ (j : nat) w, (k < j)%nat → ps.*1 !! j = Some w → offset ≤ w) →
            r = NearIndex (Z.of_nat k))
         ∧ ((∀ v, v ∈ ps.*1 → offset ≤ v) → r = NearFalse)).
Proof.
  intros Harray Hsize Hne Hasc.
  assert (0 < len ps) as Hpos by (destruct ps; [done | simpl; lia]).
  pose proof (getItemCount_flat ri ps Harray Hsize) as Hcount.
  destruct (bisect_spec ri ps Harray Hsize Hasc offset (Z.to_nat (len ps)) 0 (len ps - 1) None None)
    as [(k & Hrun & Hk)|(b & si & cp & Hrun & Hb & Hbelow & Habove & Hlast)];
    [lia| lia | lia | lia | intros k v [? _]%aget_range; lia
     | intros k v [? Hr]%aget_range; rewrite length_fmap in Hr; lia | lia | |].
  - (* an exact hit *)
    unfold _findResultIndexNearPos. rewrite Hcount, Hrun.
    eexists; split; [done|]. simpl.
    assert (∀ k' : nat, ps.*1 !! k' = Some offset → Z.of_nat k' = k) as Huniq.
    { intros k' Hk'. rewrite <- aget_of_nat in Hk'.
      destruct (Z.lt_trichotomy (Z.of_nat k') k) as [?|[?|?]]; [|done|].
      - pose proof (starts_lt ps Hasc _ _ _ _ Hk' Hk). lia.
      - pose proof (starts_lt ps Hasc _ _ _ _ Hk Hk'). lia. }
    split_and!.
    + intros k' Hk'. f_equal. symmetry. by apply Huniq.
    + intros Hnot. exfalso. apply Hnot.
      apply aget_Some in Hk as [_ Hk]. by eapply list_elem_of_lookup_2.
    + intros Hnot. exfalso. apply Hnot.
      apply aget_Some in Hk as [_ Hk]. by eapply list_elem_of_lookup_2.
  - (* no hit: the boundary [b] *)
    rewrite (findResultIndexNearPos_miss ri (Some offset) reverse _ si cp)
      by (by rewrite Hcount).
    rewrite Hcount. eexists; split; [done|].
    assert (∀ k : nat, ps.*1 !! k = Some offset → False) as Hnohit.
    { intros k Hk. rewrite <- aget_of_nat in Hk.
      destruct (decide (Z.of_nat k < b)).
      - pose proof (Hbelow _ _ Hk). lia.
      - pose proof (Habove _ _ Hk). lia. }
    destruct reverse.
    + (* reverse: the answer is [b - 1] *)
      assert ((if decide (cp = -1 ∧ true = false) then si + 1
               else if decide (cp = 1 ∧ true = true) then si - 1 else si) = b - 1) as ->.
      { rewrite decide_False by (intros [? ?]; congruence).
        destruct Hlast as [[-> ->]|[-> ->]];
          [by rewrite decide_False by (intros [? ?]; congruence) | by rewrite decide_True]. }
      cbv zeta. split_and!.
      * intros k Hk. by destruct (Hnohit k).
      * done.
      * intros _ _. split.
        -- intros k v Hk Hv Hnext. rewrite <- aget_of_nat in Hk.
           assert (Z.of_nat k < b) as Hkb.
           { destruct (decide (Z.of_nat k < b)); [done|].
             pose proof (Habove _ _ Hk). lia. }
           assert (¬ Z.of_nat k < b - 1) as Hkb'.
           { intros Hlt. destruct (aget_is_Some (ps.*1) (b - 1)) as [w Hw];
               [rewrite length_fmap; lia|].
             pose proof (Hbelow _ _ Hw ltac:(lia)).
             assert (offset ≤ w); [|lia].
             apply (Hnext (Z.to_nat (b - 1))); [lia|].
             apply aget_Some in Hw. tauto. }
           rewrite decide_False by lia. f_equal. lia.
        -- intros Hall. destruct (decide (b - 1 < 0 ∨ _)) as [Hd|Hd]; [done|]. exfalso.
           destruct (aget_is_Some (ps.*1) (b - 1)) as [w Hw]; [rewrite length_fmap; lia|].
           pose proof (Hbelow _ _ Hw ltac:(lia)).
           assert (offset ≤ w); [|lia]. apply Hall.
           apply aget_Some in Hw as [_ Hw]. by eapply list_elem_of_lookup_2.
    + (* forward: the answer is [b] *)
      assert ((if decide (cp = -1 ∧ false = false) then si + 1
               else if decide (cp = 1 ∧ false = true) then si - 1 else si) = b) as ->.
      { destruct Hlast as [[-> ->]|[-> ->]].
        - rewrite decide_True by done. lia.
        - rewrite decide_False by (intros [? ?]; congruence). by rewrite decide_False by (intros [? ?]; congruence). }
      cbv zeta. split_and!.
      * intros k Hk. by destruct (Hnohit k).
      * intros _ _. split.
        -- intros k v Hk Hv Hprev. rewrite <- aget_of_nat in Hk.
           assert (¬ Z.of_nat k < b) as Hkb.
           { intros Hlt. pose proof (Hbelow _ _ Hk Hlt). lia. }
           assert (¬ b < Z.of_nat k) as Hkb'.
           { intros Hlt. destruct (aget_is_Some (ps.*1) b) as [w Hw];
               [apply aget_range in Hk; lia|].
             pose proof (Habove _ _ Hw ltac:(lia)).
             assert (w < offset); [|lia].
             apply (Hprev (Z.to_nat b)); [lia|].
             apply aget_Some in Hw. tauto. }
           apply aget_range in Hk. rewrite length_fmap in Hk.
           rewrite decide_False by lia. f_equal. lia.
        -- intros Hall. destruct (decide (b < 0 ∨ _)) as [Hd|Hd]; [done|]. exfalso.
           destruct (aget_is_Some (ps.*1) b) as [w Hw]; [rewrite length_fmap; lia|].
           pose proof (Habove _ _ Hw ltac:(lia)).
           assert (w < offset); [|lia]. apply Hall.
           apply aget_Some in Hw as [_ Hw]. by eapply list_elem_of_lookup_2.
      * done.
Qed.

(** ** The scan *)

Lemma execLoop_Some (rounds : nat) (m : Z → option nat) (i a e : Z) :
  execLoop rounds m i = Some (a, e) →
  i ≤ a < i + Z.of_nat rounds
  ∧ (∃ k, m a = Some k ∧ e = a + Z.of_nat k)
  ∧ ∀ p, i ≤ p < a → m p = None.
Proof.
  revert i. induction rounds as [|rounds IH]; intros i; simpl; [done|].
  destruct (m i) as [k|] eqn:Hm.
  - intros [= <- <-]. split_and!; [lia | lia | by exists k | intros p ?; lia].
  - intros H. apply IH in H as (? & ? & Hp). split_and!; [lia | lia | done |].
    intros p ?. destruct (decide (p = i)) as [->|]; [done|]. apply Hp. lia.
Qed.

Lemma execLoop_None (rounds : nat) (m : Z → option nat) (i : Z) :
  execLoop rounds m i = None → ∀ p, i ≤ p < i + Z.of_nat rounds → m p = None.
Proof.
  revert i. induction rounds as [|rounds IH]; intros i; simpl; [intros _ p ?; lia|].
  destruct (m i) as [k|] eqn:Hm; [done|].
  intros H p ?. destruct (decide (p = i)) as [->|]; [done|]. apply (IH _ H). lia.
Qed.

(** The loop's result is decided by the matcher alone. *)
Lemma execLoop_first (rounds : nat) (m : Z → option nat) (i a : Z) (k : nat) :
  i ≤ a < i + Z.of_nat rounds → m a = Some k → (∀ p, i ≤ p < a → m p = None) →
  execLoop rounds m i = Some (a, a + Z.of_nat k).
Proof.
  revert i. induction rounds as [|rounds IH]; intros i Hi Ha Hp; simpl; [lia|].
  destruct (decide (i = a)) as [->|Hne]; [by rewrite Ha|].
  rewrite Hp by lia. apply IH; [lia | done |]. intros p ?. apply Hp. lia.
Qed.

Lemma execLoop_none (rounds : nat) (m : Z → option nat) (i : Z) :
  (∀ p, i ≤ p < i + Z.of_nat rounds → m p = None) → execLoop rounds m i = None.
Proof.
  revert i. induction rounds as [|rounds IH]; intros i Hp; simpl; [done|].
  rewrite Hp by lia. apply IH. intros p ?. apply Hp. lia.
Qed.

Section ScanFacts.
Context `{host : Host} (docText : text) (query : RegExp).

Local Abbreviation n := (len docText).
Local Abbreviation execAt' := (execAt docText query).
Local Abbreviation Scan' := (Scan docText query).

Lemma execAt_Some (L a e : Z) :
  execAt' L = Some (a, e) → Z.max 0 L ≤ a ≤ n ∧ a ≤ e.
Proof. unfold execAt. intros H. apply execLoop_Some in H as (? & (k & _ & ->) & _). lia. Qed.

(** A later start that is not past the match finds the same match. *)
Lemma execAt_Some_later (L L' a e : Z) :
  execAt' L = Some (a, e) → Z.max 0 L ≤ Z.max 0 L' → Z.max 0 L' ≤ a →
  execAt' L' = Some (a, e).
Proof.
  unfold execAt. cbv zeta. intros H ? ?.
  apply execLoop_Some in H as (Ha & (k & Hk & ->) & Hp).
  apply execLoop_first; [lia | done |]. intros p ?. apply Hp. lia.
Qed.

(** Where nothing matches from [L] on, nothing matches from a later
    start. *)
Lemma execAt_None_later (L L' : Z) :
  execAt' L = None → Z.max 0 L ≤ Z.max 0 L' → execAt' L' = None.
Proof.
  unfold execAt. cbv zeta. intros H ?.
  apply execLoop_none. intros p ?. apply (execLoop_None _ _ _ H). lia.
Qed.

Lemma execAt_past_end (L : Z) : n < L → execAt' L = None.
Proof.
  intros ?. unfold execAt. cbv zeta.
  replace (Z.to_nat (n - Z.max 0 L + 1)) with O by lia. done.
Qed.

(** [exec] in terms of [execAt]. *)
Lemma exec_execAt (q : RegExp) :
  sameRegExp query q →
  exec q docText = match execAt' (lastIndex q) with
                   | Some (a, e) => (Some a, setLastIndex q e)
                   | None => (None, setLastIndex q 0)
                   end.
Proof.
  intros [Hs Hi]. unfold exec, execAt, matcherOf. by rewrite Hs, Hi.
Qed.

(** A run of the loop that returns appends the pairs of a [Scan]. *)
Lemma searchLoop_Scan (fuel : nat) (q : RegExp) (ga : GroupArray) (index limit endIndex : Z)
    (q' : RegExp) (ga' : GroupArray) (index' : Z) :
  sameRegExp query q → index = len (ga_array ga) →
  searchLoop fuel q docText ga index limit endIndex = Some (q', ga', index') →
  ∃ ps, Scan' limit endIndex (lastIndex q) index ps
        ∧ ga_array ga' = ga_array ga ++ flat ps
        ∧ index' = index + 2 * len ps
        ∧ ga_groupSize ga' = ga_groupSize ga
        ∧ _currentGroupIndex ga' = _currentGroupIndex ga
        ∧ sameRegExp query q'.
Proof.
  revert q ga index. induction fuel as [|fuel IH]; intros q ga index Hq Hindex; simpl; [done|].
  rewrite (exec_execAt q Hq).
  destruct (execAt' (lastIndex q)) as [[a e]|] eqn:Hexec.
  - simpl. subst index. rewrite aset_end.
    replace (len (ga_array ga) + 1) with (len (ga_array ga ++ [a]))
      by (rewrite length_app; simpl; lia).
    rewrite aset_end.
    set (ga1 := withArray _ _).
    set (q1 := if decide (a = e) then _ else _).
    assert (lastIndex q1 = bump a e ∧ sameRegExp query q1) as [Hlast Hq1].
    { subst q1. unfold bump. by destruct (decide (a = e)). }
    assert (ga_array ga1 = ga_array ga ++ flat [(a, e)]) as Hga1.
    { subst ga1. simpl. by rewrite <- app_assoc. }
    replace (len (ga_array ga ++ [a]) + 1) with (len (ga_array ga) + 2)
      by (rewrite length_app; simpl; lia).
    rewrite Hlast. destruct (decide (_ >= _ ∨ _)) as [Hbreak|Hgo].
    + intros Hret. assert (q' = q1 ∧ ga' = ga1 ∧ index' = len (ga_array ga) + 2)
        as (-> & -> & ->) by (by simplify_eq).
      exists [(a, e)].
      split_and!; first [done | by apply Scan_break | simpl; lia].
    + intros Hrun. apply IH in Hrun as (ps & Hscan & Harr & Hidx & Hsz & Hcur & Hq'); [|done|].
      * exists ((a, e) :: ps).
        split_and!;
          first [ done
                | eapply Scan_step; [done | done |]; by rewrite <- Hlast
                | rewrite Harr, Hga1; by rewrite <- app_assoc
                | rewrite Hidx; simpl length; lia
                | congruence ].
      * rewrite Hga1, length_app. simpl. lia.
  - intros Hret. assert (q' = setLastIndex q 0 ∧ ga' = ga ∧ index' = index)
      as (-> & -> & ->) by (by simplify_eq).
    exists [].
    split_and!; first [done | by apply Scan_null | by rewrite app_nil_r | simpl; lia].
Qed.

(** The loop returns when the fuel exceeds the number of offsets from
    [lastIndex] to the end of the text. *)
Lemma searchLoop_terminates (fuel : nat) (q : RegExp) (ga : GroupArray)
    (index limit endIndex : Z) :
  sameRegExp query q → Z.max 0 (n + 1 - Z.max 0 (lastIndex q)) < Z.of_nat fuel →
  is_Some (searchLoop fuel q docText ga index limit endIndex).
Proof.
  revert q ga index. induction fuel as [|fuel IH]; intros q ga index Hq Hfuel; simpl; [lia|].
  rewrite (exec_execAt q Hq).
  destruct (execAt' (lastIndex q)) as [[a e]|] eqn:Hexec; [|done].
  apply execAt_Some in Hexec. simpl.
  set (ga1 := withArray _ _).
  set (q1 := if decide (a = e) then _ else _).
  assert (lastIndex q1 = bump a e ∧ sameRegExp query q1) as [Hlast Hq1].
  { subst q1. unfold bump. by destruct (decide (a = e)). }
  destruct (decide (_ >= _ ∨ _)); [done|]. apply IH; [done|].
  rewrite Hlast. unfold bump. destruct (decide (a = e)); lia.
Qed.

Lemma bump_gt (a e : Z) : a ≤ e → a < bump a e.
Proof. unfold bump. destruct (decide (a = e)); lia. Qed.

Lemma bump_le_start (a e s : Z) : a ≤ e → bump a e ≤ s → a < s.
Proof. intros ? ?. pose proof (bump_gt a e). lia. Qed.

(** The starts of a scan ascend strictly, and every match lies in the
    text from [lastIndex] on. *)
Lemma Scan_ascending (limit endIndex L index : Z) (ps : list (Z * Z)) :
  Scan' limit endIndex L index ps →
  ascending (ps.*1) ∧ ∀ a e, (a, e) ∈ ps → Z.max 0 L ≤ a ≤ n ∧ a ≤ e.
Proof.
  induction 1 as [L index Hnone|L index a e Hsome Hbreak|L index a e ps Hsome Hgo Hscan [IHasc IHin]].
  - split; [apply ascending_nil | intros a e Hin; by apply elem_of_nil in Hin].
  - apply execAt_Some in Hsome. split.
    + apply ascending_cons. split; [intros b Hb; by apply elem_of_nil in Hb | apply ascending_nil].
    + intros a' e' Hin. apply list_elem_of_singleton in Hin. by simplify_eq.
  - apply execAt_Some in Hsome. pose proof (bump_gt a e ltac:(lia)). split.
    + simpl. apply ascending_cons. split; [|done].
      intros b Hb. apply list_elem_of_fmap in Hb as ([a' e'] & -> & Hin).
      specialize (IHin _ _ Hin). simpl. lia.
    + intros a' e' Hin. apply elem_of_cons in Hin as [?|Hin]; [by simplify_eq|].
      specialize (IHin _ _ Hin). lia.
Qed.

(** A scan stores at most one match per offset from [lastIndex] to the
    end of the text. *)
Lemma Scan_length (limit endIndex L index : Z) (ps : list (Z * Z)) :
  Scan' limit endIndex L index ps → len ps ≤ Z.max 0 (n + 1 - Z.max 0 L).
Proof.
  induction 1 as [L index Hnone|L index a e Hsome Hbreak|L index a e ps Hsome Hgo Hscan IH].
  - simpl. lia.
  - apply execAt_Some in Hsome. simpl. lia.
  - apply execAt_Some in Hsome. pose proof (bump_gt a e ltac:(lia)). simpl length. lia.
Qed.

(** The second scan, capped at [s] and begun at or before [s]: either all
    its matches start before [s], or all but the last do, and the last is the
    first match from [s] on. *)
Lemma Scan_capped (limit s L index : Z) (ps : list (Z * Z)) :
  Scan' limit s L index ps → L ≤ s →
  (∀ a e, (a, e) ∈ ps → a < s)
  ∨ (∃ front a e, ps = front ++ [(a, e)] ∧ (∀ a' e', (a', e') ∈ front → a' < s)
       ∧ s ≤ a ∧ execAt' s = Some (a, e)).
Proof.
  induction 1 as [L index Hnone|L index a e Hsome Hbreak|L index a e ps Hsome Hgo Hscan IH];
    intros HL.
  - left. intros a e Hin. by apply elem_of_nil in Hin.
  - destruct (decide (a < s)) as [Hlt|Hge].
    + left. intros a' e' Hin. apply list_elem_of_singleton in Hin. by simplify_eq.
    + right. exists [], a, e. split_and!; [done | | lia |].
      * intros a' e' Hin. by apply elem_of_nil in Hin.
      * pose proof (execAt_Some _ _ _ Hsome). eapply execAt_Some_later; [done | lia | lia].
  - pose proof (execAt_Some _ _ _ Hsome) as [? ?].
    assert (bump a e ≤ s) as Hb by lia.
    pose proof (bump_le_start a e s ltac:(lia) Hb).
    destruct (IH Hb) as [Hall|(front & a' & e' & -> & Hfront & Ha' & Hex)].
    + left. intros a' e' Hin. apply elem_of_cons in Hin as [?|Hin]; [by simplify_eq|].
      by eapply Hall.
    + right. exists ((a, e) :: front), a', e'. split_and!; [done | | done | done].
      intros a'' e'' Hin. apply elem_of_cons in Hin as [?|Hin]; [by simplify_eq|].
      by eapply Hfront.
Qed.

(** A scan begins with the match [exec] finds. *)
Lemma Scan_head (limit endIndex L index a e : Z) (ps : list (Z * Z)) :
  Scan' limit endIndex L index ps → execAt' L = Some (a, e) → ∃ rest, ps = (a, e) :: rest.
Proof. intros Hscan Hex. inversion Hscan; simplify_eq; eauto. Qed.

End ScanFacts.

Lemma ascending_bounded (l : list Z) (lo hi : Z) :
  ascending l → (∀ x, x ∈ l → lo ≤ x ≤ hi) → len l ≤ Z.max 0 (hi - lo + 1).
Proof.
  revert lo. induction l as [|a l IH]; intros lo Hasc Hin; simpl; [lia|].
  apply ascending_cons in Hasc as [Hhd Htl].
  pose proof (Hin a ltac:(left)) as Ha.
  assert (∀ x, x ∈ l → a + 1 ≤ x ≤ hi) as Hin'.
  { intros x Hx. specialize (Hhd x Hx). specialize (Hin x ltac:(by right)). lia. }
  specialize (IH (a + 1) Htl Hin'). lia.
Qed.

Section ScanResults.
Context `{host : Host} (docText : text) (query : RegExp).

Local Abbreviation n := (len docText).

Lemma searchAndAdd_spec (fuel : nat) (q : RegExp) (limit endIndex : option Z)
    (q' : RegExp) (ga' : GroupArray) (count : Z) :
  sameRegExp query q →
  _searchAndAddResultsToArray fuel q docText (_makeGroupArray [] 2) limit endIndex
    = Some (q', ga', count) →
  ∃ ps, Scan docText query (js_or limit 10000000 * 2) (js_or endIndex n) (lastIndex q) 0 ps
        ∧ ga_array ga' = flat ps ∧ ga_groupSize ga' = 2 ∧ _currentGroupIndex ga' = -2
        ∧ count = len ps ∧ sameRegExp query q'.
Proof.
  intros Hq. unfold _searchAndAddResultsToArray. cbv zeta.
  destruct (searchLoop _ _ _ _ _ _ _) as [[[q1 ga1] index1]|] eqn:Hloop; [|done].
  simpl. intros Hret.
  assert (q' = q1 ∧ ga' = ga1 ∧ count = index1 `div` ga_groupSize ga1) as (-> & -> & ->)
    by (by simplify_eq).
  apply (searchLoop_Scan docText query) in Hloop
    as (ps & Hscan & Harr & Hidx & Hsz & Hcur & Hq1); [|done|done].
  exists ps. simpl in *. split_and!; try done.
  rewrite Hsz, Hidx. rewrite Z.add_0_l, Z.mul_comm. by apply Z.div_mul.
Qed.

Lemma searchAndAdd_terminates (fuel : nat) (q : RegExp) (limit endIndex : option Z) :
  sameRegExp query q → n + 1 < Z.of_nat fuel →
  is_Some (_searchAndAddResultsToArray fuel q docText (_makeGroupArray [] 2) limit endIndex).
Proof.
  intros Hq Hfuel. unfold _searchAndAddResultsToArray. cbv zeta.
  destruct (searchLoop_terminates docText query fuel q (_makeGroupArray [] 2) 0
              (js_or limit 10000000 * ga_groupSize (_makeGroupArray [] 2))
              (js_or endIndex n) Hq ltac:(lia)) as [[[q1 ga1] index1] ->].
  done.
Qed.

(** What [_createSearchResults] leaves in the group array: the pairs of
    the scan from the start index, with the pairs of the capped scan from 0
    before them when the second search is made. *)
Lemma createSearchResults_spec (fuel : nat) (maxResults : Z) (startIndex : option Z)
    (q' : RegExp) (g : GroupArray) :
  _createSearchResults fuel maxResults (_makeGroupArray [] 2) docText query startIndex
    = Some (q', g) →
  let limit := js_or (Some maxResults) 10000000 * 2 in
  let s := default 0 startIndex in
  ∃ P, Scan docText query limit n s 0 P
       ∧ ga_groupSize g = 2 ∧ _currentGroupIndex g = -2
       ∧ if decide (s > 0 ∧ len P < maxResults)
         then ∃ Sx, Scan docText query limit s 0 0 Sx
                    ∧ ga_array g = flat (dedupPairs P Sx ++ P)
         else ga_array g = flat P.
Proof.
  intros Hrun limit s. subst limit s.
  unfold _createSearchResults in Hrun. cbv zeta in Hrun.
  destruct (_searchAndAddResultsToArray fuel (setLastIndex query (default 0 startIndex)) _ _ _ _)
    as [[[q1 g1] count1]|] eqn:Hfirst; [|done].
  apply searchAndAdd_spec in Hfirst as (P & HP & Harr1 & Hsz1 & Hcur1 & -> & Hq1); [|done].
  simpl in Hrun. exists P. split; [done|].
  destruct (decide (default 0 startIndex > 0 ∧ len P < maxResults)) as [Hsecond|Hno].
  - destruct (_searchAndAddResultsToArray fuel (setLastIndex q1 0) _ _ _ _)
      as [[[q2 g2] count2]|] eqn:Hsecond'; [|done].
    apply searchAndAdd_spec in Hsecond' as (Sx & HSx & Harr2 & Hsz2 & Hcur2 & _ & Hq2); [|done].
    simpl in Hrun.
    assert (g = _makeGroupArray (ga_array (_removeIfDuplicateResultOnEdge g1 g2) ++ ga_array g1) 2)
      as -> by (by simplify_eq).
    split_and!; [done..|]. exists Sx. split.
    + destruct startIndex as [s|]; simpl in *; [|lia].
      destruct (decide (s = 0)); [lia | done].
    + simpl. rewrite (removeIfDuplicate_flat g1 g2 P Sx) by done.
      by rewrite flat_app, Harr1.
  - assert (g = g1) as -> by (by simplify_eq). done.
Qed.

Lemma createSearchResults_terminates (fuel : nat) (maxResults : Z) (startIndex : option Z) :
  n + 1 < Z.of_nat fuel →
  is_Some (_createSearchResults fuel maxResults (_makeGroupArray [] 2) docText query startIndex).
Proof.
  intros Hfuel. unfold _createSearchResults. cbv zeta.
  destruct (searchAndAdd_terminates fuel (setLastIndex query (default 0 startIndex))
              (Some maxResults) None ltac:(done) Hfuel) as [[[q1 g1] count1] Hfirst].
  rewrite Hfirst. simpl.
  apply searchAndAdd_spec in Hfirst as (P & _ & _ & _ & _ & _ & Hq1); [|done].
  destruct (decide _); [|done].
  destruct (searchAndAdd_terminates fuel (setLastIndex q1 0)
              (Some maxResults) startIndex ltac:(done) Hfuel) as [[[q2 g2] count2] ->].
  done.
Qed.

(** The pairs [_createSearchResults] stores have strictly ascending
    starts, all within the text. *)
Lemma createSearchResults_ascending (fuel : nat) (maxResults : Z) (startIndex : option Z)
    (q' : RegExp) (g : GroupArray) :
  _createSearchResults fuel maxResults (_makeGroupArray [] 2) docText query startIndex
    = Some (q', g) →
  ∃ ps, ga_array g = flat ps ∧ ga_groupSize g = 2
        ∧ ascending (ps.*1) ∧ ∀ a e, (a, e) ∈ ps → 0 ≤ a ≤ n ∧ a ≤ e.
Proof.
  intros Hrun. apply createSearchResults_spec in Hrun as (P & HP & Hsz & _ & Hcase).
  cbv zeta in *. set (s := default 0 startIndex) in *.
  pose proof (Scan_ascending _ _ _ _ _ _ _ HP) as [HPasc HPin].
  destruct (decide (s > 0 ∧ len P < maxResults)) as [[Hs _]|_].
  - destruct Hcase as (Sx & HSx & Harr).
    pose proof (Scan_ascending _ _ _ _ _ _ _ HSx) as [HSasc HSin].
    exists (dedupPairs P Sx ++ P). split_and!; [done | done | |].
    + rewrite fmap_app. apply ascending_app. split_and!; [|done|].
      * unfold dedupPairs. destruct P as [|p P']; [done|].
        destruct (last Sx); [|done]. destruct (decide _); [|done].
        rewrite fmap_take. intros i j a b Hi Hj ?.
        apply lookup_take_Some in Hi as [Hi _]. apply lookup_take_Some in Hj as [Hj _].
        by eapply HSasc.
      * (* every start kept from the second scan is before [s] *)
        assert (∀ a e, (a, e) ∈ dedupPairs P Sx → a < s) as Hbefore.
        { destruct (Scan_capped _ _ _ _ _ _ _ HSx ltac:(lia))
            as [Hall|(front & a & e & -> & Hfront & Ha & Hex)].
          - intros a e Hin. apply dedupPairs_sublist in Hin. by eapply Hall.
          - destruct (Scan_head _ _ _ _ _ _ _ _ _ HP Hex) as [rest ->].
            unfold dedupPairs. rewrite last_snoc. rewrite decide_True by done.
            rewrite length_app. simpl.
            replace (length front + 1 - 1)%nat with (length front) by lia.
            rewrite take_app_length. exact Hfront. }
        intros a b Ha Hb.
        apply list_elem_of_fmap in Ha as ([a' e'] & -> & Ha).
        apply list_elem_of_fmap in Hb as ([b' f'] & -> & Hb).
        specialize (Hbefore _ _ Ha). specialize (HPin _ _ Hb). simpl. lia.
    + intros a e [Hin|Hin]%elem_of_app.
      * apply dedupPairs_sublist in Hin. specialize (HSin _ _ Hin). lia.
      * specialize (HPin _ _ Hin). lia.
  - exists P. split_and!; [done..|]. intros a e Hin. specialize (HPin _ _ Hin). lia.
Qed.

End ScanResults.

Lemma dedupPairs_cons (P Sx : list (Z * Z)) (x : Z * Z) :
  Sx ≠ [] → dedupPairs P (x :: Sx) = x :: dedupPairs P Sx.
Proof.
  intros Hne. unfold dedupPairs. destruct P as [|p P]; [done|].
  destruct Sx as [|y Sx]; [done|].
  change (last (x :: y :: Sx)) with (last (y :: Sx)).
  destruct (last (y :: Sx)); [|done]. destruct (decide _); [|done].
  simpl. by rewrite Nat.sub_0_r.
Qed.

Section TwoPhase.
Context `{host : Host} (docText : text) (query : RegExp).

Local Abbreviation n := (len docText).
Local Abbreviation execAt' := (execAt docText query).
Local Abbreviation ScanU' := (ScanU docText query).

(** A scan whose limit is larger than everything it can store never
    breaks on the limit. *)
Lemma Scan_unbounded (limit endIndex L index : Z) (ps : list (Z * Z)) :
  Scan docText query limit endIndex L index ps →
  index + 2 * Z.max 0 (n + 1 - Z.max 0 L) < limit →
  ScanU' endIndex L ps.
Proof.
  induction 1 as [L index Hnone|L index a e Hsome Hbreak|L index a e ps Hsome Hgo Hscan IH];
    intros Hlimit.
  - by apply ScanU_null.
  - pose proof (execAt_Some _ _ _ _ _ Hsome). apply ScanU_break; [done|].
    destruct Hbreak as [?|?]; [lia | done].
  - pose proof (execAt_Some _ _ _ _ _ Hsome). pose proof (bump_gt a e ltac:(lia)).
    apply ScanU_step; [done | lia |]. apply IH. lia.
Qed.

Lemma ScanU_det (endIndex L : Z) (ps1 ps2 : list (Z * Z)) :
  ScanU' endIndex L ps1 → ScanU' endIndex L ps2 → ps1 = ps2.
Proof.
  intros H1. revert ps2.
  induction H1 as [L Hnone|L a e Hsome Hbreak|L a e ps Hsome Hgo Hscan IH];
    intros ps2 H2; inversion H2; simplify_eq; try done; try lia.
  f_equal. by apply IH.
Qed.

Lemma ScanU_shift (endIndex L L' : Z) (ps : list (Z * Z)) :
  execAt' L = execAt' L' → ScanU' endIndex L ps → ScanU' endIndex L' ps.
Proof.
  intros Heq H. inversion H; simplify_eq.
  - apply ScanU_null. congruence.
  - apply ScanU_break; [congruence | done].
  - apply ScanU_step; [congruence | done | done].
Qed.

(** What the scan from [L] stores after its first match. *)
Lemma ScanU_tail (L a e : Z) (F : list (Z * Z)) :
  ScanU' n L F → execAt' L = Some (a, e) →
  ∃ F', F = (a, e) :: F' ∧ ScanU' n (bump a e) F'.
Proof.
  intros HF Hex. inversion HF; simplify_eq.
  - exists []. split; [done|]. apply ScanU_null. apply execAt_past_end. lia.
  - eauto.
Qed.

(** A scan begins with the match [exec] finds from its [lastIndex]. *)
Lemma ScanU_head (endIndex L : Z) (ps : list (Z * Z)) :
  ScanU' endIndex L ps → execAt' L = head ps.
Proof. intros H. by inversion H; simplify_eq. Qed.

(** No match of a scan starts before its [lastIndex]. *)
Lemma ScanU_from (endIndex L : Z) (ps : list (Z * Z)) :
  ScanU' endIndex L ps → ∀ a e, (a, e) ∈ ps → L ≤ a.
Proof.
  induction 1 as [L Hnone|L a e Hsome Hbreak|L a e ps Hsome Hgo Hscan IH]; intros a' e' Hin.
  - by apply elem_of_nil in Hin.
  - apply list_elem_of_singleton in Hin. apply execAt_Some in Hsome. simplify_eq. lia.
  - pose proof (execAt_Some _ _ _ _ _ Hsome). pose proof (bump_gt a e ltac:(lia)).
    apply elem_of_cons in Hin as [?|Hin]; [simplify_eq; lia|].
    specialize (IH _ _ Hin). lia.
Qed.

(** The two searches against the single one, on pairs: [P] is the scan
    from [s] to the end, [Sx] the scan from [L ≤ s] capped at [s], [F] the
    scan from [L] to the end. [Sx] without a duplicate of the head of [P],
    followed by [P], is [F] exactly when, for the match of [F] that begins
    before [s] and ends after it (if there is one), [exec] from [s] finds
    what [exec] from the end of that match finds. *)
Lemma two_phase_pairs (s : Z) (P : list (Z * Z)) :
  ScanU' n s P →
  ∀ L Sx, ScanU' s L Sx → L ≤ s →
  ∀ F, ScanU' n L F →
  dedupPairs P Sx ++ P = F
  ↔ ∀ a e, (a, e) ∈ F → a < s < e → execAt' s = execAt' e.
Proof.
  intros HP L Sx HSx.
  induction HSx as [L Hnone|L a e Hsome Hbreak|L a e Sx Hsome Hgo HSx IH]; intros HL F HF.
  - (* nothing matches from [L] on *)
    assert (F = []) as -> by (inversion HF; by simplify_eq).
    assert (execAt' s = None) as Hs by (eapply execAt_None_later; [done | lia]).
    assert (P = []) as -> by (inversion HP; by simplify_eq).
    split; [|done]. intros _ a e Hin. by apply elem_of_nil in Hin.
  - (* the capped scan stops after its first match *)
    pose proof (execAt_Some _ _ _ _ _ Hsome) as [? ?].
    destruct (ScanU_tail _ _ _ _ HF Hsome) as (F' & -> & HF').
    pose proof (ScanU_from _ _ _ HF') as Hfrom.
    pose proof (bump_gt a e ltac:(lia)) as Hbump.
    destruct (decide (a < s)) as [Hlt|Hge].
    + (* that match begins before [s] and ends after it *)
      assert (a < e ∧ s < e) as [Hae Hse]
        by (unfold bump in Hbreak; destruct (decide (a = e)); lia).
      assert (bump a e = e) as Hb by (unfold bump; by rewrite decide_False by lia).
      rewrite Hb in HF', Hfrom.
      assert (dedupPairs P [(a, e)] = [(a, e)]) as ->.
      { unfold dedupPairs. destruct P as [|p P']; [done|]. simpl.
        rewrite decide_False; [done|]. intros ->.
        pose proof (ScanU_head _ _ _ HP) as Hh. simpl in Hh. apply execAt_Some in Hh. lia. }
      simpl. split.
      * intros HPF a' e' Hin Hstr.
        assert (P = F') as -> by (by simplify_eq).
        apply elem_of_cons in Hin as [?|Hin].
        -- simplify_eq. by rewrite (ScanU_head _ _ _ HP), (ScanU_head _ _ _ HF').
        -- specialize (Hfrom _ _ Hin). lia.
      * intros Hc. f_equal. apply (ScanU_det n s); [done|].
        apply (ScanU_shift n e); [|done]. symmetry. apply (Hc a e); [by left | lia].
    + (* that match begins at or after [s]: it is the head of [P] *)
      assert (execAt' s = Some (a, e)) as Hs
        by (eapply execAt_Some_later; [done | lia | lia]).
      assert (P = (a, e) :: F') as ->.
      { apply (ScanU_det n s); [done|]. apply (ScanU_shift n L); [congruence | done]. }
      split.
      * intros _ a' e' Hin Hstr.
        apply elem_of_cons in Hin as [?|Hin]; [simplify_eq; lia|].
        specialize (Hfrom _ _ Hin). lia.
      * intros _. unfold dedupPairs. simpl. by rewrite decide_True by done.
  - (* the capped scan goes on after its first match *)
    pose proof (execAt_Some _ _ _ _ _ Hsome) as [? ?].
    destruct (ScanU_tail _ _ _ _ HF Hsome) as (F' & -> & HF').
    specialize (IH Hgo F' HF').
    assert (e ≤ s) as Hes by (unfold bump in Hgo; destruct (decide (a = e)); lia).
    destruct Sx as [|x Sx].
    + assert (execAt' (bump a e) = None) as Hb by (inversion HSx; by simplify_eq).
      assert (execAt' s = None) as Hs by (eapply execAt_None_later; [done | lia]).
      assert (P = []) as -> by (inversion HP; by simplify_eq).
      assert (F' = []) as -> by (inversion HF'; by simplify_eq).
      split; [|done]. intros _ a' e' Hin Hstr.
      apply list_elem_of_singleton in Hin. simplify_eq. lia.
    + rewrite dedupPairs_cons by done. simpl. split.
      * intros HPF a' e' Hin Hstr.
        assert (dedupPairs P (x :: Sx) ++ P = F') as HPF' by (by simplify_eq).
        apply elem_of_cons in Hin as [?|Hin]; [simplify_eq; lia|].
        by apply (proj1 IH HPF' a' e').
      * intros Hc. f_equal. apply IH. intros a' e' Hin. apply Hc. by right.
Qed.

End TwoPhase.

Section ScanTheorems.
Context `{host : Host}.

(** C4. A scan by [_createRegexIndexer] (one or two searches, any
    [maxResults]) returns, given fuel for the length of the text, and in the
    table it stores every match starts strictly before the next one. *)
Theorem match_table_strictly_ascending (fuel : nat) (docText : text) (docLineIndex : list Z)
    (query : RegExp) (maxResults : option Z) (startPosition : option Range) :
  (length docText + 2 ≤ fuel)%nat →
  ∃ q' ri,
    _createRegexIndexer fuel docText docLineIndex query maxResults startPosition = Some (q', ri)
    ∧ ∀ k a b, getMatchIndexStart ri k = Some a →
               getMatchIndexStart ri (k + 1) = Some b → a < b.
Proof.
  intros Hfuel. unfold _createRegexIndexer. cbv zeta.
  set (maxResults' := js_or maxResults 10000000).
  set (startIndex := _indexFromPos docLineIndex _).
  destruct (createSearchResults_terminates docText query fuel maxResults' startIndex ltac:(lia))
    as [[q' g] Hrun].
  rewrite Hrun. simpl. eexists _, _. split; [done|].
  apply createSearchResults_ascending in Hrun as (ps & Harr & Hsz & Hasc & _).
  intros k a b Ha Hb.
  rewrite (getMatchIndexStart_flat _ ps) in Ha by done.
  rewrite (getMatchIndexStart_flat _ ps) in Hb by done.
  eapply (starts_lt ps Hasc); [done | done | lia].
Qed.

(** The loop of [_scanDocumentUsingRegularExpression] returns when the
    fuel exceeds the number of offsets from [lastIndex] to the end of the
    text, and calls back at most once per such offset. *)
Lemma scanDocumentLoop_terminates (docText : text) (query : RegExp) (fuel : nat)
    (documentIndex : list Z) (regex : RegExp) (endRangeIndex lastMatchedLine : option Z) :
  sameRegExp query regex →
  Z.max 0 (len docText + 1 - Z.max 0 (lastIndex regex)) < Z.of_nat fuel →
  ∃ calls, scanDocumentLoop fuel documentIndex docText regex endRangeIndex lastMatchedLine
           = Some calls
           ∧ len calls ≤ Z.max 0 (len docText + 1 - Z.max 0 (lastIndex regex)).
Proof.
  revert regex lastMatchedLine.
  induction fuel as [|fuel IH]; intros regex lastMatchedLine Hq Hfuel; simpl; [lia|].
  rewrite (exec_execAt docText query regex Hq).
  destruct (execAt docText query (lastIndex regex)) as [[a e]|] eqn:Hexec.
  - apply execAt_Some in Hexec. simpl.
    destruct (match endRangeIndex with Some e0 => bool_decide (e ≤ e0) | None => false end).
    + set (regex1 := if decide (a = e) then _ else _).
      assert (lastIndex regex1 = bump a e ∧ sameRegExp query regex1) as [Hlast Hq1].
      { subst regex1. unfold bump. by destruct (decide (a = e)). }
      pose proof (bump_gt a e ltac:(lia)).
      edestruct (IH regex1) as (calls & -> & Hlen); [done | lia |].
      eexists. split; [done|]. simpl length. lia.
    + exists []. split; [done|]. simpl. lia.
  - exists []. split; [done|]. simpl. lia.
Qed.

(** C7. For every text and every regular expression, with fuel for the
    length of the text: the loop of [_searchAndAddResultsToArray] returns
    with at most [|text| + 1] matches, whatever the limit and end index; so
    does the loop of [_scanDocumentUsingRegularExpression], with at most
    [|text| + 1] calls; and so does [_createSearchResults], for its one or
    two searches together. An empty match moves [lastIndex] one further, so
    every round of a loop starts at a later offset. *)
Theorem scan_terminates (fuel : nat) (docText : text) (query : RegExp) :
  (length docText + 2 ≤ fuel)%nat →
  (∀ limit endIndex, ∃ q' ga' count,
      _searchAndAddResultsToArray fuel query docText (_makeGroupArray [] 2) limit endIndex
        = Some (q', ga', count)
      ∧ itemCount ga' = count ∧ 0 ≤ count ≤ len docText + 1)
  ∧ (∀ documentIndex range, ∃ calls,
      _scanDocumentUsingRegularExpression fuel documentIndex docText query range = Some calls
      ∧ len calls ≤ len docText + 1)
  ∧ (∀ maxResults startIndex, ∃ q' g,
      _createSearchResults fuel maxResults (_makeGroupArray [] 2) docText query startIndex
        = Some (q', g)
      ∧ 0 ≤ itemCount g ≤ len docText + 1).
Proof.
  intros Hfuel. split_and!.
  - intros limit endIndex.
    destruct (searchAndAdd_terminates docText query fuel query limit endIndex
                ltac:(done) ltac:(lia)) as [[[q' ga'] count] Hrun].
    exists q', ga', count. split; [done|].
    apply (searchAndAdd_spec docText query) in Hrun
      as (ps & Hscan & Harr & Hsz & _ & -> & _); [|done].
    rewrite (itemCount_flat ga' ps Harr Hsz). split; [done|].
    apply Scan_length in Hscan. lia.
  - intros documentIndex range. unfold _scanDocumentUsingRegularExpression. cbv zeta.
    edestruct (scanDocumentLoop_terminates docText query fuel documentIndex)
      as (calls & -> & Hlen); [done | simpl; lia |].
    exists calls. split; [done|]. simpl in Hlen. lia.
  - intros maxResults startIndex.
    destruct (createSearchResults_terminates docText query fuel maxResults startIndex
                ltac:(lia)) as [[q' g] Hrun].
    exists q', g. split; [done|].
    apply createSearchResults_ascending in Hrun as (ps & Harr & Hsz & Hasc & Hin).
    rewrite (itemCount_flat g ps Harr Hsz).
    pose proof (ascending_bounded (ps.*1) 0 (len docText) Hasc) as Hb.
    rewrite length_fmap in Hb. split; [lia|].
    assert (len ps ≤ Z.max 0 (len docText - 0 + 1)); [|lia]. apply Hb.
    intros x Hx. apply list_elem_of_fmap in Hx as ([a e] & -> & Hx).
    specialize (Hin _ _ Hx). simpl. lia.
Qed.

(** X29. With [maxResults] above [|text| + 1] (never reached) and fuel
    for the length of the text, the scan from start offset [s] and the scan
    from offset 0 both return. They store the same sequence of (start, end)
    pairs exactly when, for every match of the scan from offset 0 that
    begins before [s] and ends after [s], [exec] from [s] finds what [exec]
    from the end of that match finds, i.e. no match begins at an offset from
    [s] up to the end of that match. In particular they store the same
    sequence when no match of the scan from 0 begins before [s] and ends
    after it. *)
Theorem two_phase_scan_equals_single_scan (fuel : nat) (docText : text) (query : RegExp)
    (maxResults s : Z) :
  (length docText + 2 ≤ fuel)%nat →
  len docText + 1 < maxResults →
  ∃ qF gF qS gS,
    _createSearchResults fuel maxResults (_makeGroupArray [] 2) docText query (Some 0)
      = Some (qF, gF)
    ∧ _createSearchResults fuel maxResults (_makeGroupArray [] 2) docText query (Some s)
      = Some (qS, gS)
    ∧ (ga_array gS = ga_array gF
       ↔ ∀ k a e, getGroupValue gF k 0 = Some a → getGroupValue gF k 1 = Some e →
                  a < s < e → execAt docText query s = execAt docText query e).
Proof.
  intros Hfuel Hmax.
  destruct (createSearchResults_terminates docText query fuel maxResults (Some 0) ltac:(lia))
    as [[qF gF] HF].
  destruct (createSearchResults_terminates docText query fuel maxResults (Some s) ltac:(lia))
    as [[qS gS] HS].
  exists qF, gF, qS, gS. split; [done|]. split; [done|].
  apply createSearchResults_spec in HF as (F & HscanF & HszF & _ & HarrF).
  apply createSearchResults_spec in HS as (P & HscanP & HszP & _ & HarrS).
  cbv zeta in *. simpl in *.
  destruct (decide (maxResults = 0)) as [?|_]; [lia|].
  destruct (decide (0 > 0 ∧ len F < maxResults)) as [[? _]|_]; [lia|].
  apply Scan_unbounded in HscanF; [|lia].
  pose proof (Scan_length _ _ _ _ _ _ _ HscanP) as HlenP.
  apply Scan_unbounded in HscanP; [|lia].
  (* the condition, on the pairs of the scan from 0 *)
  assert ((∀ k a e, getGroupValue gF k 0 = Some a → getGroupValue gF k 1 = Some e →
                    a < s < e → execAt docText query s = execAt docText query e)
          ↔ ∀ a e, (a, e) ∈ F → a < s < e → execAt docText query s = execAt docText query e)
    as ->.
  { split.
    - intros Hstr a e Hin. apply list_elem_of_lookup_1 in Hin as [k Hk].
      apply (Hstr (Z.of_nat k)).
      + rewrite (getGroupValue_flat_start gF F) by done.
        by rewrite aget_of_nat, list_lookup_fmap, Hk.
      + rewrite (getGroupValue_flat_end gF F) by done.
        by rewrite aget_of_nat, list_lookup_fmap, Hk.
    - intros Hstr k a e Ha He.
      rewrite (getGroupValue_flat_start gF F) in Ha by done.
      rewrite (getGroupValue_flat_end gF F) in He by done.
      apply aget_Some in Ha as [_ Ha]. apply aget_Some in He as [_ He].
      rewrite list_lookup_fmap in Ha. rewrite list_lookup_fmap in He.
      destruct (F !! Z.to_nat k) as [[a' e']|] eqn:Hk; [|done].
      simpl in Ha, He. apply Hstr. apply (list_elem_of_lookup_2 _ (Z.to_nat k)).
      by simplify_eq. }
  rewrite HarrF. destruct (decide (s > 0 ∧ len P < maxResults)) as [[Hs _]|Hno].
  - destruct HarrS as (Sx & HscanS & ->).
    apply Scan_unbounded in HscanS; [|lia].
    rewrite <- (two_phase_pairs docText query s P HscanP 0 Sx HscanS ltac:(lia) F HscanF).
    split; [apply flat_inj | by intros ->].
  - rewrite HarrS. split.
    + intros _ a e Hin Hstr.
      pose proof (ScanU_from docText query _ _ _ HscanF a e Hin). lia.
    + intros _. f_equal.
      apply (ScanU_det docText query (len docText) 0); [|done].
      apply (ScanU_shift docText query (len docText) s); [|done].
      unfold execAt. by replace (Z.max 0 s) with (Z.max 0 0) by lia.
Qed.

End ScanTheorems.

(** ** Finding from a seed position *)

Section FindFacts.
Context `{host : Host}.

(** With the document indexed at its generation and the results current,
    the lazy refresh changes nothing. *)
Lemma _updateResultsIfNeeded_current (fuel : nat) (st : State) (d : Doc) :
  doc (cursor st) = Some d →
  _needToIndexDocument (_documentMap st) d = false →
  resultsCurrent (cursor st) = true →
  _updateResultsIfNeeded (S fuel) st = Some st.
Proof. intros Hd Hn Hr. simpl. rewrite Hd. simpl. by rewrite Hn, Hr. Qed.

(** Whenever no match is selected and the binary search of [find(true)]
    answers index 0, [find] returns false and leaves no match current:
    [if (matchIndex)] does not take the 0, and [prevMatch] from the sentinel
    has nowhere to go. *)
Lemma find_reverse_index_0 (fuel : nat) (st : State) (d : Doc) (ri : RegexIndexer)
    (L : list Z) (start : Range) :
  doc (cursor st) = Some d →
  _needToIndexDocument (_documentMap st) d = false →
  resultsCurrent (cursor st) = true →
  regexIndexer (cursor st) = Some ri →
  ga_groupSize (ri_startEndIndexArray ri) = 2 →
  currentGroupIndex (ri_startEndIndexArray ri) ≤ -1 →
  _startingPositionForFind (cursor st) true = Some start →
  _getDocumentIndex (_documentMap st) d = Some L →
  _findResultIndexNearPos ri (_indexFromPos L (from start)) true _compareMatchResultToPos
    = Some (NearIndex 0) →
  ∃ st', find (S fuel) true st = Some (None, st')
         ∧ atOccurrence (cursor st') = false
         ∧ currentPosition (cursor st') = None
         ∧ (getCurrentMatch <$> regexIndexer (cursor st')) = Some None.
Proof.
  intros Hd Hn Hr Hri Hsz Hcur Hstart HL Hnear.
  unfold find. rewrite (_updateResultsIfNeeded_current fuel st d Hd Hn Hr). simpl.
  rewrite Hri. simpl.
  unfold getCurrentMatch at 1. rewrite decide_False by lia.
  rewrite Hstart. simpl. rewrite Hd. simpl. rewrite HL. simpl. rewrite Hnear. simpl.
  unfold _findPrevious. simpl. rewrite Hri. simpl.
  unfold prevMatch, prevGroupIndex. unfold currentGroupIndex in Hcur.
  rewrite decide_False by lia. simpl.
  eexists. split; [done|]. simpl. split_and!; [done | done |].
  unfold getCurrentMatch, currentGroupIndex. simpl. by rewrite decide_False by lia.
Qed.

(** Whenever no match is selected and the binary search answers an index
    other than 0, [find] selects that match and returns its range. *)
Lemma find_seed_selects (fuel : nat) (reverse : bool) (st : State) (d : Doc)
    (ri : RegexIndexer) (L : list Z) (start : Range) (k : Z) (m : Range) :
  doc (cursor st) = Some d →
  _needToIndexDocument (_documentMap st) d = false →
  resultsCurrent (cursor st) = true →
  regexIndexer (cursor st) = Some ri →
  currentGroupIndex (ri_startEndIndexArray ri) ≤ -1 →
  _startingPositionForFind (cursor st) reverse = Some start →
  _getDocumentIndex (_documentMap st) d = Some L →
  _findResultIndexNearPos ri (_indexFromPos L (from start)) reverse _compareMatchResultToPos
    = Some (NearIndex k) →
  k ≠ 0 →
  getCurrentMatch (setCurrentMatchNumber ri k) = Some m →
  ∃ st', find (S fuel) reverse st = Some (Some m, st')
         ∧ atOccurrence (cursor st') = true
         ∧ currentPosition (cursor st') = Some m
         ∧ regexIndexer (cursor st') = Some (setCurrentMatchNumber ri k).
Proof.
  intros Hd Hn Hr Hri Hcur Hstart HL Hnear Hk Hm.
  unfold find. rewrite (_updateResultsIfNeeded_current fuel st d Hd Hn Hr). simpl.
  rewrite Hri. simpl.
  unfold getCurrentMatch at 1. rewrite decide_False by lia.
  rewrite Hstart. simpl. rewrite Hd. simpl. rewrite HL. simpl. rewrite Hnear. simpl.
  rewrite bool_decide_eq_true_2 by done. rewrite Hm. simpl.
  eexists. split; [done|]. done.
Qed.

End FindFacts.

(** ** Scenarios, evaluated *)

Section Scenarios.
Local Existing Instance miniHost.

(** The scenarios E1, E2 and E6 of the specification, as the model runs
    them. *)
Example scenario_E1 :
  let docText := str "abc" ++ newline ++ str "def" ++ newline ++ str "abc" in
  storedOffsets (_createRegexIndexer 20 docText (_createLineCharacterCountIndex docText newline)
    (_convertToRegularExpression (QueryString (str "abc")) false) None None)
  = Some [0; 3; 8; 11].
Proof. vm_compute. reflexivity. Qed.

Example scenario_E2 :
  storedOffsets (_createRegexIndexer 20 (str "AbC abc")
    (_createLineCharacterCountIndex (str "AbC abc") newline)
    (_convertToRegularExpression (QueryString (str "abc")) true) None None)
  = Some [0; 3; 4; 7].
Proof. vm_compute. reflexivity. Qed.

Example scenario_E6 :
  storedOffsets (_createRegexIndexer 20 (str "aaa")
    (_createLineCharacterCountIndex (str "aaa") newline)
    (_convertToRegularExpression (QueryString (str "a")) false) (Some 2) None)
  = Some [0; 1; 1; 2].
Proof. vm_compute. reflexivity. Qed.

(** C1 (the code departs from the claim). The document ["a"] searched for
    ["a"] has one match, number 0, and no match is selected. [find(true)]
    seeds from [(lineCount, 0)], the binary search returns index 0, and
    [if (matchIndex)] takes that 0 for "no match": [find] then steps with
    [prevMatch] from the sentinel and returns false, with no match current.
    Searching forward from the same state does return the match. *)
Theorem find_reverse_loses_match_0 :
  let st0 := emptyState (cursorFor "a" (QueryString (str "a")) None None) in
  let st := stateAfter st0 (getMatchCount 20 st0) in
  fst <$> getMatchCount 20 st0 = Some 1
  ∧ (getCurrentMatch <$> regexIndexer (cursor st)) = Some None
  ∧ currentPosition (cursor st) = None
  ∧ (ri ← regexIndexer (cursor st);
     _findResultIndexNearPos ri
       (_indexFromPos (ri_docLineIndex ri) {| line := Some 1; ch := 0 |}) true
       _compareMatchResultToPos) = Some (NearIndex 0)
  ∧ fst <$> find 20 true st = Some None
  ∧ fst <$> find 20 true st0 = Some None
  ∧ (getCurrentMatchNumber <$> regexIndexer (cursor (stateAfter st (find 20 true st)))) = Some (-1)
  ∧ atOccurrence (cursor (stateAfter st (find 20 true st))) = false
  ∧ fst <$> find 20 false st
    = Some (Some {| from := {| line := Some 0; ch := 0 |}; to := {| line := Some 0; ch := 1 |} |}).
Proof. vm_compute. repeat split; reflexivity. Qed.

(** C6 (the code departs from the claim). The cursor has scanned
    ["AbC abc"] for ["abc"] with case respected: one match, results current.
    [setSearchDocumentAndQuery] with the same string and [ignoreCase: true]
    compiles a query with the [i] flag, but [_setQuery] compares only the
    sources: [resultsCurrent] stays true, and [getMatchCount] answers 1 from
    the stale indexer where a scan with the new query finds 2. *)
Theorem same_source_new_flags_keeps_results :
  let st0 := emptyState (cursorFor "AbC abc" (QueryString (str "abc")) None None) in
  let st := stateAfter st0 (getMatchCount 20 st0) in
  let c' := setSearchDocumentAndQuery (cursor st)
              {| p_document := None; p_searchQuery := Some (QueryString (str "abc"));
                 p_position := None; p_ignoreCase := Some true; p_maxResults := None |} in
  fst <$> getMatchCount 20 st0 = Some 1
  ∧ resultsCurrent (cursor st) = true
  ∧ (ignoreCaseFlag <$> query (cursor st)) = Some false
  ∧ (ignoreCaseFlag <$> query c') = Some true
  ∧ (source <$> query c') = (source <$> query (cursor st))
  ∧ resultsCurrent c' = true
  ∧ atOccurrence c' = false
  ∧ fst <$> getMatchCount 20 (withCursor st c') = Some 1
  ∧ fst <$> scanDocumentAndStoreResultsInCursor 20 (withCursor st c') = Some 2.
Proof. vm_compute. repeat split; reflexivity. Qed.

(** C9, as the claim states it, fails: the scan of ["xxxxx"] with [.*] does
    not store 6 matches. *)
Lemma dot_star_scan_not_six_matches :
  fst <$> scanDocumentAndStoreResultsInCursor 20
            (emptyState (cursorFor "xxxxx" (regexQuery ".*") None None)) ≠ Some 6.
Proof. vm_compute. discriminate. Qed.

(** C9, amended. The scan of ["xxxxx"] with [.*] from offset 0 ends and
    stores exactly 2 matches: the whole line, from [{0, 0}] to [{0, 5}], and
    one empty match at [{0, 5}]. After the empty match at the end of the
    text [lastIndex] is past the text and the loop stops. *)
Theorem dot_star_scan_two_matches :
  let st0 := emptyState (cursorFor "xxxxx" (regexQuery ".*") None None) in
  fst <$> scanDocumentAndStoreResultsInCursor 20 st0 = Some 2
  ∧ fst <$> cursorForEachMatch 20 st0
    = Some [({| line := Some 0; ch := 0 |}, {| line := Some 0; ch := 5 |});
            ({| line := Some 0; ch := 5 |}, {| line := Some 0; ch := 5 |})]
  ∧ _scanDocumentUsingRegularExpression 20 (_createLineCharacterCountIndex (str "xxxxx") newline)
      (str "xxxxx") (_convertToRegularExpression (regexQuery ".*") false) None
    = Some [({| line := Some 0; ch := 0 |}, {| line := Some 0; ch := 5 |});
            ({| line := Some 0; ch := 5 |}, {| line := Some 0; ch := 5 |})].
Proof. vm_compute. repeat split; reflexivity. Qed.

(** C3, as the claim states it, fails: for the one-line document ["a"]
    with the separator ["\n"] the last element of the line index is 2, not
    the length 1 of the text. *)
Lemma line_index_last_is_not_text_length :
  let L := _createLineCharacterCountIndex (str "a") newline in
  aget L (len L - 1) = Some 2 ∧ aget L (len L - 1) ≠ Some (len (str "a")).
Proof. vm_compute. split; [reflexivity | discriminate]. Qed.

(** [getDocCharacterCount] returns that last element. *)
Example getDocCharacterCount_one_line :
  fst <$> getDocCharacterCount 20 (emptyState (cursorFor "a" (QueryString (str "a")) None None))
  = Some (Some 2).
Proof. vm_compute. reflexivity. Qed.

(** C2. The scan from a start offset is not the scan of the whole
    document: in ["aaaa"] searched for [aa], a scan that starts at offset 1
    stores (0,2) and (1,3), two matches that overlap, where the scan from
    offset 0 stores (0,2) and (2,4). *)
Lemma two_phase_scan_differs :
  let docText := str "aaaa" in
  let L := _createLineCharacterCountIndex docText newline in
  let q := _convertToRegularExpression (regexQuery "aa") false in
  let at1 := {| from := {| line := Some 0; ch := 1 |}; to := {| line := Some 0; ch := 1 |} |} in
  storedOffsets (_createRegexIndexer 20 docText L q None (Some at1)) = Some [0; 2; 1; 3]
  ∧ storedOffsets (_createRegexIndexer 20 docText L q None None) = Some [0; 2; 2; 4]
  ∧ storedOffsets (_createRegexIndexer 20 docText L q None (Some at1))
    ≠ storedOffsets (_createRegexIndexer 20 docText L q None None).
Proof. vm_compute. repeat split; try reflexivity. discriminate. Qed.

(** *** Instances of the theorems *)

(** C5 on the table (0,2), (3,5), searched forward from offset 1. *)
Lemma findResultIndexNearPos_correct_witness :
  (ga_array (ri_startEndIndexArray twoLinesIndexer) = flat [(0, 2); (3, 5)]
   ∧ ga_groupSize (ri_startEndIndexArray twoLinesIndexer) = 2
   ∧ [(0, 2); (3, 5)] ≠ []
   ∧ ascending ([(0, 2); (3, 5)].*1))
  ∧ ∃ r, _findResultIndexNearPos twoLinesIndexer (Some 1) false _compareMatchResultToPos = Some r
      ∧ (∀ k : nat, [(0, 2); (3, 5)].*1 !! k = Some 1 → r = NearIndex (Z.of_nat k))
      ∧ (1 ∉ [(0, 2); (3, 5)].*1 → false = false →
           (∀ (k : nat) v, [(0, 2); (3, 5)].*1 !! k = Some v → 1 ≤ v →
              (∀ (j : nat) w, (j < k)%nat → [(0, 2); (3, 5)].*1 !! j = Some w → w < 1) →
              r = NearIndex (Z.of_nat k))
           ∧ ((∀ v, v ∈ [(0, 2); (3, 5)].*1 → v < 1) → r = NearFalse))
      ∧ (1 ∉ [(0, 2); (3, 5)].*1 → false = true →
           (∀ (k : nat) v, [(0, 2); (3, 5)].*1 !! k = Some v → v < 1 →
              (∀ (j : nat) w, (k < j)%nat → [(0, 2); (3, 5)].*1 !! j = Some w → 1 ≤ w) →
              r = NearIndex (Z.of_nat k))
           ∧ ((∀ v, v ∈ [(0, 2); (3, 5)].*1 → 1 ≤ v) → r = NearFalse)).
Proof.
  assert (ascending ([(0, 2); (3, 5)].*1)) as Hasc by (apply ascendingb_sound; reflexivity).
  split; [split_and!; [reflexivity | reflexivity | discriminate | exact Hasc]|].
  apply (findResultIndexNearPos_correct twoLinesIndexer [(0, 2); (3, 5)] 1 false);
    [reflexivity | reflexivity | discriminate | exact Hasc].
Defined.

(** C8 on the two-line document, at the end of its second line. *)
Lemma posFromIndex_indexFromPos_witness :
  (len twoLines + len newline < 2 ^ 32
   ∧ newline ≠ []
   ∧ split twoLines newline !! 1%nat = Some (str "ab")
   ∧ 0 ≤ 2 ≤ len (str "ab"))
  ∧ ∃ i, _indexFromPos (_createLineCharacterCountIndex twoLines newline)
           {| line := Some (Z.of_nat 1); ch := 2 |} = Some i
         ∧ _createPosFromIndex (_createLineCharacterCountIndex twoLines newline) (Some 0) i
           = {| line := Some (Z.of_nat 1); ch := 2 |}.
Proof.
  assert (len twoLines + len newline < 2 ^ 32) as H1 by (vm_compute; reflexivity).
  assert (0 ≤ 2 ≤ len (str "ab")) as H2 by (simpl; lia).
  split; [split_and!; [exact H1 | discriminate | reflexivity | exact (proj1 H2) | exact (proj2 H2)]|].
  apply (posFromIndex_indexFromPos twoLines newline 1 2 (str "ab"));
    [exact H1 | discriminate | reflexivity | exact H2].
Defined.

(** C3, amended, on the two-line document. *)
Lemma line_index_last_and_starts_witness :
  (len twoLines + len newline < 2 ^ 32 ∧ (twoLines ≠ [] ∨ newline ≠ []))
  ∧ len (_createLineCharacterCountIndex twoLines newline) = len (split twoLines newline)
  ∧ aget (_createLineCharacterCountIndex twoLines newline)
      (len (_createLineCharacterCountIndex twoLines newline) - 1)
    = Some (len twoLines + len newline)
  ∧ ∀ (i : nat) (lineText : text), (0 < i)%nat → split twoLines newline !! i = Some lineText →
      aget (_createLineCharacterCountIndex twoLines newline) (Z.of_nat i - 1)
      = Some (lineStart (split twoLines newline) newline i)
      ∧ drop (Z.to_nat (lineStart (split twoLines newline) newline i)) twoLines
        = join newline (drop i (split twoLines newline))
      ∧ take (length lineText)
          (drop (Z.to_nat (lineStart (split twoLines newline) newline i)) twoLines)
        = lineText.
Proof.
  assert (len twoLines + len newline < 2 ^ 32) as H1 by (vm_compute; reflexivity).
  split; [split; [exact H1 | left; discriminate]|].
  apply (line_index_last_and_starts twoLines newline); [exact H1 | left; discriminate].
Defined.

(** C4 on ["aaaa"] searched for [aa] from offset 1 without [maxResults]:
    the table has the two matches (0,2), from the second search, and (1,3),
    from the first. *)
Lemma match_table_strictly_ascending_witness :
  (length (str "aaaa") + 2 ≤ 10)%nat
  ∧ ∃ q' ri,
      _createRegexIndexer 10 (str "aaaa") (_createLineCharacterCountIndex (str "aaaa") newline)
        doubleA None
        (Some {| from := {| line := Some 0; ch := 1 |}; to := {| line := Some 0; ch := 1 |} |})
      = Some (q', ri)
      ∧ ∀ k a b, getMatchIndexStart ri k = Some a →
                 getMatchIndexStart ri (k + 1) = Some b → a < b.
Proof.
  assert (length (str "aaaa") + 2 ≤ 10)%nat as H1 by (simpl; lia).
  split; [exact H1|].
  apply (match_table_strictly_ascending 10 (str "aaaa")); exact H1.
Defined.

(** The table of that scan. *)
Example match_table_of_two_searches :
  storedOffsets
    (_createRegexIndexer 10 (str "aaaa") (_createLineCharacterCountIndex (str "aaaa") newline)
       doubleA None
       (Some {| from := {| line := Some 0; ch := 1 |}; to := {| line := Some 0; ch := 1 |} |}))
  = Some [0; 2; 1; 3].
Proof. vm_compute. reflexivity. Qed.

(** C7 on ["xxxxx"] searched for [.*]. *)
Lemma scan_terminates_witness :
  (length (str "xxxxx") + 2 ≤ 10)%nat
  ∧ (∀ limit endIndex, ∃ q' ga' count,
       _searchAndAddResultsToArray 10 dotStar (str "xxxxx") (_makeGroupArray [] 2) limit endIndex
         = Some (q', ga', count)
       ∧ itemCount ga' = count ∧ 0 ≤ count ≤ len (str "xxxxx") + 1)
  ∧ (∀ documentIndex range, ∃ calls,
       _scanDocumentUsingRegularExpression 10 documentIndex (str "xxxxx") dotStar range
         = Some calls
       ∧ len calls ≤ len (str "xxxxx") + 1)
  ∧ (∀ maxResults startIndex, ∃ q' g,
       _createSearchResults 10 maxResults (_makeGroupArray [] 2) (str "xxxxx") dotStar startIndex
         = Some (q', g)
       ∧ 0 ≤ itemCount g ≤ len (str "xxxxx") + 1).
Proof.
  assert (length (str "xxxxx") + 2 ≤ 10)%nat as H1 by (simpl; lia).
  split; [exact H1|].
  apply (scan_terminates 10 (str "xxxxx") dotStar); exact H1.
Defined.

(** X29 on ["abcabc"] searched for [abc] from offset 1, inside the first
    match. *)
Lemma two_phase_scan_equals_single_scan_witness :
  ((length (str "abcabc") + 2 ≤ 10)%nat ∧ len (str "abcabc") + 1 < 100)
  ∧ ∃ qF gF qS gS,
      _createSearchResults 10 100 (_makeGroupArray [] 2) (str "abcabc") abcPattern (Some 0)
        = Some (qF, gF)
      ∧ _createSearchResults 10 100 (_makeGroupArray [] 2) (str "abcabc") abcPattern (Some 1)
        = Some (qS, gS)
      ∧ (ga_array gS = ga_array gF
         ↔ ∀ k a e, getGroupValue gF k 0 = Some a → getGroupValue gF k 1 = Some e →
                    a < 1 < e
                    → execAt (str "abcabc") abcPattern 1 = execAt (str "abcabc") abcPattern e).
Proof.
  assert (length (str "abcabc") + 2 ≤ 10)%nat as H1 by (simpl; lia).
  assert (len (str "abcabc") + 1 < 100) as H2 by (simpl; lia).
  split; [split; [exact H1 | exact H2]|].
  apply (two_phase_scan_equals_single_scan 10 (str "abcabc") abcPattern 100 1);
    [exact H1 | exact H2].
Defined.

(** In that scan the first match, (0,3), begins before the start offset 1
    and ends after it, and [exec] from 1 finds (3,6) as it does from 3: both
    scans store (0,3) and (3,6). *)
Example two_phase_scan_inside_a_match :
  ga_array <$> (snd <$> _createSearchResults 10 100 (_makeGroupArray [] 2) (str "abcabc")
                          abcPattern (Some 1))
  = Some [0; 3; 3; 6]
  ∧ ga_array <$> (snd <$> _createSearchResults 10 100 (_makeGroupArray [] 2) (str "abcabc")
                            abcPattern (Some 0))
    = Some [0; 3; 3; 6]
  ∧ execAt (str "abcabc") abcPattern 1 = Some (3, 6)
  ∧ execAt (str "abcabc") abcPattern 3 = Some (3, 6).
Proof. vm_compute. repeat split; reflexivity. Qed.

(** In ["aaaa"] searched for [aa] from offset 1 the first match, (0,2),
    begins before the start offset and ends after it, and [exec] from 1
    finds (1,3) where [exec] from 2 finds (2,4): the scans differ. *)
Example two_phase_scan_condition_fails :
  execAt (str "aaaa") doubleA 1 = Some (1, 3) ∧ execAt (str "aaaa") doubleA 2 = Some (2, 4).
Proof. vm_compute. split; reflexivity. Qed.

(** The scan of ["aaaa"] for [aa] from offset 2, where no match of the
    scan from 0 straddles the start: both scans store (0,2) and (2,4). *)
Example two_phase_scan_at_match_boundary :
  ga_array <$> (snd <$> _createSearchResults 10 100 (_makeGroupArray [] 2) (str "aaaa") doubleA (Some 2))
  = ga_array <$> (snd <$> _createSearchResults 10 100 (_makeGroupArray [] 2) (str "aaaa") doubleA (Some 0)).
Proof. vm_compute. reflexivity. Qed.

End Scenarios.

(** * Further properties of the module *)

(** ** Offsets and positions *)

(** What the loop of [_lineFromIndex] returns: the first line from the start
    line on whose element is above the offset. *)
Lemma lineFromIndexLoop_Some (rounds : nat) (L : list Z) (n index l : Z) :
  lineFromIndexLoop rounds L n index = Some l →
  n ≤ l < n + Z.of_nat rounds
  ∧ (∃ w, aget L l = Some w ∧ index < w)
  ∧ ∀ k, n ≤ k < l → gt_undef (aget L k) index = false.
Proof.
  revert n. induction rounds as [|rounds IH]; intros n; simpl; [done|].
  destruct (gt_undef (aget L n) index) eqn:Hgt.
  - intros [= <-]. split_and!; [lia | lia | | intros k ?; lia].
    unfold gt_undef in Hgt. destruct (aget L n) as [w|]; [|done].
    apply bool_decide_eq_true_1 in Hgt. exists w. split; [done | lia].
  - intros H. apply IH in H as (? & ? & Hk). split_and!; [lia | lia | done |].
    intros k ?. destruct (decide (k = n)) as [->|]; [done|]. apply Hk. lia.
Qed.

Lemma lineFromIndexLoop_None (rounds : nat) (L : list Z) (n index : Z) :
  lineFromIndexLoop rounds L n index = None →
  ∀ k, n ≤ k < n + Z.of_nat rounds → gt_undef (aget L k) index = false.
Proof.
  revert n. induction rounds as [|rounds IH]; intros n; simpl; [intros _ k ?; lia|].
  destruct (gt_undef (aget L n) index) eqn:Hgt; [done|].
  intros H k ?. destruct (decide (k = n)) as [->|]; [done|]. apply (IH _ H). lia.
Qed.

Lemma gt_undef_false (x : option Z) (v index : Z) :
  x = Some v → gt_undef x index = false → v ≤ index.
Proof. intros -> H. simpl in H. apply bool_decide_eq_false_1 in H. lia. Qed.

(** X1. Whenever [_createPosFromIndex] finds a line for an offset, from
    whatever start line, [_indexFromPos] maps the position it builds back to
    that offset. *)
Theorem indexFromPos_createPosFromIndex (L : list Z) (hint : option Z) (index l : Z) :
  _lineFromIndex L hint index = Some l →
  line (_createPosFromIndex L hint index) = Some l
  ∧ _indexFromPos L (_createPosFromIndex L hint index) = Some index.
Proof.
  intros Hl. unfold _createPosFromIndex, _indexFromPos. rewrite Hl. simpl.
  split; [done|].
  destruct hint as [h|]; [|done]. unfold _lineFromIndex in Hl.
  apply lineFromIndexLoop_Some in Hl as (_ & (w & Hw & _) & _).
  apply aget_range in Hw.
  destruct (decide (l > 0)); [|simpl; f_equal; lia].
  destruct (aget_is_Some L (l - 1)) as [v Hv]; [lia|].
  rewrite Hv. simpl. f_equal. lia.
Qed.

Section DocumentOffsets.
Context (docText sep : text).
Context (Hsize : len docText + len sep < 2 ^ 32).

Let lines := split docText sep.
Let L := _createLineCharacterCountIndex docText sep.

Lemma lineIndex_aget (k : nat) :
  (k < length lines)%nat → aget L (Z.of_nat k) = Some (lineStart lines sep (S k)).
Proof.
  intros Hk. destruct (lookup_lt_is_Some_2 lines k Hk) as [l' Hl'].
  rewrite aget_of_nat. subst L. by rewrite (lineIndex_lookup docText sep Hsize _ l' Hl').
Qed.

Lemma lineIndex_aget_Z (k w : Z) :
  aget L k = Some w → w = lineStart lines sep (S (Z.to_nat k)) ∧ 0 ≤ k < len lines.
Proof.
  intros Hw. pose proof (aget_range _ _ _ Hw) as Hr.
  pose proof (length_lineIndex docText sep) as Hlen. fold lines L in Hlen.
  split; [|lia].
  rewrite <- (Z2Nat.id k) in Hw by lia. rewrite lineIndex_aget in Hw by lia. by simplify_eq.
Qed.

(** Every line of a split is non-empty when the separator is empty. *)
Lemma line_or_separator_nonempty (k : nat) (l : text) :
  lines !! k = Some l → 0 < len l + len sep.
Proof.
  subst lines. unfold split. destruct sep as [|c sep']; [|simpl; lia].
  rewrite list_lookup_fmap. destruct (docText !! k); [|done].
  intros [= <-]. simpl. lia.
Qed.

Lemma lineStart_lt (i j : nat) :
  (i < j)%nat → (j ≤ length lines)%nat → lineStart lines sep i < lineStart lines sep j.
Proof.
  intros Hij Hj.
  destruct (lookup_lt_is_Some_2 lines i ltac:(lia)) as [l Hl].
  pose proof (lineStart_S docText sep i l Hl) as HS. fold lines in HS.
  pose proof (line_or_separator_nonempty i l Hl).
  pose proof (lineStart_mono docText sep (S i) j ltac:(lia)) as Hm. fold lines in Hm. lia.
Qed.

Lemma lineStart_0 : lineStart lines sep 0 = 0.
Proof. done. Qed.

Lemma lineStart_last : lines ≠ [] → lineStart lines sep (length lines) = len docText + len sep.
Proof.
  intros Hne. unfold lineStart. rewrite take_ge by done.
  by apply (charCount_lines docText sep).
Qed.

(** The line the loop finds for an offset inside the document. *)
Lemma lineFromIndex_in_document (hint index : Z) :
  0 ≤ hint → 0 ≤ index < len docText + len sep →
  lineStart lines sep (Z.to_nat hint) ≤ index →
  ∃ l : nat, _lineFromIndex L (Some hint) index = Some (Z.of_nat l)
    ∧ (l < length lines)%nat
    ∧ lineStart lines sep l ≤ index < lineStart lines sep (S l).
Proof.
  intros Hhint Hindex Hstart.
  pose proof (length_lineIndex docText sep) as Hlen. fold lines L in Hlen.
  assert (lines ≠ []) as Hne.
  { apply split_not_nil. destruct docText, sep; simpl in *; [lia | by right | by left | by left]. }
  assert (0 < length lines)%nat as Hpos by (destruct lines; [done | simpl; lia]).
  assert (hint < len lines) as Hhl.
  { destruct (decide (hint < len lines)); [done|].
    pose proof (lineStart_mono docText sep (length lines) (Z.to_nat hint) ltac:(lia)) as Hm.
    fold lines in Hm. rewrite lineStart_last in Hm by done. lia. }
  unfold _lineFromIndex.
  destruct (lineFromIndexLoop (Z.to_nat (len L - hint)) L hint index) as [l|] eqn:Hloop.
  - apply lineFromIndexLoop_Some in Hloop as (Hl & (w & Hw & Hlt) & Hbefore).
    apply lineIndex_aget_Z in Hw as [-> Hr].
    exists (Z.to_nat l). split_and!; [f_equal; lia | lia | | done].
    destruct (decide (l = hint)) as [->|]; [done|].
    specialize (Hbefore (l - 1) ltac:(lia)).
    destruct (aget_is_Some L (l - 1)) as [v Hv]; [lia|].
    pose proof (gt_undef_false _ _ _ Hv Hbefore).
    apply lineIndex_aget_Z in Hv as [-> _].
    replace (S (Z.to_nat (l - 1))) with (Z.to_nat l) in * by lia. done.
  - exfalso. pose proof (lineFromIndexLoop_None _ _ _ _ Hloop (len lines - 1) ltac:(lia)) as Hn.
    replace (len lines - 1) with (Z.of_nat (length lines - 1)) in Hn by lia.
    pose proof (gt_undef_false _ _ _ (lineIndex_aget (length lines - 1) ltac:(lia)) Hn).
    replace (S (length lines - 1)) with (length lines) in * by lia.
    rewrite lineStart_last in * by done. lia.
Qed.

End DocumentOffsets.

(** X2. For the line index of a document (text and separator together
    shorter than [2^32]) and an offset from 0 up to, but not including,
    [|text| + |separator|], [_createPosFromIndex] started at line 0 gives the
    line that contains the offset and the offset's distance from the start of
    that line, which is below the length of the line plus its separator. *)
Theorem createPosFromIndex_in_document (docText sep : text) (index : Z) :
  len docText + len sep < 2 ^ 32 →
  0 ≤ index < len docText + len sep →
  let lines := split docText sep in
  let L := _createLineCharacterCountIndex docText sep in
  ∃ (l : nat) (lineText : text),
    lines !! l = Some lineText
    ∧ _createPosFromIndex L (Some 0) index
      = {| line := Some (Z.of_nat l); ch := index - lineStart lines sep l |}
    ∧ 0 ≤ index - lineStart lines sep l < len lineText + len sep.
Proof.
  intros Hsize Hindex lines L.
  destruct (lineFromIndex_in_document docText sep Hsize 0 index ltac:(lia) Hindex)
    as (l & Hl & Hlt & Hlo & Hhi); [unfold lineStart; simpl; lia|].
  fold lines L in Hl, Hlt, Hlo, Hhi.
  destruct (lookup_lt_is_Some_2 lines l Hlt) as [lineText HlineText].
  pose proof (lineStart_S docText sep l lineText HlineText) as HS. fold lines in HS.
  exists l, lineText. split_and!; [done | | lia | lia].
  unfold _createPosFromIndex. rewrite Hl. f_equal.
  destruct (decide (Z.of_nat l > 0)); [|replace l with O by lia; unfold lineStart; simpl; lia].
  replace (Z.of_nat l - 1) with (Z.of_nat (l - 1)) by lia.
  rewrite (lineIndex_aget docText sep Hsize) by (fold lines; lia). simpl.
  replace (S (l - 1)) with l by lia. done.
Qed.

(** X3. The start line given to [_createPosFromIndex] is only a hint when
    it is not past the offset: from any line that starts at or before the
    offset the result is the one from line 0. From a line of the document
    that starts after the offset the result is that line, with a negative
    [ch]. *)
Theorem createPosFromIndex_hint (docText sep : text) (index : Z) (hint : nat) :
  len docText + len sep < 2 ^ 32 →
  0 ≤ index < len docText + len sep →
  let lines := split docText sep in
  let L := _createLineCharacterCountIndex docText sep in
  (lineStart lines sep hint ≤ index →
   _createPosFromIndex L (Some (Z.of_nat hint)) index = _createPosFromIndex L (Some 0) index)
  ∧ (index < lineStart lines sep hint → (hint < length lines)%nat →
     _createPosFromIndex L (Some (Z.of_nat hint)) index
     = {| line := Some (Z.of_nat hint); ch := index - lineStart lines sep hint |}
     ∧ index - lineStart lines sep hint < 0).
Proof.
  intros Hsize Hindex lines L. split.
  - intros Hhint.
    destruct (lineFromIndex_in_document docText sep Hsize 0 index ltac:(lia) Hindex)
      as (l0 & Hl0 & Hlt0 & Hlo0 & Hhi0); [unfold lineStart; simpl; lia|].
    destruct (lineFromIndex_in_document docText sep Hsize (Z.of_nat hint) index ltac:(lia) Hindex)
      as (l & Hl & Hlt & Hlo & Hhi); [by rewrite Nat2Z.id|].
    fold lines L in Hl0, Hlt0, Hlo0, Hhi0, Hl, Hlt, Hlo, Hhi.
    assert (l = l0) as ->.
    { destruct (Nat.lt_trichotomy l l0) as [?|[?|?]]; [|done|].
      - pose proof (lineStart_mono docText sep (S l) l0 ltac:(lia)) as Hm. fold lines in Hm. lia.
      - pose proof (lineStart_mono docText sep (S l0) l ltac:(lia)) as Hm. fold lines in Hm. lia. }
    unfold _createPosFromIndex. by rewrite Hl, Hl0.
  - intros Hpast Hhint.
    assert (0 < hint)%nat as Hpos.
    { destruct hint; [|lia]. unfold lineStart in Hpast. simpl in Hpast. lia. }
    pose proof (lineStart_lt docText sep Hsize hint (S hint) ltac:(lia) ltac:(fold lines; lia)) as Hnext.
    fold lines in Hnext.
    pose proof (length_lineIndex docText sep) as Hlen. fold lines L in Hlen.
    assert (_lineFromIndex L (Some (Z.of_nat hint)) index = Some (Z.of_nat hint)) as Hl.
    { unfold _lineFromIndex.
      replace (Z.to_nat (len L - Z.of_nat hint)) with (S (length lines - hint - 1)) by lia.
      simpl. subst L. rewrite (lineIndex_aget docText sep Hsize) by (fold lines; lia).
      fold lines. simpl. by rewrite bool_decide_eq_true_2 by lia. }
    split; [|lia].
    unfold _createPosFromIndex. rewrite Hl. f_equal.
    rewrite decide_True by lia.
    replace (Z.of_nat hint - 1) with (Z.of_nat (hint - 1)) by lia.
    subst L. rewrite (lineIndex_aget docText sep Hsize) by (fold lines; lia). simpl.
    replace (S (hint - 1)) with hint by lia. done.
Qed.

(** X4. Outside the line index of a document: for an offset at or past
    [|text| + |separator|], [_createPosFromIndex] builds a position whose
    line is undefined and whose [ch] is the offset itself; [_indexFromPos]
    gives [|text| + |separator| + ch] for the line just after the last one
    (the seed of a reverse [find]) and NaN for any later line. *)
Theorem positions_outside_document (docText sep : text) (index ch : Z) (hint : nat) (n : Z) :
  len docText + len sep < 2 ^ 32 →
  docText ≠ [] ∨ sep ≠ [] →
  let lines := split docText sep in
  let L := _createLineCharacterCountIndex docText sep in
  (len docText + len sep ≤ index →
   _createPosFromIndex L (Some (Z.of_nat hint)) index = {| line := None; ch := index |})
  ∧ _indexFromPos L {| line := Some (len lines); ch := ch |} = Some (len docText + len sep + ch)
  ∧ (len lines < n → _indexFromPos L {| line := Some n; ch := ch |} = None).
Proof.
  intros Hsize Hne. cbv zeta.
  assert (split docText sep ≠ []) as Hlines by by apply split_not_nil.
  assert (0 < length (split docText sep))%nat as Hpos
    by (destruct (split docText sep); [done | simpl; lia]).
  pose proof (length_lineIndex docText sep) as Hlen.
  pose proof (lineStart_last docText sep Hlines) as Hlast.
  split_and!.
  - intros Hpast.
    assert (_lineFromIndex (_createLineCharacterCountIndex docText sep)
              (Some (Z.of_nat hint)) index = None) as Hl.
    { unfold _lineFromIndex.
      destruct (lineFromIndexLoop _ _ (Z.of_nat hint) index) as [l|] eqn:Hloop; [|done].
      apply lineFromIndexLoop_Some in Hloop as (_ & (w & Hw & Hlt) & _).
      apply (lineIndex_aget_Z docText sep Hsize) in Hw as [-> Hr].
      pose proof (lineStart_mono docText sep (S (Z.to_nat l)) (length (split docText sep))
                    ltac:(lia)) as Hm.
      lia. }
    unfold _createPosFromIndex. rewrite Hl. f_equal. lia.
  - unfold _indexFromPos. simpl. rewrite decide_True by lia.
    replace (len (split docText sep) - 1)
      with (Z.of_nat (length (split docText sep) - 1)) by lia.
    rewrite (lineIndex_aget docText sep Hsize) by lia. simpl.
    replace (S (length (split docText sep) - 1)) with (length (split docText sep)) by lia.
    by rewrite Hlast.
  - intros Hn. unfold _indexFromPos. simpl. rewrite decide_True by lia.
    unfold aget. rewrite decide_True by lia.
    rewrite lookup_ge_None_2; [done|]. lia.
Qed.

(** X5. The elements of a document's line index ascend strictly: each is
    the one before it plus the length of a line and its separator, and a line
    and its separator are never both empty. *)
Theorem line_index_ascending (docText sep : text) :
  len docText + len sep < 2 ^ 32 →
  ascending (_createLineCharacterCountIndex docText sep)
  ∧ ∀ (k : nat) (lineText : text) v w,
      split docText sep !! S k = Some lineText →
      _createLineCharacterCountIndex docText sep !! k = Some v →
      _createLineCharacterCountIndex docText sep !! S k = Some w →
      w = v + len lineText + len sep.
Proof.
  intros Hsize. split.
  - intros i j a b Hi Hj Hij.
    pose proof (length_lineIndex docText sep) as Hlen.
    pose proof (lookup_lt_Some _ _ _ Hi). pose proof (lookup_lt_Some _ _ _ Hj).
    rewrite <- aget_of_nat in Hi, Hj.
    rewrite (lineIndex_aget docText sep Hsize) in Hi by lia.
    rewrite (lineIndex_aget docText sep Hsize) in Hj by lia.
    simplify_eq. apply (lineStart_lt docText sep Hsize); lia.
  - intros k lineText v w Hline Hv Hw.
    pose proof (lookup_lt_Some _ _ _ Hline).
    rewrite <- aget_of_nat in Hv, Hw.
    rewrite (lineIndex_aget docText sep Hsize) in Hv by lia.
    rewrite (lineIndex_aget docText sep Hsize) in Hw by lia.
    simplify_eq. by apply (lineStart_S docText sep).
Qed.

(** *** Instances on the two-line document *)

(** X1 at offset 4, the second character of the second line. *)
Lemma indexFromPos_createPosFromIndex_witness :
  _lineFromIndex (_createLineCharacterCountIndex twoLines newline) (Some 0) 4 = Some 1
  ∧ line (_createPosFromIndex (_createLineCharacterCountIndex twoLines newline) (Some 0) 4)
    = Some 1
  ∧ _indexFromPos (_createLineCharacterCountIndex twoLines newline)
      (_createPosFromIndex (_createLineCharacterCountIndex twoLines newline) (Some 0) 4)
    = Some 4.
Proof.
  split; [reflexivity|].
  apply (indexFromPos_createPosFromIndex
           (_createLineCharacterCountIndex twoLines newline) (Some 0) 4 1).
  reflexivity.
Defined.

(** X2 at offset 2, the separator after the first line. *)
Lemma createPosFromIndex_in_document_witness :
  (len twoLines + len newline < 2 ^ 32 ∧ 0 ≤ 2 < len twoLines + len newline)
  ∧ ∃ (l : nat) (lineText : text),
      split twoLines newline !! l = Some lineText
      ∧ _createPosFromIndex (_createLineCharacterCountIndex twoLines newline) (Some 0) 2
        = {| line := Some (Z.of_nat l);
             ch := 2 - lineStart (split twoLines newline) newline l |}
      ∧ 0 ≤ 2 - lineStart (split twoLines newline) newline l < len lineText + len newline.
Proof.
  assert (len twoLines + len newline < 2 ^ 32) as H1 by (vm_compute; reflexivity).
  assert (0 ≤ 2 < len twoLines + len newline) as H2 by (simpl; lia).
  split; [split; [exact H1 | exact H2]|].
  apply (createPosFromIndex_in_document twoLines newline 2); [exact H1 | exact H2].
Defined.

(** X3 at offset 4 with the hint on line 1. *)
Lemma createPosFromIndex_hint_witness :
  (len twoLines + len newline < 2 ^ 32 ∧ 0 ≤ 4 < len twoLines + len newline)
  ∧ (lineStart (split twoLines newline) newline 1 ≤ 4 →
     _createPosFromIndex (_createLineCharacterCountIndex twoLines newline) (Some (Z.of_nat 1)) 4
     = _createPosFromIndex (_createLineCharacterCountIndex twoLines newline) (Some 0) 4)
  ∧ (4 < lineStart (split twoLines newline) newline 1 →
     (1 < length (split twoLines newline))%nat →
     _createPosFromIndex (_createLineCharacterCountIndex twoLines newline) (Some (Z.of_nat 1)) 4
     = {| line := Some (Z.of_nat 1);
          ch := 4 - lineStart (split twoLines newline) newline 1 |}
     ∧ 4 - lineStart (split twoLines newline) newline 1 < 0).
Proof.
  assert (len twoLines + len newline < 2 ^ 32) as H1 by (vm_compute; reflexivity).
  assert (0 ≤ 4 < len twoLines + len newline) as H2 by (simpl; lia).
  split; [split; [exact H1 | exact H2]|].
  apply (createPosFromIndex_hint twoLines newline 4 1); [exact H1 | exact H2].
Defined.

(** X4 on the two-line document, whose index ends at 6. *)
Lemma positions_outside_document_witness :
  (len twoLines + len newline < 2 ^ 32 ∧ (twoLines ≠ [] ∨ newline ≠ []))
  ∧ (len twoLines + len newline ≤ 6 →
     _createPosFromIndex (_createLineCharacterCountIndex twoLines newline)
       (Some (Z.of_nat 0)) 6 = {| line := None; ch := 6 |})
  ∧ _indexFromPos (_createLineCharacterCountIndex twoLines newline)
      {| line := Some (len (split twoLines newline)); ch := 0 |}
    = Some (len twoLines + len newline + 0)
  ∧ (len (split twoLines newline) < 3 →
     _indexFromPos (_createLineCharacterCountIndex twoLines newline)
       {| line := Some 3; ch := 0 |} = None).
Proof.
  assert (len twoLines + len newline < 2 ^ 32) as H1 by (vm_compute; reflexivity).
  split; [split; [exact H1 | left; discriminate]|].
  apply (positions_outside_document twoLines newline 6 0 0 3); [exact H1 | left; discriminate].
Defined.

(** X5 on the two-line document. *)
Lemma line_index_ascending_witness :
  len twoLines + len newline < 2 ^ 32
  ∧ ascending (_createLineCharacterCountIndex twoLines newline)
  ∧ ∀ (k : nat) (lineText : text) v w,
      split twoLines newline !! S k = Some lineText →
      _createLineCharacterCountIndex twoLines newline !! k = Some v →
      _createLineCharacterCountIndex twoLines newline !! S k = Some w →
      w = v + len lineText + len newline.
Proof.
  assert (len twoLines + len newline < 2 ^ 32) as H1 by (vm_compute; reflexivity).
  split; [exact H1|].
  apply (line_index_ascending twoLines newline); exact H1.
Defined.

(** ** Stepping through the table *)

Lemma searchResultAt_current (ri : RegexIndexer) (i j : Z) :
  searchResultAt (withGroupArray ri (withCurrent (ri_startEndIndexArray ri) j)) i
  = searchResultAt ri i.
Proof. done. Qed.

Lemma holds_searchResultAt (ri : RegexIndexer) (ps : list (Z * Z)) (k j : Z) :
  holds ri ps k → 0 ≤ j < len ps → is_Some (searchResultAt ri (2 * j)).
Proof.
  intros (Harr & _ & _ & _) Hj. unfold searchResultAt. rewrite Harr.
  destruct (aget_is_Some (flat ps) (2 * j)) as [a ->]; [rewrite length_flat; lia|].
  destruct (aget_is_Some (flat ps) (2 * j + 1)) as [e ->]; [rewrite length_flat; lia|].
  done.
Qed.

(** X6. In a table of matches with match [k] current (or none, [k = -1])
    and a match [k + 1], [nextMatch] returns match [k + 1] and makes it the
    current one, and [prevMatch] after it returns match [k] and restores the
    indexer as it was. *)
Theorem nextMatch_prevMatch (ri : RegexIndexer) (ps : list (Z * Z)) (k : Z) :
  holds ri ps k → k + 1 < len ps →
  nextMatch ri = (getItemByMatchNumber ri (k + 1), setCurrentMatchNumber ri (k + 1))
  ∧ is_Some (getItemByMatchNumber ri (k + 1))
  ∧ getCurrentMatch (setCurrentMatchNumber ri (k + 1)) = getItemByMatchNumber ri (k + 1)
  ∧ getCurrentMatchNumber (setCurrentMatchNumber ri (k + 1)) = k + 1
  ∧ (0 ≤ k →
     prevMatch (setCurrentMatchNumber ri (k + 1)) = (getItemByMatchNumber ri k, ri)).
Proof.
  intros Hholds Hk. pose proof Hholds as (Harr & Hsz & Hcur & Hr).
  unfold getItemByMatchNumber, getGroupIndex, setCurrentMatchNumber, setCurrentGroup.
  rewrite Hsz. split_and!.
  - unfold nextMatch, nextGroupIndex. rewrite Hsz, Hcur, Harr, length_flat.
    rewrite decide_True by lia. rewrite searchResultAt_current.
    replace ((k + 1) * 2) with (2 * k + 2) by lia.
    by replace (2 * (k + 1)) with (2 * k + 2) by lia.
  - apply (holds_searchResultAt ri ps k); [done | lia].
  - unfold getCurrentMatch, currentGroupIndex. simpl. rewrite decide_True by lia.
    rewrite searchResultAt_current. by replace ((k + 1) * 2) with (2 * (k + 1)) by lia.
  - unfold getCurrentMatchNumber, currentGroupNumber. simpl. rewrite Hsz.
    by rewrite Z.div_mul by lia.
  - intros Hk0. unfold prevMatch, prevGroupIndex. simpl. rewrite Hsz.
    rewrite decide_True by lia. rewrite searchResultAt_current.
    replace ((k + 1) * 2 - 2) with (2 * k) by lia. f_equal.
    destruct ri as [t L [arr sz cur]]. simpl in *. unfold withGroupArray, withCurrent. simpl.
    by subst cur.
Qed.

(** X7. At the ends of a non-empty table: [nextMatch] at the last match
    returns false and leaves no match current, and the [nextMatch] after it
    returns the first match; [prevMatch] at the first match (or with no
    match current) returns false and leaves no match current, and the
    [prevMatch] after it returns false again. *)
Theorem navigation_at_the_ends (ri : RegexIndexer) (ps : list (Z * Z)) (k : Z) :
  holds ri ps k → ps ≠ [] →
  let reset := withGroupArray ri (withCurrent (ri_startEndIndexArray ri) (-2)) in
  (k = len ps - 1 → nextMatch ri = (None, reset))
  ∧ nextMatch reset = (getItemByMatchNumber ri 0, setCurrentMatchNumber ri 0)
  ∧ is_Some (getItemByMatchNumber ri 0)
  ∧ (k ≤ 0 → prevMatch ri = (None, reset))
  ∧ prevMatch reset = (None, reset)
  ∧ getCurrentMatch reset = None.
Proof.
  intros Hholds Hne reset. pose proof Hholds as (Harr & Hsz & Hcur & Hr).
  assert (0 < len ps) by (destruct ps; [done | simpl; lia]).
  unfold getItemByMatchNumber, getGroupIndex, setCurrentMatchNumber, setCurrentGroup.
  rewrite Hsz. subst reset. split_and!.
  - intros ->. unfold nextMatch, nextGroupIndex. rewrite Hsz, Hcur, Harr, length_flat.
    by rewrite decide_False by lia.
  - unfold nextMatch, nextGroupIndex. simpl. rewrite Hsz, Harr, length_flat.
    rewrite decide_True by lia. done.
  - apply (holds_searchResultAt ri ps k); [done | lia].
  - intros Hk. unfold prevMatch, prevGroupIndex. rewrite Hsz, Hcur.
    by rewrite decide_False by lia.
  - unfold prevMatch, prevGroupIndex. simpl. rewrite Hsz.
    by rewrite decide_False by lia.
  - done.
Qed.

(** ** The binary search on any table *)

Lemma bisect_Hit_range (fuel : nat) (ri : RegexIndexer) (pos : option Z)
    (fnCompare : option Z → option Z → Z) (lo hi : Z) (si cp : option Z) (k : Z) :
  bisect fuel ri pos fnCompare lo hi si cp = Some (Hit k) → lo ≤ k ≤ hi.
Proof.
  revert lo hi si cp. induction fuel as [|fuel IH]; intros lo hi si cp; simpl.
  - by destruct (decide (lo ≤ hi)).
  - destruct (decide (lo ≤ hi)); [|done].
    assert (lo ≤ (hi + lo) `div` 2 ≤ hi) as Hmid.
    { split; [apply Z.div_le_lower_bound | apply Z.div_le_upper_bound]; lia. }
    destruct (decide (_ = 0)); [intros [= <-]; lia|].
    destruct (decide (_ = -1)); intros H%IH; lia.
Qed.

(** The loop ends by its test with an undefined [searchIndex] only when
    its body never ran. *)
Lemma bisect_Miss_None (fuel : nat) (ri : RegexIndexer) (pos : option Z)
    (fnCompare : option Z → option Z → Z) (lo hi : Z) (si cp cp' : option Z) :
  bisect fuel ri pos fnCompare lo hi si cp = Some (Miss None cp') → si = None ∧ hi < lo.
Proof.
  revert lo hi si cp. induction fuel as [|fuel IH]; intros lo hi si cp; simpl.
  - destruct (decide (lo ≤ hi)); [done|]. intros [= -> _]. split; [done | lia].
  - destruct (decide (lo ≤ hi)); [|intros [= -> _]; split; [done | lia]].
    destruct (decide (_ = 0)); [done|].
    destruct (decide (_ = -1)); intros [? _]%IH; done.
Qed.

Lemma findResultIndexNearPos_result (ri : RegexIndexer) (ps : list (Z * Z)) (cur : Z)
    (pos : option Z) (reverse : bool) (fnCompare : option Z → option Z → Z) :
  holds ri ps cur →
  ∃ r, _findResultIndexNearPos ri pos reverse fnCompare = Some r
       ∧ (∀ k, r = NearIndex k → 0 ≤ k < len ps)
       ∧ (r = NearUndefined ↔ ps = []).
Proof.
  intros (Harr & Hsz & _ & _).
  pose proof (itemCount_flat _ ps Harr Hsz) as Hcount.
  unfold _findResultIndexNearPos, getItemCount. cbv zeta. rewrite Hcount.
  destruct (bisect_terminates ri pos fnCompare (Z.to_nat (len ps)) 0 (len ps - 1) None None
              ltac:(lia)) as [out Hout].
  rewrite Hout. simpl. destruct out as [k|si cp].
  - apply bisect_Hit_range in Hout. eexists. split; [done|]. split.
    + intros k' [= <-]. lia.
    + split; [done|]. intros ->. simpl in Hout. lia.
  - set (si1 := if decide (cp = Some (-1) ∧ reverse = false) then _ else _).
    set (si2 := if decide (cp = Some 1 ∧ reverse = true) then _ else _).
    assert (si2 = None ↔ si = None) as Hnone.
    { subst si2 si1. destruct (decide _), (decide _), si; done. }
    destruct si2 as [k|] eqn:Hsi2.
    + destruct (decide (k < 0 ∨ k >= len ps)) as [?|Hin].
      * eexists. split; [done|]. split; [done|]. split; [done|]. intros ->.
        destruct si as [i|]; [|naive_solver].
        simpl in Hout. done.
      * eexists. split; [done|]. split; [intros k' [= <-]; lia|].
        split; [done|]. intros ->. simpl in Hin. lia.
    + eexists. split; [done|]. split; [done|]. split; [|done]. intros _.
      assert (si = None) as -> by by apply Hnone.
      apply bisect_Miss_None in Hout as [_ Hlt].
      destruct ps; [done | simpl in Hlt; lia].
Qed.

(** X8. On any table of matches, for any position, direction and compare
    function, [_findResultIndexNearPos] returns; an index it returns is a
    match number of the table, from 0 to the count of matches; and its
    result is undefined exactly when the table has no match. *)
Theorem findResultIndexNearPos_in_range (ri : RegexIndexer) (ps : list (Z * Z)) (cur : Z)
    (pos : option Z) (reverse : bool) (fnCompare : option Z → option Z → Z) :
  holds ri ps cur →
  ∃ r, _findResultIndexNearPos ri pos reverse fnCompare = Some r
       ∧ (∀ k, r = NearIndex k →
            0 ≤ k < getItemCount ri
            ∧ is_Some (getMatchIndexStart ri k) ∧ is_Some (getMatchIndexEnd ri k))
       ∧ (r = NearUndefined ↔ getItemCount ri = 0).
Proof.
  intros Hholds. pose proof Hholds as (Harr & Hsz & _ & _).
  destruct (findResultIndexNearPos_result ri ps cur pos reverse fnCompare Hholds)
    as (r & Hr & Hrange & Hundef).
  exists r. split; [done|]. unfold getItemCount, getMatchIndexStart, getMatchIndexEnd.
  rewrite (itemCount_flat _ ps Harr Hsz). split.
  - intros k Hk. specialize (Hrange k Hk). split; [done|].
    rewrite (getGroupValue_flat_start _ ps) by done.
    rewrite (getGroupValue_flat_end _ ps) by done.
    split; apply aget_is_Some; by rewrite length_fmap.
  - rewrite Hundef. destruct ps; simpl; split; intros; try done; lia.
Qed.

(** ** What a scan stores *)

Section ScanMore.
Context `{host : Host} (docText : text) (query : RegExp).

Local Abbreviation n := (len docText).
Local Abbreviation execAt' := (execAt docText query).
Local Abbreviation Scan' := (Scan docText query).
Local Abbreviation ScanU' := (ScanU docText query).

(** A scan stops at the limit. *)
Lemma Scan_limit (limit endIndex L index : Z) (ps : list (Z * Z)) :
  Scan' limit endIndex L index ps → 2 * len ps ≤ Z.max 2 (limit - index + 1).
Proof.
  induction 1 as [L index Hnone|L index a e Hsome Hbreak|L index a e ps Hsome Hgo Hscan IH].
  - simpl. lia.
  - simpl. lia.
  - simpl length. lia.
Qed.

(** A scan with room for [k] matches stores the first [k] matches of the
    scan without a limit. *)
Lemma Scan_take (limit endIndex L index : Z) (ps : list (Z * Z)) :
  Scan' limit endIndex L index ps →
  ∀ k F, limit = index + 2 * k → 1 ≤ k → ScanU' endIndex L F → ps = take (Z.to_nat k) F.
Proof.
  induction 1 as [L index Hnone|L index a e Hsome Hbreak|L index a e ps Hsome Hgo Hscan IH];
    intros k F Hlimit Hk HF.
  - inversion HF; simplify_eq. by rewrite take_nil.
  - replace (Z.to_nat k) with (S (Z.to_nat (k - 1))) by lia.
    inversion HF; simplify_eq; [simpl; by rewrite take_nil|].
    replace (Z.to_nat (k - 1)) with O by lia. done.
  - replace (Z.to_nat k) with (S (Z.to_nat (k - 1))) by lia.
    inversion HF; simplify_eq; [lia|].
    simpl. f_equal. apply IH; [lia | lia | done].
Qed.

(** In one scan a match starts at or after the end of the one before it,
    and after an empty one. *)
Lemma Scan_no_overlap (limit endIndex L index : Z) (ps : list (Z * Z)) :
  Scan' limit endIndex L index ps →
  ∀ (i : nat) a e b f, ps !! i = Some (a, e) → ps !! S i = Some (b, f) → bump a e ≤ b.
Proof.
  induction 1 as [L index Hnone|L index a e Hsome Hbreak|L index a e ps Hsome Hgo Hscan IH];
    intros i a' e' b f Hi HSi; [done | by destruct i |].
  destruct i as [|i]; [|by eapply IH].
  simpl in Hi, HSi. simplify_eq.
  pose proof (Scan_ascending _ _ _ _ _ _ _ Hscan) as [_ Hin].
  specialize (Hin b f ltac:(by eapply list_elem_of_lookup_2)). lia.
Qed.

(** Every match of a scan is the match [exec] finds from its start. *)
Lemma Scan_reproducible (limit endIndex L index : Z) (ps : list (Z * Z)) :
  Scan' limit endIndex L index ps → ∀ a e, (a, e) ∈ ps → execAt' a = Some (a, e).
Proof.
  induction 1 as [L index Hnone|L index a e Hsome Hbreak|L index a e ps Hsome Hgo Hscan IH];
    intros a' e' Hin.
  - by apply elem_of_nil in Hin.
  - apply list_elem_of_singleton in Hin. simplify_eq.
    pose proof (execAt_Some _ _ _ _ _ Hsome). eapply execAt_Some_later; [done | lia | lia].
  - apply elem_of_cons in Hin as [?|Hin]; [|by apply IH]. simplify_eq.
    pose proof (execAt_Some _ _ _ _ _ Hsome). eapply execAt_Some_later; [done | lia | lia].
Qed.

End ScanMore.

Lemma length_dedupPairs (P Sx : list (Z * Z)) : (length (dedupPairs P Sx) ≤ length Sx)%nat.
Proof.
  unfold dedupPairs. destruct P as [|p P]; [done|].
  destruct (last Sx); [|done]. destruct (decide _); [|done].
  rewrite length_take. lia.
Qed.

(** The pair stored at match number [k]. *)
Lemma pairs_lookup (ps : list (Z * Z)) (k a e : Z) :
  aget (ps.*1) k = Some a → aget (ps.*2) k = Some e →
  0 ≤ k < len ps ∧ ps !! Z.to_nat k = Some (a, e).
Proof.
  intros Ha He. pose proof (aget_range _ _ _ Ha) as Hr. rewrite length_fmap in Hr.
  apply aget_Some in Ha as [_ Ha]. apply aget_Some in He as [_ He].
  rewrite list_lookup_fmap in Ha, He.
  destruct (ps !! Z.to_nat k) as [[a' e']|]; [|done]. simpl in *. by simplify_eq.
Qed.

Lemma lookup_pairs (ps : list (Z * Z)) (k : nat) (a e : Z) :
  ps !! k = Some (a, e) →
  aget (ps.*1) (Z.of_nat k) = Some a ∧ aget (ps.*2) (Z.of_nat k) = Some e.
Proof. intros H. by rewrite !aget_of_nat, !list_lookup_fmap, H. Qed.

Section IndexerFacts.
Context `{host : Host}.

Local Abbreviation origin :=
  {| to := {| line := Some 0; ch := 0 |}; from := {| line := Some 0; ch := 0 |} |}.

Lemma createRegexIndexer_inv (fuel : nat) (docText : text) (L : list Z) (query : RegExp)
    (maxResults : option Z) (startPosition : option Range) (q' : RegExp) (ri : RegexIndexer) :
  _createRegexIndexer fuel docText L query maxResults startPosition = Some (q', ri) →
  ∃ g, _createSearchResults fuel (js_or maxResults 10000000) (_makeGroupArray [] 2) docText query
         (_indexFromPos L (from (default origin startPosition))) = Some (q', g)
       ∧ ri = {| ri_docText := docText; ri_docLineIndex := L; ri_startEndIndexArray := g |}.
Proof.
  unfold _createRegexIndexer. cbv zeta. intros H.
  destruct (_createSearchResults _ _ _ _ _ _) as [[q1 g]|] eqn:Hrun; [|done].
  simpl in H. exists g. by simplify_eq.
Qed.

Lemma createRegexIndexer_returns (fuel : nat) (docText : text) (L : list Z) (query : RegExp)
    (maxResults : option Z) (startPosition : option Range) :
  (length docText + 2 ≤ fuel)%nat →
  is_Some (_createRegexIndexer fuel docText L query maxResults startPosition).
Proof.
  intros Hfuel. unfold _createRegexIndexer. cbv zeta.
  destruct (createSearchResults_terminates docText query fuel (js_or maxResults 10000000)
              (_indexFromPos L (from (default origin startPosition))) ltac:(lia))
    as [[q' g] ->].
  done.
Qed.

(** The scan changes only the [lastIndex] of the expression. *)
Lemma createSearchResults_query (docText : text) (query : RegExp) (fuel : nat) (maxResults : Z)
    (startIndex : option Z) (q' : RegExp) (g : GroupArray) :
  _createSearchResults fuel maxResults (_makeGroupArray [] 2) docText query startIndex
    = Some (q', g) →
  sameRegExp query q'.
Proof.
  intros Hrun. unfold _createSearchResults in Hrun. cbv zeta in Hrun.
  destruct (_searchAndAddResultsToArray fuel (setLastIndex query (default 0 startIndex)) _ _ _ _)
    as [[[q1 g1] count1]|] eqn:Hfirst; [|done].
  apply (searchAndAdd_spec docText query) in Hfirst
    as (P & HP & Harr1 & Hsz1 & Hcur1 & -> & Hq1); [|done].
  simpl in Hrun. destruct (decide _).
  - destruct (_searchAndAddResultsToArray fuel (setLastIndex q1 0) _ _ _ _)
      as [[[q2 g2] count2]|] eqn:Hsecond; [|done].
    apply (searchAndAdd_spec docText query) in Hsecond
      as (Sx & HSx & Harr2 & Hsz2 & Hcur2 & _ & Hq2); [|done].
    simpl in Hrun. by simplify_eq.
  - by simplify_eq.
Qed.

(** The pairs a scan stores, each the match [exec] finds from its own
    start. *)
Lemma createSearchResults_pairs (docText : text) (query : RegExp) (fuel : nat) (maxResults : Z)
    (startIndex : option Z) (q' : RegExp) (g : GroupArray) :
  _createSearchResults fuel maxResults (_makeGroupArray [] 2) docText query startIndex
    = Some (q', g) →
  ∃ ps, ga_array g = flat ps ∧ ga_groupSize g = 2 ∧ _currentGroupIndex g = -2
        ∧ ∀ a e, (a, e) ∈ ps →
            0 ≤ a ≤ len docText ∧ a ≤ e ∧ execAt docText query a = Some (a, e).
Proof.
  intros Hrun. apply createSearchResults_spec in Hrun as (P & HP & Hsz & Hcur & Hcase).
  cbv zeta in *.
  pose proof (Scan_ascending _ _ _ _ _ _ _ HP) as [_ HPin].
  pose proof (Scan_reproducible _ _ _ _ _ _ _ HP) as HPex.
  destruct (decide _) as [_|_].
  - destruct Hcase as (Sx & HSx & Harr).
    pose proof (Scan_ascending _ _ _ _ _ _ _ HSx) as [_ HSin].
    pose proof (Scan_reproducible _ _ _ _ _ _ _ HSx) as HSex.
    exists (dedupPairs P Sx ++ P). split_and!; [done..|].
    intros a e [Hin%dedupPairs_sublist|Hin]%elem_of_app.
    + specialize (HSin _ _ Hin). split_and!; [lia | lia | lia | by apply HSex].
    + specialize (HPin _ _ Hin). split_and!; [lia | lia | lia | by apply HPex].
  - exists P. split_and!; [done..|].
    intros a e Hin. specialize (HPin _ _ Hin). split_and!; [lia | lia | lia | by apply HPex].
Qed.

(** X9. The indexer [_createRegexIndexer] returns: it keeps the text and
    the line index it was given, the scan has changed nothing of the
    expression but its [lastIndex], no match is current (the current match
    is undefined and its number is -1), and every match number from 0 to the
    count has a start and an end offset with [0 ≤ start ≤ end] and the start
    within the text; other match numbers have none. *)
Theorem createRegexIndexer_table (fuel : nat) (docText : text) (L : list Z) (query : RegExp)
    (maxResults : option Z) (startPosition : option Range) (q' : RegExp) (ri : RegexIndexer) :
  _createRegexIndexer fuel docText L query maxResults startPosition = Some (q', ri) →
  (source q' = source query ∧ ignoreCaseFlag q' = ignoreCaseFlag query)
  ∧ ri_docText ri = docText ∧ ri_docLineIndex ri = L
  ∧ getCurrentMatch ri = None ∧ getCurrentMatchNumber ri = -1
  ∧ ∃ ps, holds ri ps (-1) ∧ getItemCount ri = len ps
      ∧ (∀ (k : nat) a e, ps !! k = Some (a, e) →
           getMatchIndexStart ri (Z.of_nat k) = Some a
           ∧ getMatchIndexEnd ri (Z.of_nat k) = Some e
           ∧ 0 ≤ a ≤ e ∧ a ≤ len docText)
      ∧ (∀ k, ¬ 0 ≤ k < len ps →
           getMatchIndexStart ri k = None ∧ getMatchIndexEnd ri k = None).
Proof.
  intros Hrun. apply createRegexIndexer_inv in Hrun as (g & Hrun & ->).
  pose proof (createSearchResults_query _ _ _ _ _ _ _ Hrun) as Hq.
  apply createSearchResults_pairs in Hrun as (ps & Harr & Hsz & Hcur & Hin).
  split; [done|]. split; [done|]. split; [done|]. split_and!.
  - unfold getCurrentMatch, currentGroupIndex. simpl. rewrite Hcur. by rewrite decide_False by lia.
  - unfold getCurrentMatchNumber, currentGroupNumber. simpl. by rewrite Hcur, Hsz.
  - exists ps. split_and!.
    + unfold holds. simpl. split_and!; [done | done | by rewrite Hcur | lia | lia].
    + by apply itemCount_flat.
    + intros k a e Hk. apply lookup_pairs in Hk as Hk'. destruct Hk' as [Ha He].
      unfold getMatchIndexStart, getMatchIndexEnd. simpl.
      rewrite (getGroupValue_flat_start g ps) by done.
      rewrite (getGroupValue_flat_end g ps) by done.
      specialize (Hin a e ltac:(by eapply list_elem_of_lookup_2)).
      split_and!; [done | done | lia..].
    + intros k Hk. unfold getMatchIndexStart, getMatchIndexEnd. simpl.
      rewrite (getGroupValue_flat_start g ps) by done.
      rewrite (getGroupValue_flat_end g ps) by done.
      split.
      * destruct (aget (ps.*1) k) eqn:H; [|done].
        apply aget_range in H. rewrite length_fmap in H. lia.
      * destruct (aget (ps.*2) k) eqn:H; [|done].
        apply aget_range in H. rewrite length_fmap in H. lia.
Qed.

(** X10. With [maxResults = M ≥ 1] the table of a scan holds at most
    [2M - 1] matches, wherever the scan starts: fewer than [M] from the
    start position on, and then at most [M] from the beginning of the
    text. *)
Theorem maxResults_bounds_table (fuel : nat) (docText : text) (L : list Z) (query : RegExp)
    (M : Z) (startPosition : option Range) (q' : RegExp) (ri : RegexIndexer) :
  1 ≤ M →
  _createRegexIndexer fuel docText L query (Some M) startPosition = Some (q', ri) →
  getItemCount ri ≤ 2 * M - 1.
Proof.
  intros HM Hrun. apply createRegexIndexer_inv in Hrun as (g & Hrun & ->).
  apply createSearchResults_spec in Hrun as (P & HP & Hsz & Hcur & Hcase).
  cbv zeta in *. unfold getItemCount. simpl.
  assert (js_or (Some M) 10000000 = M) as HM'.
  { unfold js_or. by rewrite decide_False by lia. }
  rewrite !HM' in *.
  pose proof (Scan_limit _ _ _ _ _ _ _ HP) as HlenP.
  destruct (decide _) as [[_ Hfew]|_].
  - destruct Hcase as (Sx & HSx & Harr).
    pose proof (Scan_limit _ _ _ _ _ _ _ HSx) as HlenS.
    pose proof (length_dedupPairs P Sx).
    rewrite (itemCount_flat g _ Harr Hsz), length_app. lia.
  - rewrite (itemCount_flat g _ Hcase Hsz). lia.
Qed.

(** X11. Without a start position, [maxResults = M ≥ 1] cuts the table
    after the first [M] matches: the table is the first [2M] offsets of the
    table of a scan whose [maxResults] is above [|text| + 1]. Both scans
    return, given fuel for the length of the text. *)
Theorem maxResults_keeps_first_matches (fuel : nat) (docText : text) (L : list Z)
    (query : RegExp) (M M' : Z) :
  (length docText + 2 ≤ fuel)%nat → 1 ≤ M → len docText + 1 < M' →
  ∃ q1 ri1 q2 ri2,
    _createRegexIndexer fuel docText L query (Some M) None = Some (q1, ri1)
    ∧ _createRegexIndexer fuel docText L query (Some M') None = Some (q2, ri2)
    ∧ ga_array (ri_startEndIndexArray ri1)
      = take (Z.to_nat (2 * M)) (ga_array (ri_startEndIndexArray ri2))
    ∧ getItemCount ri1 = Z.min M (getItemCount ri2).
Proof.
  intros Hfuel HM HM'.
  destruct (createRegexIndexer_returns fuel docText L query (Some M) None Hfuel)
    as [[q1 ri1] H1].
  destruct (createRegexIndexer_returns fuel docText L query (Some M') None Hfuel)
    as [[q2 ri2] H2].
  exists q1, ri1, q2, ri2. split; [done|]. split; [done|].
  apply createRegexIndexer_inv in H1 as (g1 & H1 & ->).
  apply createRegexIndexer_inv in H2 as (g2 & H2 & ->).
  apply createSearchResults_spec in H1 as (P1 & HP1 & Hsz1 & _ & Harr1).
  apply createSearchResults_spec in H2 as (P2 & HP2 & Hsz2 & _ & Harr2).
  cbv zeta in *. unfold getItemCount.
  assert (js_or (Some M) 10000000 = M) as E1
    by (unfold js_or; by rewrite decide_False by lia).
  assert (js_or (Some M') 10000000 = M') as E2
    by (unfold js_or; by rewrite decide_False by lia).
  rewrite !E1 in HP1, Harr1. rewrite !E2 in HP2, Harr2. simpl in *.
  apply Scan_unbounded in HP2; [|lia].
  pose proof (Scan_take _ _ _ _ _ _ _ HP1 M P2 ltac:(lia) HM HP2) as ->.
  rewrite (itemCount_flat g1 _ Harr1 Hsz1), (itemCount_flat g2 _ Harr2 Hsz2).
  rewrite Harr1, Harr2. split.
  - replace (Z.to_nat (2 * M)) with (2 * Z.to_nat M)%nat by lia. by rewrite take_flat.
  - rewrite length_take. lia.
Qed.

(** X12. Without a start position the matches of the table do not overlap:
    every match starts at or after the end of the match before it, and after
    it where that match is empty. *)
Theorem scan_from_start_no_overlap (fuel : nat) (docText : text) (L : list Z) (query : RegExp)
    (maxResults : option Z) (q' : RegExp) (ri : RegexIndexer) (k a e b : Z) :
  _createRegexIndexer fuel docText L query maxResults None = Some (q', ri) →
  getMatchIndexStart ri k = Some a →
  getMatchIndexEnd ri k = Some e →
  getMatchIndexStart ri (k + 1) = Some b →
  e ≤ b ∧ (a = e → e < b).
Proof.
  intros Hrun Ha He Hb. apply createRegexIndexer_inv in Hrun as (g & Hrun & ->).
  apply createSearchResults_spec in Hrun as (P & HP & Hsz & _ & Harr).
  cbv zeta in *. simpl in Harr.
  unfold getMatchIndexStart, getMatchIndexEnd in *. simpl in *.
  rewrite (getGroupValue_flat_start g P) in Ha, Hb by done.
  rewrite (getGroupValue_flat_end g P) in He by done.
  destruct (pairs_lookup P k a e Ha He) as [Hk Hlook].
  pose proof (aget_range _ _ _ Hb) as Hk'. rewrite length_fmap in Hk'.
  apply aget_Some in Hb as [_ Hb]. rewrite list_lookup_fmap in Hb.
  replace (Z.to_nat (k + 1)) with (S (Z.to_nat k)) in Hb by lia.
  destruct (P !! S (Z.to_nat k)) as [[b' f]|] eqn:Hnext; [|done]. simpl in Hb. simplify_eq.
  pose proof (Scan_no_overlap _ _ _ _ _ _ _ HP _ _ _ _ _ Hlook Hnext) as Hbump.
  unfold bump in Hbump. destruct (decide (a = e)); lia.
Qed.

(** X13. Every match of the table can be found again: with match [k]
    current, [getFullResultInfo] for [k], given an expression with the
    source and flags of the scan, runs [exec] from the stored start and gets
    a match at that same start, whose end, left in [lastIndex], is the
    stored end; it returns the range of match [k] with it. Called while no
    match is current, it throws. *)
Theorem getFullResultInfo_recovers_match (fuel : nat) (docText : text) (L : list Z)
    (query : RegExp) (maxResults : option Z) (startPosition : option Range)
    (q' : RegExp) (ri : RegexIndexer) (k a e : Z) (q2 : RegExp) :
  _createRegexIndexer fuel docText L query maxResults startPosition = Some (q', ri) →
  getMatchIndexStart ri k = Some a →
  getMatchIndexEnd ri k = Some e →
  source q2 = source query → ignoreCaseFlag q2 = ignoreCaseFlag query →
  ∃ m, getItemByMatchNumber ri k = Some m
       ∧ getFullResultInfo (setCurrentMatchNumber ri k) k q2 docText
         = (Some (m, Some a), setLastIndex q2 e)
       ∧ fst (getFullResultInfo ri k q2 docText) = None.
Proof.
  intros Hrun Ha He Hsrc Hflag. apply createRegexIndexer_inv in Hrun as (g & Hrun & ->).
  apply createSearchResults_pairs in Hrun as (ps & Harr & Hsz & Hcur & Hin).
  unfold getMatchIndexStart, getMatchIndexEnd in *. simpl in *.
  rewrite (getGroupValue_flat_start g ps) in Ha by done.
  rewrite (getGroupValue_flat_end g ps) in He by done.
  destruct (pairs_lookup ps k a e Ha He) as [Hk Hlook].
  destruct (Hin a e ltac:(by eapply list_elem_of_lookup_2)) as (Ha0 & Hae & Hexec).
  assert (aget (ga_array g) (2 * k) = Some a) as Hstart.
  { rewrite Harr. apply aget_Some. split; [lia|].
    replace (Z.to_nat (2 * k)) with (2 * Z.to_nat k)%nat by lia.
    rewrite flat_lookup_start, list_lookup_fmap, Hlook. done. }
  assert (aget (ga_array g) (2 * k + 1) = Some e) as Hend.
  { rewrite Harr. apply aget_Some. split; [lia|].
    replace (Z.to_nat (2 * k + 1)) with (2 * Z.to_nat k + 1)%nat by lia.
    rewrite flat_lookup_end, list_lookup_fmap, Hlook. done. }
  assert (∀ r : RegexIndexer, ri_startEndIndexArray r = g ∨
            ri_startEndIndexArray r = setCurrentGroup g k →
            exec (setLastIndex q2 (default 0 (aget (ga_array (ri_startEndIndexArray r))
                    (getGroupIndex (ri_startEndIndexArray r) k)))) docText
            = (Some a, setLastIndex q2 e)) as Hex.
  { intros r Hr.
    assert (aget (ga_array (ri_startEndIndexArray r))
              (getGroupIndex (ri_startEndIndexArray r) k) = Some a) as ->.
    { unfold getGroupIndex. destruct Hr as [-> | ->]; simpl; by rewrite Hsz. }
    simpl. rewrite (exec_execAt docText query) by done. simpl. by rewrite Hexec. }
  eexists. split_and!.
  - unfold getItemByMatchNumber, searchResultAt, getGroupIndex. simpl.
    rewrite Hsz, Hstart, Hend. simpl. done.
  - unfold getFullResultInfo. cbv zeta. rewrite Hex by (right; done).
    unfold getCurrentMatch, currentGroupIndex, setCurrentMatchNumber, setCurrentGroup. simpl.
    rewrite Hsz. rewrite decide_True by lia.
    unfold searchResultAt. simpl.
    replace (k * 2) with (2 * k) by lia. rewrite Hstart, Hend. simpl. done.
  - unfold getFullResultInfo. cbv zeta. rewrite Hex by (left; done).
    unfold getCurrentMatch, currentGroupIndex. simpl. rewrite Hcur.
    by rewrite decide_False by lia.
Qed.

End IndexerFacts.

(** ** Positions of the matches of a table *)

Section Traversal.
Context (docText sep : text).
Context (Hsize : len docText + len sep < 2 ^ 32).

Local Abbreviation lines := (split docText sep).
Local Abbreviation L := (_createLineCharacterCountIndex docText sep).

(** From a start line that begins at or before the offset, the position
    is the one found from line 0. *)
Lemma createPosFromIndex_any_hint (hint index : Z) :
  0 ≤ hint → 0 ≤ index < len docText + len sep →
  lineStart lines sep (Z.to_nat hint) ≤ index →
  ∃ l : nat,
    _createPosFromIndex L (Some hint) index = _createPosFromIndex L (Some 0) index
    ∧ _lineFromIndex L (Some hint) index = Some (Z.of_nat l)
    ∧ _lineFromIndex L (Some 0) index = Some (Z.of_nat l)
    ∧ lineStart lines sep l ≤ index.
Proof.
  intros Hhint0 Hindex Hhint.
  destruct (lineFromIndex_in_document docText sep Hsize 0 index ltac:(lia) Hindex)
    as (l0 & Hl0 & Hlt0 & Hlo0 & Hhi0); [unfold lineStart; simpl; lia|].
  destruct (lineFromIndex_in_document docText sep Hsize hint index Hhint0 Hindex Hhint)
    as (l & Hl & Hlt & Hlo & Hhi).
  assert (l = l0) as ->.
  { destruct (Nat.lt_trichotomy l l0) as [?|[?|?]]; [|done|].
    - pose proof (lineStart_mono docText sep (S l) l0 ltac:(lia)). lia.
    - pose proof (lineStart_mono docText sep (S l0) l ltac:(lia)). lia. }
  exists l0. unfold _createPosFromIndex. rewrite Hl, Hl0. done.
Qed.

Lemma lineFromIndex_unfold (A : list Z) (hint index : Z) :
  lineFromIndexLoop (Z.to_nat (len A - hint)) A hint index = _lineFromIndex A (Some hint) index.
Proof. done. Qed.

(** The range [_createSearchResult] builds for a pair of offsets, as the
    two arguments of a callback. *)
Local Abbreviation callOf := (λ p : Z * Z,
  (from (_createSearchResult L p.1 p.2 None), to (_createSearchResult L p.1 p.2 None))).

Lemma forEachMatchLoop_positions (ri : RegexIndexer) (ps : list (Z * Z)) :
  ri_docLineIndex ri = L →
  ga_array (ri_startEndIndexArray ri) = flat ps →
  ga_groupSize (ri_startEndIndexArray ri) = 2 →
  (∀ a e, (a, e) ∈ ps → 0 ≤ a ≤ e ∧ e < len docText + len sep) →
  (∀ (i : nat) a e b f, ps !! i = Some (a, e) → ps !! S i = Some (b, f) → e ≤ b) →
  ∀ (rounds i : nat) (hint : Z),
    (rounds + i = length ps)%nat → 0 ≤ hint →
    (∀ a e, ps !! i = Some (a, e) → lineStart lines sep (Z.to_nat hint) ≤ a) →
    forEachMatchLoop rounds ri (Z.of_nat i) (Some hint) = Some (callOf <$> drop i ps).
Proof.
  intros HL Harr Hsz Hin Hover.
  induction rounds as [|rounds IH]; intros i hint Hlen Hhint0 Hhint; simpl.
  - by rewrite drop_ge by lia.
  - destruct (lookup_lt_is_Some_2 ps i ltac:(lia)) as [[a e] Hi].
    specialize (Hin a e ltac:(by eapply list_elem_of_lookup_2)) as Hae.
    unfold getGroupIndex. rewrite Hsz, Harr, HL.
    assert (aget (flat ps) (2 * Z.of_nat i) = Some a) as ->.
    { replace (2 * Z.of_nat i) with (Z.of_nat (2 * i)) by lia.
      by rewrite aget_of_nat, flat_lookup_start, list_lookup_fmap, Hi. }
    assert (aget (flat ps) (2 * Z.of_nat i + 1) = Some e) as ->.
    { replace (2 * Z.of_nat i + 1) with (Z.of_nat (2 * i + 1)) by lia.
      by rewrite aget_of_nat, flat_lookup_end, list_lookup_fmap, Hi. }
    simpl. rewrite !lineFromIndex_unfold.
    destruct (createPosFromIndex_any_hint hint a Hhint0 ltac:(lia) (Hhint a e Hi))
      as (la & -> & -> & Hla & Hlo).
    destruct (createPosFromIndex_any_hint (Z.of_nat la) e ltac:(lia) ltac:(lia)
                ltac:(rewrite Nat2Z.id; lia)) as (le & _ & Hle & _ & Hloe).
    rewrite Hle.
    replace (Z.of_nat i + 1) with (Z.of_nat (S i)) by lia.
    rewrite (IH (S i) (Z.of_nat le)); [| lia | lia |].
    + rewrite (drop_S ps (a, e) i Hi), fmap_cons. simpl.
      rewrite !lineFromIndex_unfold. by rewrite Hla.
    + intros b f Hnext. rewrite Nat2Z.id. pose proof (Hover i a e b f Hi Hnext). lia.
Qed.

(** X14. In a table over the document's line index whose matches lie
    within the index's range and do not overlap (each starts at or after the
    end of the one before), [forEachMatch], which searches each line from the
    line of the match before, reports for every match number the range that
    [getItemByMatchNumber] builds from line 0. *)
Theorem forEachMatch_agrees_with_getItemByMatchNumber
    (ri : RegexIndexer) (ps : list (Z * Z)) (cur : Z) :
  ri_docLineIndex ri = L →
  holds ri ps cur →
  (∀ a e, (a, e) ∈ ps → 0 ≤ a ≤ e ∧ e < len docText + len sep) →
  (∀ (i : nat) a e b f, ps !! i = Some (a, e) → ps !! S i = Some (b, f) → e ≤ b) →
  ∃ calls, forEachMatch ri = Some calls
    ∧ length calls = length ps
    ∧ ∀ k : nat, (k < length ps)%nat →
        getItemByMatchNumber ri (Z.of_nat k)
        = (λ c, {| from := c.1; to := c.2 |}) <$> calls !! k.
Proof.
  intros HL (Harr & Hsz & _ & _) Hin Hover.
  exists (callOf <$> ps). split_and!.
  - unfold forEachMatch. rewrite (itemCount_flat _ ps Harr Hsz), Nat2Z.id.
    apply (forEachMatchLoop_positions ri ps HL Harr Hsz Hin Hover (length ps) 0%nat 0);
      [lia | lia |].
    intros a e Hhd. specialize (Hin a e ltac:(by eapply list_elem_of_lookup_2)).
    unfold lineStart. simpl. lia.
  - by rewrite length_fmap.
  - intros k Hk. destruct (lookup_lt_is_Some_2 ps k Hk) as [[a e] Hi].
    rewrite list_lookup_fmap, Hi. simpl.
    unfold getItemByMatchNumber, searchResultAt, getGroupIndex. rewrite Hsz, Harr, HL.
    assert (aget (flat ps) (2 * Z.of_nat k) = Some a) as ->.
    { replace (2 * Z.of_nat k) with (Z.of_nat (2 * k)) by lia.
      by rewrite aget_of_nat, flat_lookup_start, list_lookup_fmap, Hi. }
    assert (aget (flat ps) (2 * Z.of_nat k + 1) = Some e) as ->.
    { replace (2 * Z.of_nat k + 1) with (Z.of_nat (2 * k + 1)) by lia.
      by rewrite aget_of_nat, flat_lookup_end, list_lookup_fmap, Hi. }
    simpl. done.
Qed.

End Traversal.

(** ** The document map *)

(** X15. After [_indexDocument] the document needs no indexing, and its
    text and line index are the ones read back; a document with the same
    identity at another generation needs indexing again; the entries of other
    documents are as before. A document that is not in the map needs
    indexing, and reading its text or index throws. *)
Theorem indexDocument_lookup (m : gmap nat DocInfo) (d d' : Doc) :
  _needToIndexDocument (_indexDocument m d) d = false
  ∧ _getDocumentText (_indexDocument m d) d = Some (getValue d)
  ∧ _getDocumentIndex (_indexDocument m d) d
    = Some (_createLineCharacterCountIndex (getValue d) (lineSeparator d))
  ∧ (docId d' = docId d → generation d' ≠ generation d →
     _needToIndexDocument (_indexDocument m d) d' = true)
  ∧ (docId d' ≠ docId d →
     _needToIndexDocument (_indexDocument m d) d' = _needToIndexDocument m d'
     ∧ _getDocumentText (_indexDocument m d) d' = _getDocumentText m d'
     ∧ _getDocumentIndex (_indexDocument m d) d' = _getDocumentIndex m d')
  ∧ (m !! docId d = None →
     _needToIndexDocument m d = true
     ∧ _getDocumentText m d = None ∧ _getDocumentIndex m d = None).
Proof.
  unfold _needToIndexDocument, _getDocumentText, _getDocumentIndex, _indexDocument. cbv zeta.
  split_and!.
  - rewrite lookup_insert_eq. simpl. by rewrite decide_True by done.
  - by rewrite lookup_insert_eq.
  - by rewrite lookup_insert_eq.
  - intros -> Hgen. rewrite lookup_insert_eq. simpl. by rewrite decide_False by done.
  - intros Hid. by rewrite !lookup_insert_ne by done.
  - intros ->. done.
Qed.

(** ** The lazy refresh *)

Section CursorFacts.
Context `{host : Host}.

(** The document map with [d] indexed if it needs to be. *)
Local Abbreviation indexed m d :=
  (if _needToIndexDocument m d then _indexDocument m d else m).

(** The cursor after a scan that left [q'] and built [ri]. *)
Local Abbreviation scanned c q' ri :=
  (setResultsCurrent (setRegexIndexer (setQueryField c (Some q')) (Some ri)) true).

Lemma _updateResultsIfNeeded_S (fuel : nat) (st : State) :
  _updateResultsIfNeeded (S fuel) st
  = (d ← doc (cursor st);
     let st :=
       if _needToIndexDocument (_documentMap st) d
       then {| _documentMap := _indexDocument (_documentMap st) d;
               cursor := setResultsCurrent (cursor st) false |}
       else st in
     if resultsCurrent (cursor st) then Some st
     else snd <$> scanDocumentAndStoreResultsInCursor fuel st).
Proof. done. Qed.

Lemma scanDocumentAndStoreResultsInCursor_S (fuel : nat) (st : State) :
  scanDocumentAndStoreResultsInCursor (S fuel) st
  = (d ← doc (cursor st);
     let st :=
       if _needToIndexDocument (_documentMap st) d
       then {| _documentMap := _indexDocument (_documentMap st) d; cursor := cursor st |}
       else st in
     docText ← _getDocumentText (_documentMap st) d;
     docLineIndex ← _getDocumentIndex (_documentMap st) d;
     q ← query (cursor st);
     '(q, ri) ← _createRegexIndexer fuel docText docLineIndex q
                  (maxResults (cursor st)) (currentPosition (cursor st));
     let c := setResultsCurrent (setRegexIndexer (setQueryField (cursor st) (Some q)) (Some ri)) true in
     getMatchCount fuel (withCursor st c)).
Proof. done. Qed.

Lemma getMatchCount_S (fuel : nat) (st : State) :
  getMatchCount (S fuel) st
  = (st ← _updateResultsIfNeeded fuel st;
     ri ← regexIndexer (cursor st);
     Some (getItemCount ri, st)).
Proof. done. Qed.

Lemma indexed_ok (m : gmap nat DocInfo) (d : Doc) :
  _needToIndexDocument (indexed m d) d = false.
Proof.
  destruct (_needToIndexDocument m d) eqn:H; [|done].
  unfold _needToIndexDocument, _indexDocument. rewrite lookup_insert_eq. simpl.
  by rewrite decide_True by done.
Qed.

Lemma indexed_other (m : gmap nat DocInfo) (d : Doc) (id : nat) :
  id ≠ docId d → indexed m d !! id = m !! id.
Proof.
  intros Hid. destruct (_needToIndexDocument m d); [|done].
  unfold _indexDocument. by rewrite lookup_insert_ne by done.
Qed.

Lemma indexed_entry (m : gmap nat DocInfo) (d : Doc) :
  ∃ info, indexed m d !! docId d = Some info
          ∧ _getDocumentText (indexed m d) d = Some (di_text info)
          ∧ _getDocumentIndex (indexed m d) d = Some (di_index info)
          ∧ (_needToIndexDocument m d = true →
             di_text info = getValue d
             ∧ di_index info = _createLineCharacterCountIndex (getValue d) (lineSeparator d))
          ∧ (_needToIndexDocument m d = false → m !! docId d = Some info).
Proof.
  unfold _getDocumentText, _getDocumentIndex.
  destruct (_needToIndexDocument m d) eqn:H.
  - unfold _indexDocument. rewrite lookup_insert_eq. eexists. split_and!; done.
  - unfold _needToIndexDocument in H. destruct (m !! docId d) as [info|] eqn:Hm; [|done].
    exists info. split_and!; done.
Qed.

(** The counting call at the end of a scan finds the state settled. *)
Lemma getMatchCount_settled (fuel : nat) (st : State) (d : Doc) (ri : RegexIndexer) :
  doc (cursor st) = Some d →
  _needToIndexDocument (_documentMap st) d = false →
  resultsCurrent (cursor st) = true →
  regexIndexer (cursor st) = Some ri →
  getMatchCount (S (S fuel)) st = Some (getItemCount ri, st).
Proof.
  intros Hd Hn Hr Hri. rewrite getMatchCount_S.
  rewrite (_updateResultsIfNeeded_current fuel st d Hd Hn Hr). simpl. by rewrite Hri.
Qed.

(** What a scan that returns has done. *)
Lemma scanDocumentAndStore_inv (fuel : nat) (st : State) (n : Z) (st' : State) :
  scanDocumentAndStoreResultsInCursor fuel st = Some (n, st') →
  ∃ d q t L f q' ri,
    doc (cursor st) = Some d ∧ query (cursor st) = Some q
    ∧ _getDocumentText (indexed (_documentMap st) d) d = Some t
    ∧ _getDocumentIndex (indexed (_documentMap st) d) d = Some L
    ∧ _createRegexIndexer (S (S f)) t L q (maxResults (cursor st)) (currentPosition (cursor st))
      = Some (q', ri)
    ∧ st' = {| _documentMap := indexed (_documentMap st) d;
               cursor := scanned (cursor st) q' ri |}
    ∧ n = getItemCount ri
    ∧ fuel = S (S (S f)).
Proof.
  destruct fuel as [|fuel]; [done|]. rewrite scanDocumentAndStoreResultsInCursor_S.
  destruct (doc (cursor st)) as [d|] eqn:Hd; [|done]. simpl.
  set (st1 := if _needToIndexDocument (_documentMap st) d then _ else st).
  assert (st1 = {| _documentMap := indexed (_documentMap st) d; cursor := cursor st |}) as ->.
  { subst st1. destruct (_needToIndexDocument (_documentMap st) d); [done|]. by destruct st. }
  simpl.
  destruct (_getDocumentText _ d) as [t|] eqn:Ht; [|done]. simpl.
  destruct (_getDocumentIndex _ d) as [L|] eqn:HL; [|done]. simpl.
  destruct (query (cursor st)) as [q|] eqn:Hq; [|done]. simpl.
  destruct (_createRegexIndexer fuel t L q _ _) as [[q' ri]|] eqn:Hrun; [|done]. simpl.
  intros Hcount.
  destruct fuel as [|[|fuel]]; [done | done |].
  rewrite (getMatchCount_settled fuel _ d ri) in Hcount;
    [| done | apply indexed_ok | done | done].
  exists d, q, t, L, fuel, q', ri. by simplify_eq.
Qed.

(** What a refresh that returns has done: nothing, on a settled state, or
    one scan. *)
Lemma updateResults_inv (fuel : nat) (st st' : State) :
  _updateResultsIfNeeded fuel st = Some st' →
  ∃ d, doc (cursor st) = Some d
    ∧ ((_needToIndexDocument (_documentMap st) d = false
        ∧ resultsCurrent (cursor st) = true ∧ st' = st)
       ∨ ((_needToIndexDocument (_documentMap st) d = true ∨ resultsCurrent (cursor st) = false)
          ∧ ∃ q t L f q' ri,
            query (cursor st) = Some q
            ∧ _getDocumentText (indexed (_documentMap st) d) d = Some t
            ∧ _getDocumentIndex (indexed (_documentMap st) d) d = Some L
            ∧ _createRegexIndexer f t L q (maxResults (cursor st)) (currentPosition (cursor st))
              = Some (q', ri)
            ∧ st' = {| _documentMap := indexed (_documentMap st) d;
                       cursor := scanned (cursor st) q' ri |})).
Proof.
  destruct fuel as [|fuel]; [done|]. rewrite _updateResultsIfNeeded_S.
  destruct (doc (cursor st)) as [d|] eqn:Hd; [|done]. simpl.
  intros H. exists d. split; [done|].
  destruct (_needToIndexDocument (_documentMap st) d) eqn:Hneed.
  - right. split; [by left|]. simpl in H.
    destruct (scanDocumentAndStoreResultsInCursor fuel _) as [[n st2]|] eqn:Hscan; [|done].
    simpl in H. simplify_eq.
    apply scanDocumentAndStore_inv in Hscan
      as (d1 & q & t & L & f & q' & ri & Hd1 & Hq & Ht & HL & Hrun & -> & _).
    simpl in *. simplify_eq.
    pose proof (indexed_ok (_documentMap st) d) as Hok. rewrite Hneed in Hok.
    rewrite Hok in *.
    exists q, t, L, (S (S f)), q', ri. done.
  - destruct (resultsCurrent (cursor st)) eqn:Hcur.
    + left. by simplify_eq.
    + right. split; [by right|].
      destruct (scanDocumentAndStoreResultsInCursor fuel _) as [[n st2]|] eqn:Hscan; [|done].
      simpl in H. simplify_eq.
      apply scanDocumentAndStore_inv in Hscan
        as (d1 & q & t & L & f & q' & ri & Hd1 & Hq & Ht & HL & Hrun & -> & _).
      simplify_eq. rewrite Hneed in *.
      exists q, t, L, (S (S f)), q', ri. done.
Qed.

(** *** Steps of an indexer that holds a table *)

Lemma getItemByMatchNumber_set (ri : RegexIndexer) (j i : Z) :
  getItemByMatchNumber (setCurrentMatchNumber ri j) i = getItemByMatchNumber ri i.
Proof. done. Qed.

Lemma holds_set (ri : RegexIndexer) (ps : list (Z * Z)) (k j : Z) :
  holds ri ps k → -1 ≤ j < len ps → holds (setCurrentMatchNumber ri j) ps j.
Proof.
  intros (Harr & Hsz & _ & _) Hj. unfold holds. simpl. rewrite Hsz.
  split_and!; [done | done | lia | lia | lia].
Qed.

Lemma holds_item (ri : RegexIndexer) (ps : list (Z * Z)) (k j : Z) :
  holds ri ps k → 0 ≤ j < len ps → is_Some (getItemByMatchNumber ri j).
Proof.
  intros Hholds Hj. pose proof Hholds as (_ & Hsz & _ & _).
  unfold getItemByMatchNumber, getGroupIndex. rewrite Hsz.
  by apply (holds_searchResultAt ri ps k).
Qed.

Lemma getCurrentMatch_holds (ri : RegexIndexer) (ps : list (Z * Z)) (k : Z) :
  holds ri ps k →
  getCurrentMatch ri = if decide (0 ≤ k) then getItemByMatchNumber ri k else None.
Proof.
  intros (Harr & Hsz & Hcur & Hk). unfold getCurrentMatch, currentGroupIndex. rewrite Hcur.
  destruct (decide (0 ≤ k)).
  - rewrite decide_True by lia. unfold getItemByMatchNumber, getGroupIndex. by rewrite Hsz.
  - by rewrite decide_False by lia.
Qed.

Lemma getCurrentMatchNumber_holds (ri : RegexIndexer) (ps : list (Z * Z)) (k : Z) :
  holds ri ps k → getCurrentMatchNumber ri = k.
Proof.
  intros (Harr & Hsz & Hcur & Hk). unfold getCurrentMatchNumber, currentGroupNumber.
  rewrite Hcur, Hsz. rewrite Z.mul_comm. by apply Z.div_mul.
Qed.

Lemma nextMatch_holds (ri : RegexIndexer) (ps : list (Z * Z)) (k : Z) :
  holds ri ps k →
  nextMatch ri = if decide (k + 1 < len ps)
                 then (getItemByMatchNumber ri (k + 1), setCurrentMatchNumber ri (k + 1))
                 else (None, setCurrentMatchNumber ri (-1)).
Proof.
  intros (Harr & Hsz & Hcur & Hk).
  unfold nextMatch, nextGroupIndex, getItemByMatchNumber, getGroupIndex,
    setCurrentMatchNumber, setCurrentGroup.
  rewrite Hsz, Hcur, Harr, length_flat.
  destruct (decide (k + 1 < len ps)).
  - rewrite decide_True by lia. rewrite searchResultAt_current.
    replace ((k + 1) * 2) with (2 * k + 2) by lia.
    by replace (2 * (k + 1)) with (2 * k + 2) by lia.
  - by rewrite decide_False by lia.
Qed.

Lemma prevMatch_holds (ri : RegexIndexer) (ps : list (Z * Z)) (k : Z) :
  holds ri ps k →
  prevMatch ri = if decide (1 ≤ k)
                 then (getItemByMatchNumber ri (k - 1), setCurrentMatchNumber ri (k - 1))
                 else (None, setCurrentMatchNumber ri (-1)).
Proof.
  intros (Harr & Hsz & Hcur & Hk).
  unfold prevMatch, prevGroupIndex, getItemByMatchNumber, getGroupIndex,
    setCurrentMatchNumber, setCurrentGroup.
  rewrite Hsz, Hcur.
  destruct (decide (1 ≤ k)).
  - rewrite decide_True by lia. rewrite searchResultAt_current.
    replace ((k - 1) * 2) with (2 * k - 2) by lia.
    by replace (2 * (k - 1)) with (2 * k - 2) by lia.
  - by rewrite decide_False by lia.
Qed.

(** *** The refresh returns *)

Lemma scan_returns (fuel : nat) (st : State) (d : Doc) (q : RegExp) (t : text) (L : list Z) :
  doc (cursor st) = Some d → query (cursor st) = Some q →
  _getDocumentText (indexed (_documentMap st) d) d = Some t →
  _getDocumentIndex (indexed (_documentMap st) d) d = Some L →
  (length t + 2 ≤ fuel)%nat →
  ∃ q' ri,
    _createRegexIndexer fuel t L q (maxResults (cursor st)) (currentPosition (cursor st))
      = Some (q', ri)
    ∧ scanDocumentAndStoreResultsInCursor (S fuel) st
      = Some (getItemCount ri, {| _documentMap := indexed (_documentMap st) d;
                                  cursor := scanned (cursor st) q' ri |}).
Proof.
  intros Hd Hq Ht HL Hfuel.
  destruct (createRegexIndexer_returns fuel t L q (maxResults (cursor st))
              (currentPosition (cursor st)) Hfuel) as [[q' ri] Hrun].
  exists q', ri. split; [done|].
  rewrite scanDocumentAndStoreResultsInCursor_S, Hd. simpl.
  set (st1 := if _needToIndexDocument (_documentMap st) d then _ else st).
  assert (st1 = {| _documentMap := indexed (_documentMap st) d; cursor := cursor st |}) as ->.
  { subst st1. destruct (_needToIndexDocument (_documentMap st) d); [done|]. by destruct st. }
  simpl. rewrite Ht. simpl. rewrite HL. simpl. rewrite Hq. simpl. rewrite Hrun. simpl.
  destruct fuel as [|[|fuel]]; [lia | lia |].
  apply (getMatchCount_settled fuel _ d ri); [done | apply indexed_ok | done | done].
Qed.

Lemma updateResults_returns (fuel : nat) (st : State) (d : Doc) (q : RegExp) :
  doc (cursor st) = Some d → query (cursor st) = Some q → enoughFuel fuel st d →
  ∃ st', _updateResultsIfNeeded fuel st = Some st'
    ∧ ((_needToIndexDocument (_documentMap st) d = false
        ∧ resultsCurrent (cursor st) = true ∧ st' = st)
       ∨ ((_needToIndexDocument (_documentMap st) d = true ∨ resultsCurrent (cursor st) = false)
          ∧ ∃ t L f q' ri,
            _getDocumentText (indexed (_documentMap st) d) d = Some t
            ∧ _getDocumentIndex (indexed (_documentMap st) d) d = Some L
            ∧ _createRegexIndexer f t L q (maxResults (cursor st)) (currentPosition (cursor st))
              = Some (q', ri)
            ∧ st' = {| _documentMap := indexed (_documentMap st) d;
                       cursor := scanned (cursor st) q' ri |})).
Proof.
  intros Hd Hq [Hfuel1 Hfuel2].
  destruct (indexed_entry (_documentMap st) d) as (info & _ & Ht & HL & Hfresh & Hold).
  assert (length (di_text info) + 4 ≤ fuel)%nat as Hfuel.
  { destruct (_needToIndexDocument (_documentMap st) d) eqn:Hneed.
    - destruct (Hfresh eq_refl) as [-> _]. done.
    - pose proof (Hold eq_refl) as Hentry. apply Hfuel2; [done|].
      unfold _needToIndexDocument in Hneed. rewrite Hentry in Hneed.
      by destruct (decide (di_generation info = generation d)). }
  destruct fuel as [|F]; [lia|].
  rewrite _updateResultsIfNeeded_S, Hd. simpl.
  destruct (_needToIndexDocument (_documentMap st) d) eqn:Hneed.
  - pose proof (indexed_ok (_documentMap st) d) as Hok. rewrite Hneed in Hok. simpl.
    destruct F as [|fuel]; [lia|].
    edestruct (scan_returns fuel
                 {| _documentMap := _indexDocument (_documentMap st) d;
                    cursor := setResultsCurrent (cursor st) false |} d q)
      as (q' & ri & Hrun & ->); [done | done | | | |].
    + simpl. rewrite Hok. exact Ht.
    + simpl. rewrite Hok. exact HL.
    + lia.
    + simpl. rewrite Hok. eexists. split; [done|]. right. split; [by left|].
      eexists _, _, _, _, _. split_and!; [done | done | exact Hrun | done].
  - destruct (resultsCurrent (cursor st)) eqn:Hcur.
    + eexists. split; [done|]. by left.
    + destruct F as [|fuel]; [lia|].
      edestruct (scan_returns fuel st d q) as (q' & ri & Hrun & ->);
        [done | done | rewrite Hneed; exact Ht | rewrite Hneed; exact HL | lia |].
      simpl. rewrite Hneed. eexists. split; [done|]. right. split; [by right|].
      eexists _, _, _, _, _. split_and!; [done | done | exact Hrun | done].
Qed.

Lemma createRegexIndexer_fresh (fuel : nat) (docText : text) (L : list Z) (q : RegExp)
    (maxResults : option Z) (startPosition : option Range) (q' : RegExp) (ri : RegexIndexer) :
  _createRegexIndexer fuel docText L q maxResults startPosition = Some (q', ri) →
  sameRegExp q q' ∧ ri_docText ri = docText ∧ ri_docLineIndex ri = L
  ∧ ∃ ps, holds ri ps (-1).
Proof.
  intros Hrun. apply createRegexIndexer_inv in Hrun as (g & Hrun & ->).
  pose proof (createSearchResults_query _ _ _ _ _ _ _ Hrun) as Hq.
  apply createSearchResults_pairs in Hrun as (ps & Harr & Hsz & Hcur & _).
  split_and!; [done..|]. exists ps. unfold holds. simpl.
  split_and!; [done | done | by rewrite Hcur | lia | lia].
Qed.

(** *** Steps of the cursor *)

Lemma findNext_step (c : Cursor) (ri : RegexIndexer) (ps : list (Z * Z)) (k : Z) :
  regexIndexer c = Some ri → holds ri ps k → k + 1 < len ps →
  ∃ m, getItemByMatchNumber ri (k + 1) = Some m
       ∧ _findNext c
         = Some (Some m, setRegexIndexer c (Some (setCurrentMatchNumber ri (k + 1)))).
Proof.
  intros Hri Hholds Hk. pose proof Hholds as (_ & _ & _ & ?).
  destruct (holds_item ri ps k (k + 1) Hholds ltac:(lia)) as [m Hm].
  exists m. split; [done|]. unfold _findNext. rewrite Hri. simpl.
  rewrite (nextMatch_holds ri ps k Hholds). rewrite decide_True by done. by rewrite Hm.
Qed.

Lemma findNext_end (c : Cursor) (ri : RegexIndexer) (ps : list (Z * Z)) (k : Z) :
  regexIndexer c = Some ri → holds ri ps k → ¬ k + 1 < len ps →
  _findNext c
  = Some (None, setCurrentPosition
                  (setAtOccurrence (setRegexIndexer c (Some (setCurrentMatchNumber ri (-1))))
                     false) None).
Proof.
  intros Hri Hholds Hk. unfold _findNext. rewrite Hri. simpl.
  rewrite (nextMatch_holds ri ps k Hholds). by rewrite decide_False by done.
Qed.

Lemma findPrevious_step (c : Cursor) (ri : RegexIndexer) (ps : list (Z * Z)) (k : Z) :
  regexIndexer c = Some ri → holds ri ps k → 1 ≤ k →
  ∃ m, getItemByMatchNumber ri (k - 1) = Some m
       ∧ _findPrevious c
         = Some (Some m, setRegexIndexer c (Some (setCurrentMatchNumber ri (k - 1)))).
Proof.
  intros Hri Hholds Hk. pose proof Hholds as (_ & _ & _ & ?).
  destruct (holds_item ri ps k (k - 1) Hholds ltac:(lia)) as [m Hm].
  exists m. split; [done|]. unfold _findPrevious. rewrite Hri. simpl.
  rewrite (prevMatch_holds ri ps k Hholds). rewrite decide_True by done. by rewrite Hm.
Qed.

Lemma findPrevious_end (c : Cursor) (ri : RegexIndexer) (ps : list (Z * Z)) (k : Z) :
  regexIndexer c = Some ri → holds ri ps k → ¬ 1 ≤ k →
  _findPrevious c
  = Some (None, setCurrentPosition
                  (setAtOccurrence (setRegexIndexer c (Some (setCurrentMatchNumber ri (-1))))
                     false) None).
Proof.
  intros Hri Hholds Hk. unfold _findPrevious. rewrite Hri. simpl.
  rewrite (prevMatch_holds ri ps k Hholds). by rewrite decide_False by done.
Qed.

Lemma find_step (reverse : bool) (c : Cursor) (ri : RegexIndexer) (ps : list (Z * Z)) (k : Z) :
  regexIndexer c = Some ri → holds ri ps k →
  let j := stepTarget reverse ps k in
  -1 ≤ j < len ps
  ∧ ∃ r c', (if reverse then _findPrevious c else _findNext c) = Some (r, c')
      ∧ r = (if decide (0 ≤ j) then getItemByMatchNumber ri j else None)
      ∧ (0 ≤ j → is_Some r)
      ∧ c' = (if decide (0 ≤ j)
              then setRegexIndexer c (Some (setCurrentMatchNumber ri j))
              else setCurrentPosition
                     (setAtOccurrence (setRegexIndexer c (Some (setCurrentMatchNumber ri j)))
                        false) None).
Proof.
  intros Hri Hholds j. pose proof Hholds as (_ & _ & _ & ?).
  subst j. unfold stepTarget. destruct reverse.
  - destruct (decide (1 ≤ k)) as [Hk|Hk].
    + destruct (findPrevious_step c ri ps k Hri Hholds Hk) as (m & Hm & ->).
      split; [lia|]. eexists _, _. split; [done|].
      rewrite !decide_True by lia. rewrite Hm. done.
    + rewrite (findPrevious_end c ri ps k Hri Hholds Hk).
      split; [destruct ps; simpl; lia|]. eexists _, _. split; [done|].
      rewrite !decide_False by lia. split_and!; [done | lia | done].
  - destruct (decide (k + 1 < len ps)) as [Hk|Hk].
    + destruct (findNext_step c ri ps k Hri Hholds Hk) as (m & Hm & ->).
      split; [lia|]. eexists _, _. split; [done|].
      rewrite !decide_True by lia. rewrite Hm. done.
    + rewrite (findNext_end c ri ps k Hri Hholds Hk).
      split; [destruct ps; simpl; lia|]. eexists _, _. split; [done|].
      rewrite !decide_False by lia. split_and!; [done | lia | done].
Qed.

Lemma startingPositionForFind_Some (c : Cursor) (reverse : bool) (d : Doc) :
  doc c = Some d → is_Some (_startingPositionForFind c reverse).
Proof.
  intros Hd. unfold _startingPositionForFind.
  destruct (currentPosition c); [done|]. destruct reverse; [|done]. by rewrite Hd.
Qed.

Lemma getDocumentIndex_Some (m : gmap nat DocInfo) (d : Doc) :
  _needToIndexDocument m d = false → is_Some (_getDocumentIndex m d).
Proof.
  unfold _needToIndexDocument, _getDocumentIndex.
  by destruct (m !! docId d).
Qed.

(** [find] on a settled state whose indexer holds a table: it returns,
    and selects a match number [j] of the table, or none ([j = -1]). *)
Lemma find_settled (fuel : nat) (reverse : bool) (st : State) (d : Doc)
    (ri : RegexIndexer) (ps : list (Z * Z)) (k : Z) :
  doc (cursor st) = Some d →
  _needToIndexDocument (_documentMap st) d = false →
  resultsCurrent (cursor st) = true →
  regexIndexer (cursor st) = Some ri →
  holds ri ps k →
  ∃ r st' j,
    find (S fuel) reverse st = Some (r, st')
    ∧ -1 ≤ j < len ps
    ∧ r = (if decide (0 ≤ j) then getItemByMatchNumber ri j else None)
    ∧ (0 ≤ j → is_Some r)
    ∧ (0 ≤ k → j = stepTarget reverse ps k)
    ∧ _documentMap st' = _documentMap st
    ∧ regexIndexer (cursor st') = Some (setCurrentMatchNumber ri j)
    ∧ currentPosition (cursor st') = r
    ∧ atOccurrence (cursor st') = bool_decide (0 ≤ j)
    ∧ doc (cursor st') = doc (cursor st)
    ∧ query (cursor st') = query (cursor st)
    ∧ ignoreCase (cursor st') = ignoreCase (cursor st)
    ∧ maxResults (cursor st') = maxResults (cursor st)
    ∧ resultsCurrent (cursor st') = true.
Proof.
  intros Hd Hn Hr Hri Hholds. pose proof Hholds as (_ & _ & _ & Hk).
  unfold find. rewrite (_updateResultsIfNeeded_current fuel st d Hd Hn Hr). simpl.
  rewrite Hri. simpl.
  rewrite (getCurrentMatch_holds ri ps k Hholds).
  destruct (decide (0 ≤ k)) as [Hk0|Hk0].
  - (* a match is current: step from it *)
    destruct (holds_item ri ps k k Hholds ltac:(lia)) as [m0 ->]. simpl.
    destruct (find_step reverse (cursor st) ri ps k Hri Hholds)
      as (Hj & r & c' & -> & Hrj & Hsome & ->).
    simpl. exists r, (withCursor st
      (match r with
       | Some _ => setAtOccurrence (setCurrentPosition
           (if decide (0 ≤ stepTarget reverse ps k)
            then setRegexIndexer (cursor st)
                   (Some (setCurrentMatchNumber ri (stepTarget reverse ps k)))
            else setCurrentPosition
                   (setAtOccurrence
                      (setRegexIndexer (cursor st)
                         (Some (setCurrentMatchNumber ri (stepTarget reverse ps k)))) false)
                   None) r) true
       | None => (if decide (0 ≤ stepTarget reverse ps k)
            then setRegexIndexer (cursor st)
                   (Some (setCurrentMatchNumber ri (stepTarget reverse ps k)))
            else setCurrentPosition
                   (setAtOccurrence
                      (setRegexIndexer (cursor st)
                         (Some (setCurrentMatchNumber ri (stepTarget reverse ps k)))) false)
                   None)
       end)), (stepTarget reverse ps k).
    split; [by destruct r|]. split; [done|]. split; [done|]. split; [done|]. split; [done|].
    destruct (decide (0 ≤ stepTarget reverse ps k)) as [Hj0|Hj0].
    + destruct (Hsome Hj0) as [m ->]. simpl. rewrite bool_decide_eq_true_2 by done. done.
    + subst r. simpl. rewrite bool_decide_eq_false_2 by done. done.
  - (* no match is current: seed from the starting position *)
    assert (k = -1) as -> by lia. simpl.
    destruct (startingPositionForFind_Some (cursor st) reverse d Hd) as [start ->]. simpl.
    rewrite Hd. simpl.
    destruct (getDocumentIndex_Some _ _ Hn) as [L ->]. simpl.
    destruct (findResultIndexNearPos_result ri ps (-1) (_indexFromPos L (from start)) reverse
                _compareMatchResultToPos Hholds) as (near & -> & Hrange & _).
    simpl.
    set (c1 := setCurrentPosition (cursor st) (Some start)).
    assert (regexIndexer c1 = Some ri) as Hri1 by done.
    destruct (truthy near) eqn:Htruthy.
    + destruct near as [j0| |]; [|done|done].
      simpl in Htruthy. apply bool_decide_eq_true_1 in Htruthy.
      specialize (Hrange j0 eq_refl).
      pose proof (holds_set ri ps (-1) j0 Hholds ltac:(lia)) as Hholds'.
      rewrite (getCurrentMatch_holds _ ps j0 Hholds'). rewrite decide_True by lia.
      rewrite getItemByMatchNumber_set.
      destruct (holds_item ri ps (-1) j0 Hholds ltac:(lia)) as [m Hm]. rewrite Hm. simpl.
      eexists _, _, j0. split; [done|]. simpl.
      rewrite decide_True by lia. rewrite bool_decide_eq_true_2 by lia.
      split_and!; try done; lia.
    + destruct (find_step reverse c1 ri ps (-1) Hri1 Hholds)
        as (Hj & r & c' & Hstep & Hrj & Hsome & Hc').
      destruct near as [j0| |]; simpl in Htruthy |- *; try rewrite Htruthy; simpl;
        rewrite Hstep; simpl;
        (destruct (decide (0 ≤ stepTarget reverse ps (-1))) as [Hj0|Hj0];
         [ destruct (Hsome Hj0) as [m Hm]; rewrite Hm in *; subst c'; simpl;
           eexists _, _, _; split; [done|]; simpl;
           rewrite decide_True by done; rewrite bool_decide_eq_true_2 by done;
           split_and!; try done; lia
         | subst r c'; simpl;
           eexists _, _, _; split; [done|]; simpl;
           rewrite decide_False by done; rewrite bool_decide_eq_false_2 by done;
           split_and!; try done; lia ]).
Qed.

(** X16. The lazy refresh of a cursor that has a document and a query
    returns, given fuel for the text. Afterwards the document is indexed at
    its generation and the results are current, so that a second refresh
    changes nothing; the entries of other documents and the cursor's other
    fields are as before, and the query has changed at most in its
    [lastIndex]. A state that was settled is returned as it is; otherwise
    the indexer is a new one, over the text and line index stored for the
    document (the document's own text if it had to be indexed), with no
    match current. *)
Theorem updateResultsIfNeeded_settles (fuel : nat) (st : State) (d : Doc) (q : RegExp) :
  doc (cursor st) = Some d → query (cursor st) = Some q → enoughFuel fuel st d →
  ∃ st', _updateResultsIfNeeded fuel st = Some st'
    ∧ _needToIndexDocument (_documentMap st') d = false
    ∧ resultsCurrent (cursor st') = true
    ∧ (∀ fuel', _updateResultsIfNeeded (S fuel') st' = Some st')
    ∧ (∀ id, id ≠ docId d → _documentMap st' !! id = _documentMap st !! id)
    ∧ (doc (cursor st') = Some d
       ∧ ignoreCase (cursor st') = ignoreCase (cursor st)
       ∧ maxResults (cursor st') = maxResults (cursor st)
       ∧ currentPosition (cursor st') = currentPosition (cursor st)
       ∧ atOccurrence (cursor st') = atOccurrence (cursor st))
    ∧ (∃ q', query (cursor st') = Some q'
             ∧ source q' = source q ∧ ignoreCaseFlag q' = ignoreCaseFlag q)
    ∧ (_needToIndexDocument (_documentMap st) d = false →
       resultsCurrent (cursor st) = true → st' = st)
    ∧ (_needToIndexDocument (_documentMap st) d = true ∨ resultsCurrent (cursor st) = false →
       ∃ ri ps, regexIndexer (cursor st') = Some ri ∧ holds ri ps (-1)
         ∧ _getDocumentText (_documentMap st') d = Some (ri_docText ri)
         ∧ _getDocumentIndex (_documentMap st') d = Some (ri_docLineIndex ri)
         ∧ (_needToIndexDocument (_documentMap st) d = true →
            ri_docText ri = getValue d
            ∧ ri_docLineIndex ri
              = _createLineCharacterCountIndex (getValue d) (lineSeparator d))).
Proof.
  intros Hd Hq Hfuel.
  destruct (updateResults_returns fuel st d q Hd Hq Hfuel)
    as (st' & Hrun & [(Hn & Hr & ->)|(Hwhy & t & L & f & q' & ri & Ht & HL & Hscan & ->)]).
  - exists st. split; [done|]. split; [done|]. split; [done|]. split.
    { intros fuel'. by apply (_updateResultsIfNeeded_current fuel' st d). }
    split; [done|]. split; [done|]. split; [by exists q|]. split; [done|].
    intros [?|?]; congruence.
  - eexists. split; [done|]. cbn [_documentMap cursor].
    apply createRegexIndexer_fresh in Hscan as ((Hsrc & Hflag) & Htext & Hindex & ps & Hholds).
    split; [apply indexed_ok|]. split; [done|]. split.
    { intros fuel'. apply (_updateResultsIfNeeded_current fuel' _ d); [done | apply indexed_ok | done]. }
    split; [intros id Hid; by apply indexed_other|]. split; [done|].
    split; [by exists q'|]. split.
    { intros Hn Hr. destruct Hwhy; congruence. }
    intros _. exists ri, ps. rewrite Htext, Hindex. split_and!; try done.
    intros Hneed.
    destruct (indexed_entry (_documentMap st) d) as (info & _ & Ht' & HL' & Hfresh & _).
    destruct (Hfresh Hneed) as [<- <-]. split; congruence.
Qed.

(** X17. A cursor without a document throws from every method that
    refreshes the results, and from [getFullInfoForCurrentMatch]; so does a
    cursor with a document but without a query whose results are not
    current. *)
Theorem cursor_without_document_or_query_throws (fuel : nat) (st : State) (reverse : bool) :
  doc (cursor st) = None
  ∨ (query (cursor st) = None ∧ resultsCurrent (cursor st) = false) →
  _updateResultsIfNeeded fuel st = None
  ∧ scanDocumentAndStoreResultsInCursor fuel st = None
  ∧ getMatchCount fuel st = None
  ∧ getDocCharacterCount fuel st = None
  ∧ cursorCurrentMatchNumber fuel st = None
  ∧ find fuel reverse st = None
  ∧ cursorForEachMatch fuel st = None
  ∧ (doc (cursor st) = None → getFullInfoForCurrentMatch st = None).
Proof.
  intros Hwhy.
  assert (∀ f, scanDocumentAndStoreResultsInCursor f st = None) as Hscan.
  { intros f. destruct (scanDocumentAndStoreResultsInCursor f st) as [[n st']|] eqn:H; [|done].
    apply scanDocumentAndStore_inv in H as (d & q & _ & _ & _ & _ & _ & Hd & Hq & _).
    destruct Hwhy as [?|[? _]]; congruence. }
  assert (∀ f, _updateResultsIfNeeded f st = None) as Hupdate.
  { intros f. destruct (_updateResultsIfNeeded f st) as [st'|] eqn:H; [|done].
    apply updateResults_inv in H
      as (d & Hd & [(_ & Hr & _)|(_ & q & _ & _ & _ & _ & _ & Hq & _)]);
      destruct Hwhy as [?|[? ?]]; congruence. }
  split; [done|]. split; [done|]. split_and!.
  - destruct fuel as [|f]; [done|]. rewrite getMatchCount_S. by rewrite Hupdate.
  - unfold getDocCharacterCount. by rewrite Hupdate.
  - unfold cursorCurrentMatchNumber. by rewrite Hupdate.
  - unfold find. by rewrite Hupdate.
  - unfold cursorForEachMatch. by rewrite Hupdate.
  - intros Hd. unfold getFullInfoForCurrentMatch. by rewrite Hd.
Qed.

Lemma find_after_update (fuel fuel' : nat) (reverse : bool) (st st1 : State) (d : Doc) :
  _updateResultsIfNeeded fuel st = Some st1 →
  doc (cursor st1) = Some d →
  _needToIndexDocument (_documentMap st1) d = false →
  resultsCurrent (cursor st1) = true →
  find fuel reverse st = find (S fuel') reverse st1.
Proof.
  intros Hrun Hd Hn Hr. unfold find.
  by rewrite Hrun, (_updateResultsIfNeeded_current fuel' st1 d Hd Hn Hr).
Qed.

(** X18. [find], in either direction, on a cursor with a document and a
    query (and, if its results are current, an indexer that holds a table)
    returns, given fuel for the text. Afterwards the results are current and
    the indexer holds a table. The cursor's [currentPosition] is what [find]
    returned, [atOccurrence] says whether that was a range, and the
    indexer's current match is that range, or undefined after a false
    result. *)
Theorem find_returns_and_selects (fuel : nat) (reverse : bool) (st : State)
    (d : Doc) (q : RegExp) :
  doc (cursor st) = Some d → query (cursor st) = Some q →
  cursorOk (cursor st) → enoughFuel fuel st d →
  ∃ r st', find fuel reverse st = Some (r, st')
    ∧ cursorOk (cursor st')
    ∧ resultsCurrent (cursor st') = true
    ∧ _needToIndexDocument (_documentMap st') d = false
    ∧ currentPosition (cursor st') = r
    ∧ atOccurrence (cursor st') = (if r is Some _ then true else false)
    ∧ (getCurrentMatch <$> regexIndexer (cursor st')) = Some r.
Proof.
  intros Hd Hq Hok Hfuel.
  destruct (updateResults_returns fuel st d q Hd Hq Hfuel)
    as (st1 & Hrun & Hcases).
  assert (doc (cursor st1) = Some d
          ∧ _needToIndexDocument (_documentMap st1) d = false
          ∧ resultsCurrent (cursor st1) = true
          ∧ ∃ ri ps k, regexIndexer (cursor st1) = Some ri ∧ holds ri ps k)
    as (Hd1 & Hn1 & Hr1 & ri & ps & k & Hri & Hholds).
  { destruct Hcases as [(Hn & Hr & ->)|(_ & t & L & f & q' & ri & _ & _ & Hscan & ->)].
    - split_and!; [done..|]. by apply Hok.
    - apply createRegexIndexer_fresh in Hscan as (_ & _ & _ & ps & Hholds).
      split_and!; [done | apply indexed_ok | done |]. by exists ri, ps, (-1). }
  rewrite (find_after_update fuel 0 reverse st st1 d Hrun Hd1 Hn1 Hr1).
  destruct (find_settled 0 reverse st1 d ri ps k Hd1 Hn1 Hr1 Hri Hholds)
    as (r & st' & j & -> & Hj & Hrj & Hsome & _ & Hmap & Hri' & Hpos & Hat & Hd' & _ & _ & _ & Hr').
  exists r, st'. split; [done|]. split_and!.
  - intros _. exists (setCurrentMatchNumber ri j), ps, j. split; [done|].
    by apply (holds_set ri ps k).
  - done.
  - by rewrite Hmap.
  - done.
  - rewrite Hat. destruct (decide (0 ≤ j)) as [Hj0|Hj0].
    + destruct (Hsome Hj0) as [m ->]. by rewrite bool_decide_eq_true_2.
    + subst r. by rewrite bool_decide_eq_false_2.
  - rewrite Hri'. simpl. f_equal.
    rewrite (getCurrentMatch_holds _ ps j (holds_set ri ps k j Hholds Hj)).
    by rewrite getItemByMatchNumber_set.
Qed.

(** X19. With the results current and match [k] of the table selected,
    [find] steps to the neighbour: forward to match [k + 1], which it
    returns and selects, or past the last match, where it returns false and
    leaves no match selected; in reverse to match [k - 1], or before match
    0, where it returns false and leaves no match selected. *)
Theorem find_steps_from_current_match (fuel : nat) (reverse : bool) (st : State) (d : Doc)
    (ri : RegexIndexer) (ps : list (Z * Z)) (k : Z) :
  doc (cursor st) = Some d →
  _needToIndexDocument (_documentMap st) d = false →
  resultsCurrent (cursor st) = true →
  regexIndexer (cursor st) = Some ri →
  holds ri ps k → 0 ≤ k →
  ∃ r st', find (S fuel) reverse st = Some (r, st')
    ∧ (reverse = false → k + 1 < len ps →
       r = getItemByMatchNumber ri (k + 1) ∧ is_Some r
       ∧ regexIndexer (cursor st') = Some (setCurrentMatchNumber ri (k + 1)))
    ∧ (reverse = false → k + 1 = len ps →
       r = None ∧ (getCurrentMatchNumber <$> regexIndexer (cursor st')) = Some (-1))
    ∧ (reverse = true → 1 ≤ k →
       r = getItemByMatchNumber ri (k - 1) ∧ is_Some r
       ∧ regexIndexer (cursor st') = Some (setCurrentMatchNumber ri (k - 1)))
    ∧ (reverse = true → k = 0 →
       r = None ∧ (getCurrentMatchNumber <$> regexIndexer (cursor st')) = Some (-1)).
Proof.
  intros Hd Hn Hr Hri Hholds Hk.
  destruct (find_settled fuel reverse st d ri ps k Hd Hn Hr Hri Hholds)
    as (r & st' & j & Hfind & Hj & Hrj & Hsome & Hstep & _ & Hri' & _).
  specialize (Hstep Hk). exists r, st'. split; [done|].
  pose proof (λ j' Hj', getCurrentMatchNumber_holds _ ps j' (holds_set ri ps k j' Hholds Hj'))
    as Hnum.
  unfold stepTarget in Hstep. split_and!.
  - intros -> Hnext. rewrite decide_True in Hstep by done. subst j.
    rewrite decide_True in Hrj by lia. split_and!; [done | apply Hsome; lia | done].
  - intros -> Hlast. rewrite decide_False in Hstep by lia. subst j.
    rewrite decide_False in Hrj by lia. split; [done|].
    rewrite Hri'. simpl. f_equal. apply Hnum. lia.
  - intros -> Hprev. rewrite decide_True in Hstep by done. subst j.
    rewrite decide_True in Hrj by lia. split_and!; [done | apply Hsome; lia | done].
  - intros -> ->. rewrite decide_False in Hstep by lia. subst j.
    rewrite decide_False in Hrj by lia. split; [done|].
    rewrite Hri'. simpl. f_equal. apply Hnum. lia.
Qed.

(** *** Finding from a position *)

(** [find] on a settled state with no match current, by the answer of
    the binary search. *)
Lemma find_seeded (fuel : nat) (reverse : bool) (st : State) (d : Doc)
    (ri : RegexIndexer) (ps : list (Z * Z)) (start : Range) (L : list Z) (near : NearResult) :
  doc (cursor st) = Some d →
  _needToIndexDocument (_documentMap st) d = false →
  resultsCurrent (cursor st) = true →
  regexIndexer (cursor st) = Some ri →
  holds ri ps (-1) →
  _startingPositionForFind (cursor st) reverse = Some start →
  _getDocumentIndex (_documentMap st) d = Some L →
  _findResultIndexNearPos ri (_indexFromPos L (from start)) reverse _compareMatchResultToPos
    = Some near →
  (∀ j0, near = NearIndex j0 → 0 ≤ j0 < len ps) →
  ∃ r st',
    find (S fuel) reverse st = Some (r, st')
    ∧ -1 ≤ seedTarget reverse ps near < len ps
    ∧ r = (if decide (0 ≤ seedTarget reverse ps near)
           then getItemByMatchNumber ri (seedTarget reverse ps near) else None)
    ∧ (0 ≤ seedTarget reverse ps near → is_Some r)
    ∧ regexIndexer (cursor st') = Some (setCurrentMatchNumber ri (seedTarget reverse ps near)).
Proof.
  intros Hd Hn Hr Hri Hholds Hstart HL Hnear Hrange.
  unfold find. rewrite (_updateResultsIfNeeded_current fuel st d Hd Hn Hr). simpl.
  rewrite Hri. simpl.
  rewrite (getCurrentMatch_holds ri ps (-1) Hholds). rewrite decide_False by lia.
  rewrite Hstart. simpl. rewrite Hd. simpl. rewrite HL. simpl. rewrite Hnear. simpl.
  set (c1 := setCurrentPosition (cursor st) (Some start)).
  assert (regexIndexer c1 = Some ri) as Hri1 by done.
  destruct (find_step reverse c1 ri ps (-1) Hri1 Hholds)
    as (Hj & r & c' & Hstep & Hrj & Hsome & Hc').
  unfold seedTarget.
  set (T := stepTarget reverse ps (-1)) in *. clearbody T.
  assert (∃ r0 st',
    ('(foundPosition0, this0) ← (if reverse then _findPrevious c1 else _findNext c1);
     Some (foundPosition0,
           withCursor st
             match foundPosition0 with
             | Some _ => setAtOccurrence (setCurrentPosition this0 foundPosition0) true
             | None => this0
             end)) = Some (r0, st')
    ∧ -1 ≤ T < len ps
    ∧ r0 = (if decide (0 ≤ T) then getItemByMatchNumber ri T else None)
    ∧ (0 ≤ T → is_Some r0)
    ∧ regexIndexer (cursor st') = Some (setCurrentMatchNumber ri T)) as Hfallback.
  { rewrite Hstep. simpl.
    destruct (decide (0 ≤ T)) as [Hj0|Hj0].
    - destruct (Hsome Hj0) as [m Hm]. rewrite Hm in *. subst c'. simpl.
      eexists _, _. split; [done|]. simpl. done.
    - subst r c'. simpl. eexists _, _. split; [done|]. simpl. done. }
  destruct near as [j0| |]; simpl.
  - destruct (decide (j0 = 0)) as [->|Hj0].
    + rewrite bool_decide_eq_false_2 by (intros ?; done). exact Hfallback.
    + rewrite bool_decide_eq_true_2 by done.
      specialize (Hrange j0 eq_refl).
      pose proof (holds_set ri ps (-1) j0 Hholds ltac:(lia)) as Hholds'.
      rewrite (getCurrentMatch_holds _ ps j0 Hholds'). rewrite decide_True by lia.
      rewrite getItemByMatchNumber_set.
      destruct (holds_item ri ps (-1) j0 Hholds ltac:(lia)) as [m Hm]. rewrite Hm. simpl.
      eexists _, _. split; [done|]. simpl. rewrite decide_True by lia.
      split_and!; try done; lia.
  - exact Hfallback.
  - exact Hfallback.
Qed.

(** On a non-empty ascending table the binary search ends on a start
    equal to the offset, or at the boundary [b] between the starts below the
    offset and the starts above it. *)
Lemma findResultIndexNearPos_boundary (ri : RegexIndexer) (ps : list (Z * Z)) (cur : Z)
    (offset : Z) (reverse : bool) :
  holds ri ps cur → ps ≠ [] → ascending (ps.*1) →
  (∃ k, aget (ps.*1) k = Some offset
        ∧ _findResultIndexNearPos ri (Some offset) reverse _compareMatchResultToPos
          = Some (NearIndex k))
  ∨ (∃ b, 0 ≤ b ≤ len ps
          ∧ (∀ k v, aget (ps.*1) k = Some v → k < b → v < offset)
          ∧ (∀ k v, aget (ps.*1) k = Some v → b ≤ k → offset < v)
          ∧ _findResultIndexNearPos ri (Some offset) reverse _compareMatchResultToPos
            = Some (if reverse
                    then (if decide (1 ≤ b) then NearIndex (b - 1) else NearFalse)
                    else (if decide (b < len ps) then NearIndex b else NearFalse))).
Proof.
  intros (Harr & Hsz & _ & _) Hne Hasc.
  assert (0 < len ps) as Hpos by (destruct ps; [done | simpl; lia]).
  pose proof (getItemCount_flat ri ps Harr Hsz) as Hcount.
  destruct (bisect_spec ri ps Harr Hsz Hasc offset (Z.to_nat (len ps)) 0 (len ps - 1) None None)
    as [(k & Hhit & Hk)|(b & si & cp & Hmiss & Hb & Hbelow & Habove & Hlast)];
    [lia | lia | lia | lia | | | lia | |].
  - intros k v Hk ?. apply aget_range in Hk. lia.
  - intros k v Hk ?. apply aget_range in Hk. rewrite length_fmap in Hk. lia.
  - left. exists k. split; [done|].
    unfold _findResultIndexNearPos. cbv zeta. rewrite Hcount, Hhit. done.
  - right. exists b. split; [done|]. split; [done|]. split; [done|].
    rewrite (findResultIndexNearPos_miss ri (Some offset) reverse _ si cp)
      by (by rewrite Hcount).
    rewrite Hcount. f_equal. cbv zeta.
    set (K := if decide (cp = -1 ∧ reverse = false) then _ else _).
    assert (K = if reverse then b - 1 else b) as ->.
    { subst K. destruct Hlast as [[-> ->]|[-> ->]]; destruct reverse;
        repeat (first [ rewrite decide_True by (split; done)
                      | rewrite decide_False by (intros [? ?]; done) ]);
        lia. }
    destruct reverse.
    + destruct (decide (1 ≤ b)); [by rewrite decide_False by lia | by rewrite decide_True by lia].
    + destruct (decide (b < len ps)); [by rewrite decide_False by lia | by rewrite decide_True by lia].
Qed.

(** X20. With the results current, no match selected and a table whose
    starts ascend, [find] forward from the starting position (the cursor's
    position, or the start of the document) returns and selects the first
    match that starts at or after the position's offset; when every match
    starts before it, [find] wraps around to the first match of the table;
    on an empty table it returns false. *)
Theorem find_forward_from_position (fuel : nat) (st : State) (d : Doc) (ri : RegexIndexer)
    (ps : list (Z * Z)) (L : list Z) (start : Range) (o : Z) :
  doc (cursor st) = Some d →
  _needToIndexDocument (_documentMap st) d = false →
  resultsCurrent (cursor st) = true →
  regexIndexer (cursor st) = Some ri →
  holds ri ps (-1) → ascending (ps.*1) →
  _getDocumentIndex (_documentMap st) d = Some L →
  _startingPositionForFind (cursor st) false = Some start →
  _indexFromPos L (from start) = Some o →
  ∃ r st', find (S fuel) false st = Some (r, st')
    ∧ (ps = [] → r = None)
    ∧ (∀ (k : nat) a e, ps !! k = Some (a, e) → o ≤ a →
         (∀ (j : nat) a' e', (j < k)%nat → ps !! j = Some (a', e') → a' < o) →
         r = getItemByMatchNumber ri (Z.of_nat k) ∧ is_Some r
         ∧ regexIndexer (cursor st') = Some (setCurrentMatchNumber ri (Z.of_nat k)))
    ∧ (ps ≠ [] → (∀ a e, (a, e) ∈ ps → a < o) →
         r = getItemByMatchNumber ri 0 ∧ is_Some r
         ∧ regexIndexer (cursor st') = Some (setCurrentMatchNumber ri 0)).
Proof.
  intros Hd Hn Hr Hri Hholds Hasc HL Hstart Ho.
  destruct (findResultIndexNearPos_result ri ps (-1) (Some o) false _compareMatchResultToPos
              Hholds) as (near & Hnear & Hrange & Hundef).
  destruct (find_seeded fuel false st d ri ps start L near Hd Hn Hr Hri Hholds Hstart HL)
    as (r & st' & Hfind & Hj & Hrj & Hsome & Hri'); [by rewrite Ho | done |].
  exists r, st'. split; [done|].
  assert (ps ≠ [] → stepTarget false ps (-1) = 0) as Hfirst.
  { intros Hne. unfold stepTarget. rewrite decide_True; [done|].
    destruct ps; [done | simpl; lia]. }
  split_and!.
  - intros ->. assert (near = NearUndefined) as -> by by apply Hundef.
    simpl in Hrj. done.
  - intros k a e Hk Hoa Hbefore.
    assert (ps ≠ []) as Hne by (intros ->; done).
    pose proof (lookup_lt_Some _ _ _ Hk) as Hlt.
    apply lookup_pairs in Hk as Hk'. destruct Hk' as [Ha _].
    assert (seedTarget false ps near = Z.of_nat k) as Hseed.
    { destruct (findResultIndexNearPos_boundary ri ps (-1) o false Hholds Hne Hasc)
        as [(k0 & Hk0 & Hnear')|(b & Hb & Hbelow & Habove & Hnear')];
        rewrite Hnear in Hnear'; injection Hnear' as ->.
      - assert (k0 = Z.of_nat k) as ->.
        { pose proof (aget_range _ _ _ Hk0) as Hr0. rewrite length_fmap in Hr0.
          destruct (Z.lt_trichotomy k0 (Z.of_nat k)) as [Hlt0|[?|Hgt0]]; [|done|].
          - destruct (lookup_lt_is_Some_2 ps (Z.to_nat k0) ltac:(lia)) as [[a' e'] Hj'].
            pose proof (Hbefore (Z.to_nat k0) a' e' ltac:(lia) Hj') as Hlow.
            apply lookup_pairs in Hj' as [Hj' _]. rewrite Z2Nat.id in Hj' by lia.
            rewrite Hk0 in Hj'. injection Hj' as <-. lia.
          - pose proof (starts_lt ps Hasc _ _ _ _ Ha Hk0 Hgt0). lia. }
        simpl. destruct (decide (Z.of_nat k = 0)) as [->|]; [by apply Hfirst | done].
      - assert (b = Z.of_nat k) as ->.
        { destruct (Z.lt_trichotomy b (Z.of_nat k)) as [Hlt0|[?|Hgt0]]; [|done|].
          - destruct (lookup_lt_is_Some_2 ps (Z.to_nat b) ltac:(lia)) as [[a' e'] Hj'].
            pose proof (Hbefore (Z.to_nat b) a' e' ltac:(lia) Hj') as Hlow.
            apply lookup_pairs in Hj' as [Hj' _]. rewrite Z2Nat.id in Hj' by lia.
            pose proof (Habove _ _ Hj' ltac:(lia)). lia.
          - pose proof (Hbelow _ _ Ha Hgt0). lia. }
        rewrite decide_True by lia. simpl.
        destruct (decide (Z.of_nat k = 0)) as [->|]; [by apply Hfirst | done]. }
    rewrite Hseed in *. rewrite decide_True in Hrj by lia.
    split_and!; [done | apply Hsome; lia | done].
  - intros Hne Hall.
    assert (seedTarget false ps near = 0) as Hseed.
    { destruct (findResultIndexNearPos_boundary ri ps (-1) o false Hholds Hne Hasc)
        as [(k0 & Hk0 & Hnear')|(b & Hb & Hbelow & Habove & Hnear')];
        rewrite Hnear in Hnear'; injection Hnear' as ->.
      - exfalso. apply aget_Some in Hk0 as [_ Hk0]. rewrite list_lookup_fmap in Hk0.
        destruct (ps !! Z.to_nat k0) as [[a e]|] eqn:Hlook; [|done].
        simpl in Hk0. injection Hk0 as ->.
        pose proof (Hall o e ltac:(by eapply list_elem_of_lookup_2)). lia.
      - destruct (decide (b < len ps)) as [Hblt|_]; [|by apply Hfirst].
        exfalso.
        destruct (lookup_lt_is_Some_2 ps (Z.to_nat b) ltac:(lia)) as [[a e] Hlook].
        pose proof (Hall a e ltac:(by eapply list_elem_of_lookup_2)).
        apply lookup_pairs in Hlook as [Hlook _]. rewrite Z2Nat.id in Hlook by lia.
        pose proof (Habove _ _ Hlook ltac:(lia)). lia. }
    rewrite Hseed in *. rewrite decide_True in Hrj by lia.
    split_and!; [done | apply Hsome; lia | done].
Qed.

(** X21. In reverse from the starting position (the cursor's position, or
    the line after the last one), with the results current, no match
    selected and a table whose starts ascend, [find] returns and selects the
    last match that starts at or before the position's offset, unless that
    is match 0: match 0 is never found this way, [find] returns false and
    selects nothing. It also returns false when every match starts after the
    offset: in reverse [find] does not wrap around. *)
Theorem find_reverse_from_position (fuel : nat) (st : State) (d : Doc) (ri : RegexIndexer)
    (ps : list (Z * Z)) (L : list Z) (start : Range) (o : Z) :
  doc (cursor st) = Some d →
  _needToIndexDocument (_documentMap st) d = false →
  resultsCurrent (cursor st) = true →
  regexIndexer (cursor st) = Some ri →
  holds ri ps (-1) → ascending (ps.*1) →
  _getDocumentIndex (_documentMap st) d = Some L →
  _startingPositionForFind (cursor st) true = Some start →
  _indexFromPos L (from start) = Some o →
  ∃ r st', find (S fuel) true st = Some (r, st')
    ∧ (∀ (k : nat) a e, ps !! k = Some (a, e) → a ≤ o →
         (∀ (j : nat) a' e', (k < j)%nat → ps !! j = Some (a', e') → o < a') →
         ((0 < k)%nat →
          r = getItemByMatchNumber ri (Z.of_nat k) ∧ is_Some r
          ∧ regexIndexer (cursor st') = Some (setCurrentMatchNumber ri (Z.of_nat k)))
         ∧ (k = 0%nat →
            r = None
            ∧ (getCurrentMatchNumber <$> regexIndexer (cursor st')) = Some (-1)))
    ∧ ((∀ a e, (a, e) ∈ ps → o < a) →
       r = None ∧ (getCurrentMatchNumber <$> regexIndexer (cursor st')) = Some (-1)).
Proof.
  intros Hd Hn Hr Hri Hholds Hasc HL Hstart Ho.
  destruct (findResultIndexNearPos_result ri ps (-1) (Some o) true _compareMatchResultToPos
              Hholds) as (near & Hnear & Hrange & Hundef).
  destruct (find_seeded fuel true st d ri ps start L near Hd Hn Hr Hri Hholds Hstart HL)
    as (r & st' & Hfind & Hj & Hrj & Hsome & Hri'); [by rewrite Ho | done |].
  exists r, st'. split; [done|].
  assert (stepTarget true ps (-1) = -1) as Hnone by done.
  assert (seedTarget true ps near = -1 →
          r = None ∧ (getCurrentMatchNumber <$> regexIndexer (cursor st')) = Some (-1))
    as Hlost.
  { intros Hseed. rewrite Hseed in *. rewrite decide_False in Hrj by lia. split; [done|].
    rewrite Hri'. simpl. f_equal.
    apply (getCurrentMatchNumber_holds _ ps (-1)). apply (holds_set ri ps (-1)); [done | lia]. }
  split.
  - intros k a e Hk Hao Hafter.
    assert (ps ≠ []) as Hne by (intros ->; done).
    pose proof (lookup_lt_Some _ _ _ Hk) as Hlt.
    apply lookup_pairs in Hk as Hk'. destruct Hk' as [Ha _].
    assert (near = NearIndex (Z.of_nat k)) as ->.
    { destruct (findResultIndexNearPos_boundary ri ps (-1) o true Hholds Hne Hasc)
        as [(k0 & Hk0 & Hnear')|(b & Hb & Hbelow & Habove & Hnear')];
        rewrite Hnear in Hnear'; injection Hnear' as ->.
      - f_equal.
        pose proof (aget_range _ _ _ Hk0) as Hr0. rewrite length_fmap in Hr0.
        destruct (Z.lt_trichotomy k0 (Z.of_nat k)) as [Hlt0|[?|Hgt0]]; [|done|].
        + pose proof (starts_lt ps Hasc _ _ _ _ Hk0 Ha Hlt0). lia.
        + destruct (lookup_lt_is_Some_2 ps (Z.to_nat k0) ltac:(lia)) as [[a' e'] Hj'].
          pose proof (Hafter (Z.to_nat k0) a' e' ltac:(lia) Hj') as Hhigh.
          apply lookup_pairs in Hj' as [Hj' _]. rewrite Z2Nat.id in Hj' by lia.
          rewrite Hk0 in Hj'. injection Hj' as <-. lia.
      - assert (b = Z.of_nat k + 1) as ->.
        { destruct (Z.lt_trichotomy b (Z.of_nat k + 1)) as [Hlt0|[?|Hgt0]]; [|done|].
          - pose proof (Habove _ _ Ha ltac:(lia)). lia.
          - destruct (lookup_lt_is_Some_2 ps (S k) ltac:(lia)) as [[a' e'] Hj'].
            pose proof (Hafter (S k) a' e' ltac:(lia) Hj') as Hhigh.
            apply lookup_pairs in Hj' as [Hj' _].
            pose proof (Hbelow _ _ Hj' ltac:(lia)). lia. }
        rewrite decide_True by lia. f_equal. lia. }
    split.
    + intros Hk0. assert (seedTarget true ps (NearIndex (Z.of_nat k)) = Z.of_nat k) as Hseed.
      { simpl. by rewrite decide_False by lia. }
      rewrite Hseed in *. rewrite decide_True in Hrj by lia.
      split_and!; [done | apply Hsome; lia | done].
    + intros ->. by apply Hlost.
  - intros Hall. apply Hlost.
    destruct (decide (ps = [])) as [->|Hne].
    + assert (near = NearUndefined) as -> by by apply Hundef. done.
    + destruct (findResultIndexNearPos_boundary ri ps (-1) o true Hholds Hne Hasc)
        as [(k0 & Hk0 & Hnear')|(b & Hb & Hbelow & Habove & Hnear')];
        rewrite Hnear in Hnear'; injection Hnear' as ->.
      * exfalso. apply aget_Some in Hk0 as [_ Hk0]. rewrite list_lookup_fmap in Hk0.
        destruct (ps !! Z.to_nat k0) as [[a e]|] eqn:Hlook; [|done].
        simpl in Hk0. injection Hk0 as ->.
        pose proof (Hall o e ltac:(by eapply list_elem_of_lookup_2)). lia.
      * destruct (decide (1 ≤ b)) as [Hb1|_]; [|done].
        exfalso.
        destruct (lookup_lt_is_Some_2 ps (Z.to_nat (b - 1)) ltac:(lia)) as [[a e] Hlook].
        pose proof (Hall a e ltac:(by eapply list_elem_of_lookup_2)).
        apply lookup_pairs in Hlook as [Hlook _]. rewrite Z2Nat.id in Hlook by lia.
        pose proof (Hbelow _ _ Hlook ltac:(lia)). lia.
Qed.

End CursorFacts.

(** ** Scanning again, and the character count *)

Section CursorMore.
Context `{host : Host}.

Local Abbreviation scanned c q' ri :=
  (setResultsCurrent (setRegexIndexer (setQueryField c (Some q')) (Some ri)) true).

Lemma setLastIndex_same (q q' : RegExp) (i : Z) :
  sameRegExp q q' → setLastIndex q' i = setLastIndex q i.
Proof. intros [Hs Hf]. unfold setLastIndex. by rewrite Hs, Hf. Qed.

(** A scan does not depend on the [lastIndex] the expression arrives
    with. *)
Lemma createRegexIndexer_same_source (fuel : nat) (docText : text) (L : list Z)
    (q q' : RegExp) (maxResults : option Z) (startPosition : option Range) :
  sameRegExp q q' →
  _createRegexIndexer fuel docText L q' maxResults startPosition
  = _createRegexIndexer fuel docText L q maxResults startPosition.
Proof.
  intros Hq. unfold _createRegexIndexer, _createSearchResults. cbv zeta.
  by rewrite (setLastIndex_same q q' _ Hq).
Qed.

(** X22. A scan by [scanDocumentAndStoreResultsInCursor] that has returned
    can be repeated: the second scan returns the same count and leaves the
    state as the first one left it; and [getMatchCount] then returns that
    count without changing the state. *)
Theorem rescan_is_idempotent (fuel : nat) (st : State) (n : Z) (st1 : State) :
  scanDocumentAndStoreResultsInCursor fuel st = Some (n, st1) →
  scanDocumentAndStoreResultsInCursor fuel st1 = Some (n, st1)
  ∧ getMatchCount fuel st1 = Some (n, st1).
Proof.
  intros Hscan.
  apply scanDocumentAndStore_inv in Hscan
    as (d & q & t & L & f & q' & ri & Hd & Hq & Ht & HL & Hrun & -> & -> & ->).
  pose proof (indexed_ok (_documentMap st) d) as Hok.
  pose proof (createRegexIndexer_fresh _ _ _ _ _ _ _ _ Hrun) as (Hsame & _).
  split.
  - rewrite scanDocumentAndStoreResultsInCursor_S. cbn [cursor _documentMap doc].
    cbn [doc setResultsCurrent setRegexIndexer setQueryField].
    rewrite Hd. cbn [mbind option_bind]. rewrite Hok. cbn [_documentMap cursor].
    rewrite Ht. cbn [mbind option_bind]. rewrite HL. cbn [mbind option_bind].
    cbn [query maxResults currentPosition setResultsCurrent setRegexIndexer setQueryField
         mbind option_bind].
    rewrite (createRegexIndexer_same_source _ _ _ q q') by done. rewrite Hrun.
    cbn [mbind option_bind].
    apply (getMatchCount_settled f _ d ri); [by rewrite <- Hd | exact Hok | done | done].
  - apply (getMatchCount_settled (S f) _ d ri); [by rewrite <- Hd | exact Hok | done | done].
Qed.

(** X23. [getDocCharacterCount] of a cursor whose document has to be
    indexed (a new or changed document) returns the length of the text plus
    the length of one line separator; for an empty text with an empty
    separator it returns undefined. *)
Theorem getDocCharacterCount_counts_a_separator (fuel : nat) (st : State) (d : Doc)
    (q : RegExp) :
  doc (cursor st) = Some d → query (cursor st) = Some q → enoughFuel fuel st d →
  _needToIndexDocument (_documentMap st) d = true →
  len (getValue d) + len (lineSeparator d) < 2 ^ 32 →
  (getValue d ≠ [] ∨ lineSeparator d ≠ [] →
   fst <$> getDocCharacterCount fuel st
   = Some (Some (len (getValue d) + len (lineSeparator d))))
  ∧ (getValue d = [] → lineSeparator d = [] →
     fst <$> getDocCharacterCount fuel st = Some None).
Proof.
  intros Hd Hq Hfuel Hneed Hsize.
  destruct (updateResults_returns fuel st d q Hd Hq Hfuel)
    as (st' & Hrun & [(Hn & _)|(_ & t & L & f & q' & ri & _ & HL & _ & ->)]); [congruence|].
  unfold getDocCharacterCount. rewrite Hrun. cbn [mbind option_bind cursor _documentMap].
  assert (doc (scanned (cursor st) q' ri) = Some d) as -> by done.
  cbn [mbind option_bind]. rewrite HL. cbn [mbind option_bind fmap option_fmap option_map fst].
  destruct (indexed_entry (_documentMap st) d) as (info & _ & _ & HL' & Hfresh & _).
  destruct (Hfresh Hneed) as [_ Hindex].
  assert (L = _createLineCharacterCountIndex (getValue d) (lineSeparator d)) as ->
    by congruence.
  pose proof (length_lineIndex (getValue d) (lineSeparator d)) as Hlen.
  split.
  - intros Hne. do 2 f_equal.
    assert (split (getValue d) (lineSeparator d) ≠ []) as Hlines by by apply split_not_nil.
    assert (0 < length (split (getValue d) (lineSeparator d)))%nat as Hpos
      by (destruct (split (getValue d) (lineSeparator d)); [done | simpl; lia]).
    replace (len (_createLineCharacterCountIndex (getValue d) (lineSeparator d)) - 1)
      with (Z.of_nat (length (split (getValue d) (lineSeparator d)) - 1)) by lia.
    rewrite (lineIndex_aget _ _ Hsize) by lia.
    replace (S (length (split (getValue d) (lineSeparator d)) - 1))
      with (length (split (getValue d) (lineSeparator d))) by lia.
    by rewrite lineStart_last.
  - intros Ht Hs. rewrite Ht, Hs. done.
Qed.

End CursorMore.

(** ** The scan without a cursor *)

Section ScanAgreement.
Context `{host : Host}.

Lemma positionsFrom_cons (L : list Z) (lastLine : option Z) (a e : Z) (rest : list (Z * Z)) :
  positionsFrom L lastLine ((a, e) :: rest)
  = (_createPosFromIndex L lastLine a,
     _createPosFromIndex L (line (_createPosFromIndex L lastLine a)) e)
    :: positionsFrom L
         (line (_createPosFromIndex L (line (_createPosFromIndex L lastLine a)) e)) rest.
Proof. done. Qed.

Lemma forEachMatchLoop_S (rounds : nat) (ri : RegexIndexer) (index : Z) (lastLine : option Z) :
  forEachMatchLoop (S rounds) ri index lastLine
  = (indexStart ← aget (ga_array (ri_startEndIndexArray ri))
                     (getGroupIndex (ri_startEndIndexArray ri) index);
     indexEnd ← aget (ga_array (ri_startEndIndexArray ri))
                   (getGroupIndex (ri_startEndIndexArray ri) index + 1);
     cons (_createPosFromIndex (ri_docLineIndex ri) lastLine indexStart,
           _createPosFromIndex (ri_docLineIndex ri)
             (line (_createPosFromIndex (ri_docLineIndex ri) lastLine indexStart)) indexEnd)
       <$> forEachMatchLoop rounds ri (index + 1)
             (line (_createPosFromIndex (ri_docLineIndex ri)
                      (line (_createPosFromIndex (ri_docLineIndex ri) lastLine indexStart))
                      indexEnd))).
Proof. done. Qed.

(** The calls of [forEachMatch] on a table. *)
Lemma forEachMatchLoop_positionsFrom (ri : RegexIndexer) (ps : list (Z * Z)) :
  ga_array (ri_startEndIndexArray ri) = flat ps →
  ga_groupSize (ri_startEndIndexArray ri) = 2 →
  ∀ (rounds i : nat) (lastLine : option Z),
    (rounds + i = length ps)%nat →
    forEachMatchLoop rounds ri (Z.of_nat i) lastLine
    = Some (positionsFrom (ri_docLineIndex ri) lastLine (drop i ps)).
Proof.
  intros Harr Hsz.
  induction rounds as [|rounds IH]; intros i lastLine Hlen.
  - simpl. by rewrite drop_ge by lia.
  - destruct (lookup_lt_is_Some_2 ps i ltac:(lia)) as [[a e] Hi].
    rewrite forEachMatchLoop_S. unfold getGroupIndex. rewrite Hsz, Harr.
    assert (aget (flat ps) (2 * Z.of_nat i) = Some a) as ->.
    { replace (2 * Z.of_nat i) with (Z.of_nat (2 * i)) by lia.
      by rewrite aget_of_nat, flat_lookup_start, list_lookup_fmap, Hi. }
    assert (aget (flat ps) (2 * Z.of_nat i + 1) = Some e) as ->.
    { replace (2 * Z.of_nat i + 1) with (Z.of_nat (2 * i + 1)) by lia.
      by rewrite aget_of_nat, flat_lookup_end, list_lookup_fmap, Hi. }
    cbn [mbind option_bind].
    replace (Z.of_nat i + 1) with (Z.of_nat (S i)) by lia.
    rewrite IH by lia.
    by rewrite (drop_S ps (a, e) i Hi), positionsFrom_cons.
Qed.

Lemma forEachMatch_positionsFrom (ri : RegexIndexer) (ps : list (Z * Z)) :
  ga_array (ri_startEndIndexArray ri) = flat ps →
  ga_groupSize (ri_startEndIndexArray ri) = 2 →
  forEachMatch ri = Some (positionsFrom (ri_docLineIndex ri) (Some 0) ps).
Proof.
  intros Harr Hsz. unfold forEachMatch. rewrite (itemCount_flat _ ps Harr Hsz), Nat2Z.id.
  apply (forEachMatchLoop_positionsFrom ri ps Harr Hsz (length ps) 0%nat (Some 0)). lia.
Qed.

Lemma scanDocumentLoop_S (fuel : nat) (documentIndex : list Z) (documentText : text)
    (regex : RegExp) (endRangeIndex lastMatchedLine : option Z) :
  scanDocumentLoop (S fuel) documentIndex documentText regex endRangeIndex lastMatchedLine
  = match exec regex documentText with
    | (None, _) => Some []
    | (Some index, regex) =>
        let startPosition := _createPosFromIndex documentIndex lastMatchedLine index in
        let endPosition :=
          _createPosFromIndex documentIndex (line startPosition) (lastIndex regex) in
        let lastMatchedLine := line endPosition in
        if match endRangeIndex with
           | Some e => bool_decide (lastIndex regex ≤ e)
           | None => false
           end
        then
          let regex := if decide (index = lastIndex regex)
                       then setLastIndex regex (lastIndex regex + 1) else regex in
          cons (startPosition, endPosition)
            <$> scanDocumentLoop fuel documentIndex documentText regex endRangeIndex
                  lastMatchedLine
        else Some []
    end.
Proof. done. Qed.

(** The calls of the loop of [_scanDocumentUsingRegularExpression] when
    no match ends after the end of the range: the matches of the scan
    without a limit. *)
Lemma scanDocumentLoop_positionsFrom (docText : text) (query : RegExp) (L : list Z) (E : Z) :
  (∀ p k, 0 ≤ p ≤ len docText →
     regExpMatch (source query) (ignoreCaseFlag query) docText p = Some k →
     p + Z.of_nat k ≤ len docText) →
  len docText ≤ E →
  ∀ (fuel : nat) (regex : RegExp) (lastMatchedLine : option Z) (F : list (Z * Z)),
    sameRegExp query regex →
    Z.max 0 (len docText + 1 - Z.max 0 (lastIndex regex)) < Z.of_nat fuel →
    ScanU docText query (len docText) (lastIndex regex) F →
    scanDocumentLoop fuel L docText regex (Some E) lastMatchedLine
    = Some (positionsFrom L lastMatchedLine F).
Proof.
  intros Hsane HE.
  induction fuel as [|fuel IH]; intros regex lastMatchedLine F Hq Hfuel HF; [lia|].
  rewrite scanDocumentLoop_S, (exec_execAt docText query regex Hq).
  destruct (execAt docText query (lastIndex regex)) as [[a e]|] eqn:Hexec.
  - destruct (ScanU_tail _ _ _ _ _ _ HF Hexec) as (F' & -> & HF').
    pose proof (execAt_Some _ _ _ _ _ Hexec) as [Ha Hae].
    assert (e ≤ len docText) as He.
    { unfold execAt in Hexec. apply execLoop_Some in Hexec as (_ & (k & Hk & ->) & _).
      apply Hsane; [lia | done]. }
    cbv zeta. cbn [lastIndex setLastIndex].
    rewrite bool_decide_eq_true_2 by lia.
    set (regex1 := if decide (a = e) then _ else _).
    assert (lastIndex regex1 = bump a e ∧ sameRegExp query regex1) as [Hlast Hq1].
    { subst regex1. unfold bump. by destruct (decide (a = e)). }
    pose proof (bump_gt a e ltac:(lia)).
    rewrite (IH regex1 _ F' Hq1); [by rewrite positionsFrom_cons | lia | by rewrite Hlast].
  - assert (F = []) as -> by (inversion HF; by simplify_eq). done.
Qed.

Lemma createSearchCursor_new (d : Doc) (searchQuery : SearchQuery) (ic : bool) :
  truthyQuery (Some searchQuery) = true →
  createSearchCursor {| p_document := Some d; p_searchQuery := Some searchQuery;
                        p_position := None; p_ignoreCase := Some ic; p_maxResults := None |}
  = {| doc := Some d; query := Some (_convertToRegularExpression searchQuery ic);
       ignoreCase := ic; maxResults := None; currentPosition := None; atOccurrence := false;
       resultsCurrent := false; regexIndexer := None |}.
Proof.
  intros Hq. unfold createSearchCursor, setSearchDocumentAndQuery. cbv zeta.
  cbn [p_document p_searchQuery p_position p_ignoreCase p_maxResults default truthyNumber].
  rewrite Hq. by destruct ic.
Qed.

Lemma indexDocument_entry (m : gmap nat DocInfo) (d : Doc) :
  _getDocumentText (_indexDocument m d) d = Some (getValue d)
  ∧ _getDocumentIndex (_indexDocument m d) d
    = Some (_createLineCharacterCountIndex (getValue d) (lineSeparator d)).
Proof.
  unfold _getDocumentText, _getDocumentIndex, _indexDocument. cbv zeta.
  by rewrite lookup_insert_eq.
Qed.

(** The last element of a document's line index. *)
Lemma lineIndex_last (docText sep : text) :
  len docText + len sep < 2 ^ 32 → docText ≠ [] ∨ sep ≠ [] →
  aget (_createLineCharacterCountIndex docText sep)
    (len (_createLineCharacterCountIndex docText sep) - 1)
  = Some (len docText + len sep).
Proof.
  intros Hsize Hne.
  pose proof (length_lineIndex docText sep) as Hlen.
  assert (split docText sep ≠ []) as Hlines by by apply split_not_nil.
  assert (0 < length (split docText sep))%nat as Hpos
    by (destruct (split docText sep); [done | simpl; lia]).
  replace (len (_createLineCharacterCountIndex docText sep) - 1)
    with (Z.of_nat (length (split docText sep) - 1)) by lia.
  rewrite (lineIndex_aget _ _ Hsize) by lia.
  replace (S (length (split docText sep) - 1)) with (length (split docText sep)) by lia.
  by rewrite lineStart_last.
Qed.

(** X24. For a document that has to be indexed, a non-empty query and no
    range, [scanDocumentForMatches] calls back with the same positions, in
    the same order, as [forEachMatch] of a cursor newly created for the
    same document, query and [ignoreCase], and both leave the same document
    map. This holds given that no match of the pattern ends after the end of
    the text, that the text is shorter than the cursor's limit of matches,
    that text and separator are not both empty, and given fuel for the
    text. *)
Theorem scanDocumentForMatches_agrees_with_cursor (fuel : nat) (m : gmap nat DocInfo)
    (d : Doc) (searchQuery : SearchQuery) (ic : bool) :
  _needToIndexDocument m d = true →
  truthyQuery (Some searchQuery) = true →
  len (getValue d) + len (lineSeparator d) < 2 ^ 32 →
  getValue d ≠ [] ∨ lineSeparator d ≠ [] →
  len (getValue d) + 1 < 10000000 →
  (∀ p k, 0 ≤ p ≤ len (getValue d) →
     regExpMatch (source (_convertToRegularExpression searchQuery ic)) ic (getValue d) p
       = Some k →
     p + Z.of_nat k ≤ len (getValue d)) →
  (length (getValue d) + 4 ≤ fuel)%nat →
  ∃ calls m' st',
    scanDocumentForMatches fuel m d searchQuery ic None = Some (calls, m')
    ∧ cursorForEachMatch fuel
        {| _documentMap := m;
           cursor := createSearchCursor
                       {| p_document := Some d; p_searchQuery := Some searchQuery;
                          p_position := None; p_ignoreCase := Some ic;
                          p_maxResults := None |} |}
      = Some (calls, st')
    ∧ _documentMap st' = m'.
Proof.
  intros Hneed Hquery Hsize Hne Hlimit Hsane Hfuel.
  rewrite (createSearchCursor_new d searchQuery ic Hquery).
  set (regex := _convertToRegularExpression searchQuery ic) in *.
  assert (ignoreCaseFlag regex = ic) as Hflag by (subst regex; by destruct searchQuery).
  set (st := {| _documentMap := m; cursor := _ |}).
  assert (enoughFuel fuel st d) as Henough.
  { split; [lia|]. intros info Hinfo Hgen. exfalso.
    unfold _needToIndexDocument in Hneed. subst st. cbn [_documentMap] in Hinfo.
    rewrite Hinfo in Hneed. by rewrite decide_True in Hneed. }
  destruct (updateResults_returns fuel st d regex eq_refl eq_refl Henough)
    as (st' & Hrun & [(Hn & _)|(_ & t & L & f & q' & ri & Ht & HL & Hscan & ->)]).
  { subst st. cbn [_documentMap] in Hn. congruence. }
  subst st. cbn [_documentMap cursor maxResults currentPosition] in *.
  rewrite Hneed in Ht, HL.
  destruct (indexDocument_entry m d) as [Ht' HL'].
  assert (t = getValue d) as -> by congruence.
  assert (L = _createLineCharacterCountIndex (getValue d) (lineSeparator d)) as -> by congruence.
  set (L := _createLineCharacterCountIndex (getValue d) (lineSeparator d)) in *.
  (* the table of the cursor's scan *)
  apply createRegexIndexer_inv in Hscan as (g & Hscan & ->).
  apply createSearchResults_spec in Hscan as (P & HP & Hsz & _ & Harr).
  cbv zeta in HP, Harr. simpl in HP, Harr.
  apply Scan_unbounded in HP; [|lia].
  exists (positionsFrom L (Some 0) P), (_indexDocument m d). eexists. split_and!.
  - unfold scanDocumentForMatches. rewrite Hneed. cbv zeta. rewrite HL', Ht'.
    cbn [mbind option_bind].
    unfold _scanDocumentUsingRegularExpression. cbv zeta.
    subst L. rewrite (lineIndex_last _ _ Hsize Hne). cbn [default].
    rewrite (scanDocumentLoop_positionsFrom (getValue d) regex _
               (len (getValue d) + len (lineSeparator d)) ltac:(by rewrite Hflag)
               ltac:(lia) fuel (setLastIndex regex 0) (Some 0) P);
      [done | done | simpl; lia | done].
  - unfold cursorForEachMatch. rewrite Hrun. cbn [mbind option_bind cursor regexIndexer
      setResultsCurrent setRegexIndexer setQueryField].
    rewrite (forEachMatch_positionsFrom _ P) by done.
    cbn [mbind option_bind ri_docLineIndex]. rewrite Hneed. done.
  - done.
Qed.

End ScanAgreement.

(** ** The match under the cursor, and matches within a range *)

Section CurrentMatchInfo.
Context `{host : Host}.

(** [getFullResultInfo] for the current match [j] of a table whose pair
    [j] is the match [exec] finds from its start. *)
Lemma getFullResultInfo_current (docText : text) (query : RegExp) (ri : RegexIndexer)
    (ps : list (Z * Z)) (j a e : Z) (q2 : RegExp) :
  holds ri ps j → 0 ≤ j →
  ps !! Z.to_nat j = Some (a, e) →
  execAt docText query a = Some (a, e) →
  sameRegExp query q2 →
  ∃ m, getItemByMatchNumber ri j = Some m
       ∧ getFullResultInfo ri j q2 docText = (Some (m, Some a), setLastIndex q2 e).
Proof.
  intros Hholds Hj Hlook Hexec Hq. pose proof Hholds as (Harr & Hsz & Hcur & Hr).
  destruct (holds_item ri ps j j Hholds ltac:(lia)) as [m Hm]. exists m. split; [done|].
  unfold getFullResultInfo. cbv zeta. unfold getGroupIndex. rewrite Hsz, Harr.
  assert (aget (flat ps) (2 * j) = Some a) as ->.
  { apply aget_Some. split; [lia|].
    replace (Z.to_nat (2 * j)) with (2 * Z.to_nat j)%nat by lia.
    by rewrite flat_lookup_start, list_lookup_fmap, Hlook. }
  simpl. rewrite (exec_execAt docText query) by done. simpl. rewrite Hexec.
  rewrite (getCurrentMatch_holds ri ps j Hholds). rewrite decide_True by done.
  rewrite Hm. done.
Qed.

(** X25. On a cursor with a document and a query whose results are not
    current, [find] scans and returns; if it returns a range, then
    [getFullInfoForCurrentMatch] right after it returns that same range,
    with a match of the expression that begins at the start offset of the
    current match and leaves its end offset in the query's [lastIndex];
    nothing else of the state changes. If [find] returns false,
    [getFullInfoForCurrentMatch] throws. *)
Theorem getFullInfoForCurrentMatch_after_find (fuel : nat) (reverse : bool) (st : State)
    (d : Doc) (q : RegExp) :
  doc (cursor st) = Some d → query (cursor st) = Some q →
  resultsCurrent (cursor st) = false → enoughFuel fuel st d →
  ∃ r st', find fuel reverse st = Some (r, st')
    ∧ match r with
      | Some m =>
          ∃ ri a e q2,
            regexIndexer (cursor st') = Some ri
            ∧ getMatchIndexStart ri (getCurrentMatchNumber ri) = Some a
            ∧ getMatchIndexEnd ri (getCurrentMatchNumber ri) = Some e
            ∧ query (cursor st') = Some q2
            ∧ getFullInfoForCurrentMatch st'
              = Some ((m, Some a),
                      withCursor st' (setQueryField (cursor st') (Some (setLastIndex q2 e))))
      | None => getFullInfoForCurrentMatch st' = None
      end.
Proof.
  intros Hd Hq Hstale Hfuel.
  destruct (updateResults_returns fuel st d q Hd Hq Hfuel)
    as (st1 & Hrun & [(_ & Hr & _)|(_ & t & L & f & q' & ri & Ht & HL & Hscan & ->)]);
    [congruence|].
  set (st1 := {| _documentMap := _; cursor := _ |}) in *.
  assert (doc (cursor st1) = Some d) as Hd1 by done.
  assert (_needToIndexDocument (_documentMap st1) d = false) as Hn1 by apply indexed_ok.
  assert (resultsCurrent (cursor st1) = true) as Hr1 by done.
  assert (regexIndexer (cursor st1) = Some ri) as Hri1 by done.
  assert (query (cursor st1) = Some q') as Hq1 by done.
  assert (_getDocumentText (_documentMap st1) d = Some t) as Ht1 by done.
  pose proof (createRegexIndexer_fresh _ _ _ _ _ _ _ _ Hscan) as (Hsame & _).
  apply createRegexIndexer_inv in Hscan as (g & Hscan & Hri).
  apply createSearchResults_pairs in Hscan as (ps & Harr & Hsz & Hcur & Hin).
  assert (holds ri ps (-1)) as Hholds.
  { subst ri. unfold holds. simpl. split_and!; [done | done | by rewrite Hcur | lia | lia]. }
  rewrite (find_after_update fuel 0 reverse st st1 d Hrun Hd1 Hn1 Hr1).
  destruct (find_settled 0 reverse st1 d ri ps (-1) Hd1 Hn1 Hr1 Hri1 Hholds)
    as (r & st' & j & -> & Hj & Hrj & Hsome & _ & Hmap & Hri' & _ & _ & Hd' & Hq' & _).
  exists r, st'. split; [done|].
  pose proof (holds_set ri ps (-1) j Hholds Hj) as Hholds'.
  destruct (decide (0 ≤ j)) as [Hj0|Hj0].
  - destruct (Hsome Hj0) as [m ->].
    destruct (lookup_lt_is_Some_2 ps (Z.to_nat j) ltac:(lia)) as [[a e] Hlook].
    destruct (Hin a e ltac:(by eapply list_elem_of_lookup_2)) as (_ & _ & Hexec).
    destruct (getFullResultInfo_current t q _ ps j a e q' Hholds' Hj0 Hlook Hexec Hsame)
      as (m' & Hm' & Hinfo).
    rewrite getItemByMatchNumber_set in Hm'.
    assert (m' = m) as -> by congruence.
    exists (setCurrentMatchNumber ri j), a, e, q'.
    pose proof (getCurrentMatchNumber_holds _ ps j Hholds') as Hnum.
    rewrite Hnum. pose proof Hholds' as (Harr' & Hsz' & _ & _).
    apply lookup_pairs in Hlook as Hlook'. rewrite Z2Nat.id in Hlook' by lia.
    destruct Hlook' as [Ha He].
    split_and!.
    + done.
    + unfold getMatchIndexStart. by rewrite (getGroupValue_flat_start _ ps).
    + unfold getMatchIndexEnd. by rewrite (getGroupValue_flat_end _ ps).
    + by rewrite Hq'.
    + unfold getFullInfoForCurrentMatch. rewrite Hd', Hd1. cbn [mbind option_bind].
      rewrite Hmap, Ht1. cbn [mbind option_bind]. rewrite Hri'. cbn [mbind option_bind].
      rewrite Hq', Hq1. cbn [mbind option_bind]. rewrite Hnum, Hinfo. done.
  - subst r.
    unfold getFullInfoForCurrentMatch. rewrite Hd', Hd1. cbn [mbind option_bind].
    rewrite Hmap, Ht1. cbn [mbind option_bind]. rewrite Hri'. cbn [mbind option_bind].
    rewrite Hq', Hq1. cbn [mbind option_bind].
    unfold getFullResultInfo. cbv zeta.
    destruct (exec _ t) as [matchInfo q3].
    rewrite (getCurrentMatch_holds _ ps j Hholds'). by rewrite decide_False by done.
Qed.

Lemma lineFromIndex_lt (L : list Z) (hint : option Z) (index l : Z) :
  _lineFromIndex L hint index = Some l → l < len L.
Proof.
  destruct hint as [n|]; [|done]. unfold _lineFromIndex. cbv zeta.
  intros H. apply lineFromIndexLoop_Some in H as (Hl & _). lia.
Qed.

Lemma createPosFromIndex_line_lt (L : list Z) (hint : option Z) (index endLine : Z) :
  len L - 1 ≤ endLine →
  gt_line (line (_createPosFromIndex L hint index)) (Some endLine) = false.
Proof.
  intros Hend. unfold _createPosFromIndex. cbn [line].
  destruct (_lineFromIndex L hint index) as [l|] eqn:Hl; [|done].
  apply lineFromIndex_lt in Hl. unfold gt_line. apply bool_decide_eq_false_2. lia.
Qed.

Lemma forEachMatchWithinRangeLoop_S (rounds : nat) (ri : RegexIndexer) (index : Z)
    (lastLine : option Z) (endPosition : Pos) :
  forEachMatchWithinRangeLoop (S rounds) ri index lastLine endPosition
  = (indexStart ← aget (ga_array (ri_startEndIndexArray ri))
                     (getGroupIndex (ri_startEndIndexArray ri) index);
     indexEnd ← aget (ga_array (ri_startEndIndexArray ri))
                   (getGroupIndex (ri_startEndIndexArray ri) index + 1);
     if gt_line (line (_createPosFromIndex (ri_docLineIndex ri) lastLine indexStart))
          (line endPosition)
     then Some []
     else cons (_createPosFromIndex (ri_docLineIndex ri) lastLine indexStart,
                _createPosFromIndex (ri_docLineIndex ri)
                  (line (_createPosFromIndex (ri_docLineIndex ri) lastLine indexStart))
                  indexEnd)
            <$> forEachMatchWithinRangeLoop rounds ri (index + 1)
                  (line (_createPosFromIndex (ri_docLineIndex ri)
                           (line (_createPosFromIndex (ri_docLineIndex ri) lastLine indexStart))
                           indexEnd)) endPosition).
Proof. done. Qed.

(** With the end of the range on or after the last line, the loop of
    [forEachMatchWithinRange] never stops early. *)
Lemma forEachMatchWithinRangeLoop_all (ri : RegexIndexer) (endLine c : Z) :
  len (ri_docLineIndex ri) - 1 ≤ endLine →
  ∀ (rounds : nat) (index : Z) (lastLine : option Z),
    forEachMatchWithinRangeLoop rounds ri index lastLine {| line := Some endLine; ch := c |}
    = forEachMatchLoop rounds ri index lastLine.
Proof.
  intros Hend. induction rounds as [|rounds IH]; intros index lastLine; [done|].
  rewrite forEachMatchWithinRangeLoop_S, forEachMatchLoop_S.
  destruct (aget _ (getGroupIndex _ index)) as [a|]; [|done]. cbn [mbind option_bind].
  destruct (aget _ (getGroupIndex _ index + 1)) as [e|]; [|done]. cbn [mbind option_bind line].
  rewrite createPosFromIndex_line_lt by done. by rewrite IH.
Qed.

(** X26. Over the whole document, from position (0, 0) to an end position
    on or after the last line, [forEachMatchWithinRange] calls back exactly
    as [forEachMatch] does, for every table whose starts ascend from an
    offset that is not negative. *)
Theorem forEachMatchWithinRange_whole_document (ri : RegexIndexer) (ps : list (Z * Z))
    (cur endLine c : Z) :
  holds ri ps cur → ascending (ps.*1) →
  (∀ a e, ps !! 0%nat = Some (a, e) → 0 ≤ a) →
  len (ri_docLineIndex ri) - 1 ≤ endLine →
  is_Some (forEachMatch ri)
  ∧ forEachMatchWithinRange ri ri {| line := Some 0; ch := 0 |}
      {| line := Some endLine; ch := c |}
    = forEachMatch ri.
Proof.
  intros Hholds Hasc Hfirst Hend. pose proof Hholds as (Harr & Hsz & _ & _).
  split; [by rewrite (forEachMatch_positionsFrom ri ps)|].
  unfold forEachMatchWithinRange.
  assert (_indexFromPos (ri_docLineIndex ri) {| line := Some 0; ch := 0 |} = Some 0) as ->
    by done.
  destruct (decide (ps = [])) as [->|Hne].
  - destruct (findResultIndexNearPos_result ri [] cur (Some 0) false
                _compareMatchResultToPos Hholds) as (near & -> & _ & Hundef).
    assert (near = NearUndefined) as -> by by apply Hundef.
    cbn [mbind option_bind]. unfold forEachMatch. by rewrite (itemCount_flat _ [] Harr Hsz).
  - destruct (lookup_lt_is_Some_2 ps 0) as [[a0 e0] H0]; [destruct ps; [done | simpl; lia]|].
    pose proof (Hfirst a0 e0 H0) as Ha0.
    apply lookup_pairs in H0 as H0'. destruct H0' as [Hstart0 _].
    assert (_findResultIndexNearPos ri (Some 0) false _compareMatchResultToPos
            = Some (NearIndex 0)) as ->.
    { destruct (findResultIndexNearPos_boundary ri ps cur 0 false Hholds Hne Hasc)
        as [(k & Hk & ->)|(b & Hb & Hbelow & Habove & ->)].
      - do 2 f_equal. pose proof (aget_range _ _ _ Hk) as Hr.
        destruct (decide (k = 0)) as [->|]; [done|].
        pose proof (starts_lt ps Hasc 0 k a0 0 Hstart0 Hk ltac:(lia)). lia.
      - assert (b = 0) as ->.
        { destruct (decide (b = 0)) as [->|]; [done|].
          pose proof (Hbelow 0 a0 Hstart0 ltac:(lia)). lia. }
        rewrite decide_True; [done|]. destruct ps; [done | simpl; lia]. }
    cbn [mbind option_bind line].
    assert (aget (ga_array (ri_startEndIndexArray ri)) 0 = Some a0) as ->.
    { rewrite Harr. destruct ps as [|[a e] ps]; [done|]. simpl in H0. by simplify_eq. }
    cbn [mbind option_bind]. rewrite createPosFromIndex_line_lt by done.
    rewrite Z.sub_0_r. rewrite forEachMatchWithinRangeLoop_all by done. done.
Qed.

End CurrentMatchInfo.

(** ** The scan of a range, and the ranges of matches *)

Section RangeScan.
Context `{host : Host}.

(** What the loop of [_scanDocumentUsingRegularExpression] reports before
    the end [E] of a range. *)
Lemma scanDocumentLoop_within (docText : text) (query : RegExp) (L : list Z) (E : Z) :
  ∀ (fuel : nat) (regex : RegExp) (lastMatchedLine : option Z) (calls : list (Pos * Pos)),
    sameRegExp query regex →
    scanDocumentLoop fuel L docText regex (Some E) lastMatchedLine = Some calls →
    ∃ ps, calls = positionsFrom L lastMatchedLine ps
          ∧ ∀ a e, (a, e) ∈ ps →
              Z.max 0 (lastIndex regex) ≤ a ∧ a ≤ e ∧ e ≤ E
              ∧ execAt docText query a = Some (a, e).
Proof.
  induction fuel as [|fuel IH]; intros regex lastMatchedLine calls Hq; [done|].
  rewrite scanDocumentLoop_S, (exec_execAt docText query regex Hq).
  destruct (execAt docText query (lastIndex regex)) as [[a e]|] eqn:Hexec.
  - pose proof (execAt_Some _ _ _ _ _ Hexec) as [Ha Hae].
    cbv zeta. cbn [lastIndex setLastIndex].
    destruct (decide (e ≤ E)) as [He|He].
    + rewrite bool_decide_eq_true_2 by done.
      set (regex1 := if decide (a = e) then _ else _).
      assert (lastIndex regex1 = bump a e ∧ sameRegExp query regex1) as [Hlast Hq1].
      { subst regex1. unfold bump. by destruct (decide (a = e)). }
      pose proof (bump_gt a e ltac:(lia)).
      destruct (scanDocumentLoop fuel L docText regex1 _ _) as [calls'|] eqn:Hrest; [|done].
      intros [= <-].
      apply IH in Hrest as (ps' & -> & Hin'); [|done].
      exists ((a, e) :: ps'). split; [by rewrite positionsFrom_cons|].
      intros a' e' [Heq|Hin]%elem_of_cons.
      * simplify_eq. split_and!; [lia | lia | lia |].
        eapply execAt_Some_later; [done | lia | lia].
      * specialize (Hin' _ _ Hin). rewrite Hlast in Hin'. split_and!; [lia | lia | lia | tauto].
    + rewrite bool_decide_eq_false_2 by done. intros [= <-].
      exists []. split; [done|]. intros a' e' Hin. by apply elem_of_nil in Hin.
  - intros [= <-]. exists []. split; [done|]. intros a' e' Hin. by apply elem_of_nil in Hin.
Qed.

(** X27. [_scanDocumentUsingRegularExpression] with a range returns, given
    fuel for the text, and reports only matches inside the range: what it
    calls back with are the positions of matches of the pattern, each found
    by [exec] from its own start, that start at or after the offset of
    [range.from] and end at or before the offset of [range.to]. When the
    offset of [range.to] is NaN (its line is past the line index) nothing is
    reported. *)
Theorem scan_of_a_range_stays_within (fuel : nat) (L : list Z) (docText : text)
    (query : RegExp) (range : Range) :
  (length docText + 2 ≤ fuel)%nat →
  ∃ calls ps,
    _scanDocumentUsingRegularExpression fuel L docText query (Some range) = Some calls
    ∧ calls = positionsFrom L (Some 0) ps
    ∧ (∀ a e, (a, e) ∈ ps →
         execAt docText query a = Some (a, e)
         ∧ 0 ≤ a ≤ e
         ∧ (∀ s, _indexFromPos L (from range) = Some s → s ≤ a)
         ∧ ∃ E, _indexFromPos L (to range) = Some E ∧ e ≤ E)
    ∧ (_indexFromPos L (to range) = None → calls = []).
Proof.
  intros Hfuel. unfold _scanDocumentUsingRegularExpression. cbv zeta.
  set (regex := setLastIndex query (default 0 (_indexFromPos L (from range)))).
  assert (sameRegExp query regex) as Hq by done.
  destruct (scanDocumentLoop_terminates docText query fuel L regex
              (_indexFromPos L (to range)) (Some 0) Hq ltac:(lia)) as (calls & Hrun & _).
  rewrite Hrun.
  destruct (_indexFromPos L (to range)) as [E|] eqn:HE.
  - apply (scanDocumentLoop_within docText query) in Hrun as (ps & -> & Hin); [|done].
    eexists _, ps. split; [done|]. split; [done|]. split; [|done].
    intros a e Hae. specialize (Hin a e Hae) as (Hlo & Hle & Hhi & Hexec).
    subst regex. cbn [lastIndex setLastIndex] in Hlo.
    split_and!; [done | lia | lia | |].
    + intros s Hs. rewrite Hs in Hlo. simpl in Hlo. lia.
    + exists E. done.
  - assert (calls = []) as ->.
    { destruct fuel as [|fuel]; [done|]. rewrite scanDocumentLoop_S in Hrun.
      destruct (exec regex docText) as [[index|] regex']; cbv zeta in Hrun; by simplify_eq. }
    exists [], []. split; [done|]. split; [done|]. split; [|done].
    intros a e Hin. by apply elem_of_nil in Hin.
Qed.

End RangeScan.

Section MatchRanges.
Context (docText sep : text).
Context (Hsize : len docText + len sep < 2 ^ 32).

Local Abbreviation lines := (split docText sep).
Local Abbreviation L := (_createLineCharacterCountIndex docText sep).

(** The position of an offset within the index's range, from a line that
    begins at or before it, and back. *)
Lemma createPosFromIndex_back (hint index : Z) :
  0 ≤ hint → 0 ≤ index < len docText + len sep →
  lineStart lines sep (Z.to_nat hint) ≤ index →
  ∃ l : nat,
    line (_createPosFromIndex L (Some hint) index) = Some (Z.of_nat l)
    ∧ (l < length lines)%nat
    ∧ lineStart lines sep l ≤ index
    ∧ ch (_createPosFromIndex L (Some hint) index) = index - lineStart lines sep l
    ∧ _indexFromPos L (_createPosFromIndex L (Some hint) index) = Some index.
Proof.
  intros Hhint0 Hindex Hhint.
  destruct (lineFromIndex_in_document docText sep Hsize hint index Hhint0 Hindex Hhint)
    as (l & Hl & Hlt & Hlo & Hhi).
  exists l. unfold _createPosFromIndex, _indexFromPos. rewrite Hl. cbn [line ch].
  destruct (decide (Z.of_nat l > 0)) as [Hpos|Hzero].
  - replace (Z.of_nat l - 1) with (Z.of_nat (l - 1)) by lia.
    rewrite (lineIndex_aget docText sep Hsize) by lia.
    replace (S (l - 1)) with l by lia. cbn [default fmap option_fmap option_map].
    unfold id. split_and!; [done | done | done | done | f_equal; lia].
  - assert (l = 0%nat) as -> by lia. unfold lineStart. simpl.
    split_and!; [done | done | lia | lia | f_equal; lia].
Qed.

(** X28. In a table over the document's line index, the range that
    [getItemByMatchNumber] returns for a match with offsets
    [0 ≤ start ≤ end < |text| + |separator|] denotes these offsets:
    [_indexFromPos] maps its [from] to the start and its [to] to the end,
    both lines are lines of the document with [from.line ≤ to.line], and
    neither [ch] is negative. *)
Theorem match_range_denotes_offsets (ri : RegexIndexer) (ps : list (Z * Z)) (cur : Z)
    (k : nat) (a e : Z) :
  ri_docLineIndex ri = L →
  holds ri ps cur →
  ps !! k = Some (a, e) →
  0 ≤ a ≤ e → e < len docText + len sep →
  ∃ m (lf lt : Z),
    getItemByMatchNumber ri (Z.of_nat k) = Some m
    ∧ _indexFromPos L (from m) = Some a
    ∧ _indexFromPos L (to m) = Some e
    ∧ line (from m) = Some lf ∧ line (to m) = Some lt
    ∧ 0 ≤ lf ≤ lt ∧ lt < len lines
    ∧ 0 ≤ ch (from m) ∧ 0 ≤ ch (to m).
Proof.
  intros HL (Harr & Hsz & _ & _) Hk Hae He.
  destruct (createPosFromIndex_back 0 a ltac:(lia) ltac:(lia)
              ltac:(unfold lineStart; simpl; lia)) as (lf & Hlf & Hlflt & Hlflo & Hchf & Hbackf).
  destruct (createPosFromIndex_back (Z.of_nat lf) e ltac:(lia) ltac:(lia)
              ltac:(rewrite Nat2Z.id; lia)) as (lt & Hlt & Hltlt & Hltlo & Hcht & Hbackt).
  assert (lf ≤ lt)%nat as Hle.
  { unfold _createPosFromIndex in Hlt. cbn [line] in Hlt.
    unfold _lineFromIndex in Hlt. apply lineFromIndexLoop_Some in Hlt as (? & _). lia. }
  exists (_createSearchResult L a e None), (Z.of_nat lf), (Z.of_nat lt).
  unfold getItemByMatchNumber, searchResultAt, getGroupIndex. rewrite Hsz, Harr, HL.
  assert (aget (flat ps) (2 * Z.of_nat k) = Some a) as ->.
  { replace (2 * Z.of_nat k) with (Z.of_nat (2 * k)) by lia.
    by rewrite aget_of_nat, flat_lookup_start, list_lookup_fmap, Hk. }
  assert (aget (flat ps) (2 * Z.of_nat k + 1) = Some e) as ->.
  { replace (2 * Z.of_nat k + 1) with (Z.of_nat (2 * k + 1)) by lia.
    by rewrite aget_of_nat, flat_lookup_end, list_lookup_fmap, Hk. }
  cbn [mbind option_bind]. unfold _createSearchResult. cbv zeta. cbn [default from to].
  rewrite Hlf. rewrite Hlt, Hchf, Hcht.
  split_and!; [done | done | done | done | done | lia | lia | lia | lia | lia].
Qed.

End MatchRanges.

(** ** Instances of the further properties *)

Section FurtherInstances.
Local Existing Instance miniHost.

Lemma twoLinesIndexer_holds (k : Z) :
  -1 ≤ k < 2 → holds (setCurrentMatchNumber twoLinesIndexer k) [(0, 2); (3, 5)] k.
Proof. intros Hk. unfold holds. simpl. split_and!; [done | done | lia | lia | lia]. Qed.

(** X6 on the table (0,2), (3,5) with match 0 current. *)
Lemma nextMatch_prevMatch_witness :
  (holds (setCurrentMatchNumber twoLinesIndexer 0) [(0, 2); (3, 5)] 0
   ∧ 0 + 1 < len [(0, 2); (3, 5)])
  ∧ nextMatch (setCurrentMatchNumber twoLinesIndexer 0)
    = (getItemByMatchNumber (setCurrentMatchNumber twoLinesIndexer 0) (0 + 1),
       setCurrentMatchNumber (setCurrentMatchNumber twoLinesIndexer 0) (0 + 1))
  ∧ is_Some (getItemByMatchNumber (setCurrentMatchNumber twoLinesIndexer 0) (0 + 1))
  ∧ getCurrentMatch (setCurrentMatchNumber (setCurrentMatchNumber twoLinesIndexer 0) (0 + 1))
    = getItemByMatchNumber (setCurrentMatchNumber twoLinesIndexer 0) (0 + 1)
  ∧ getCurrentMatchNumber (setCurrentMatchNumber (setCurrentMatchNumber twoLinesIndexer 0) (0 + 1))
    = 0 + 1
  ∧ (0 ≤ 0 →
     prevMatch (setCurrentMatchNumber (setCurrentMatchNumber twoLinesIndexer 0) (0 + 1))
     = (getItemByMatchNumber (setCurrentMatchNumber twoLinesIndexer 0) 0,
        setCurrentMatchNumber twoLinesIndexer 0)).
Proof.
  assert (holds (setCurrentMatchNumber twoLinesIndexer 0) [(0, 2); (3, 5)] 0) as H1
    by (apply twoLinesIndexer_holds; lia).
  assert (0 + 1 < len [(0, 2); (3, 5)]) as H2 by (simpl; lia).
  split; [split; [exact H1 | exact H2]|].
  apply (nextMatch_prevMatch (setCurrentMatchNumber twoLinesIndexer 0) [(0, 2); (3, 5)] 0);
    [exact H1 | exact H2].
Defined.

(** X7 on the same table with the last match current. *)
Lemma navigation_at_the_ends_witness :
  (holds (setCurrentMatchNumber twoLinesIndexer 1) [(0, 2); (3, 5)] 1
   ∧ [(0, 2); (3, 5)] ≠ [])
  ∧ (1 = len [(0, 2); (3, 5)] - 1 →
     nextMatch (setCurrentMatchNumber twoLinesIndexer 1)
     = (None, withGroupArray (setCurrentMatchNumber twoLinesIndexer 1)
                (withCurrent (ri_startEndIndexArray (setCurrentMatchNumber twoLinesIndexer 1))
                   (-2))))
  ∧ nextMatch (withGroupArray (setCurrentMatchNumber twoLinesIndexer 1)
                 (withCurrent (ri_startEndIndexArray (setCurrentMatchNumber twoLinesIndexer 1))
                    (-2)))
    = (getItemByMatchNumber (setCurrentMatchNumber twoLinesIndexer 1) 0,
       setCurrentMatchNumber (setCurrentMatchNumber twoLinesIndexer 1) 0)
  ∧ is_Some (getItemByMatchNumber (setCurrentMatchNumber twoLinesIndexer 1) 0)
  ∧ (1 ≤ 0 →
     prevMatch (setCurrentMatchNumber twoLinesIndexer 1)
     = (None, withGroupArray (setCurrentMatchNumber twoLinesIndexer 1)
                (withCurrent (ri_startEndIndexArray (setCurrentMatchNumber twoLinesIndexer 1))
                   (-2))))
  ∧ prevMatch (withGroupArray (setCurrentMatchNumber twoLinesIndexer 1)
                 (withCurrent (ri_startEndIndexArray (setCurrentMatchNumber twoLinesIndexer 1))
                    (-2)))
    = (None, withGroupArray (setCurrentMatchNumber twoLinesIndexer 1)
               (withCurrent (ri_startEndIndexArray (setCurrentMatchNumber twoLinesIndexer 1))
                  (-2)))
  ∧ getCurrentMatch
      (withGroupArray (setCurrentMatchNumber twoLinesIndexer 1)
         (withCurrent (ri_startEndIndexArray (setCurrentMatchNumber twoLinesIndexer 1)) (-2)))
    = None.
Proof.
  assert (holds (setCurrentMatchNumber twoLinesIndexer 1) [(0, 2); (3, 5)] 1) as H1
    by (apply twoLinesIndexer_holds; lia).
  split; [split; [exact H1 | discriminate]|].
  apply (navigation_at_the_ends (setCurrentMatchNumber twoLinesIndexer 1) [(0, 2); (3, 5)] 1);
    [exact H1 | discriminate].
Defined.

(** X8 on the same table, searched in reverse from offset 4. *)
Lemma findResultIndexNearPos_in_range_witness :
  holds twoLinesIndexer [(0, 2); (3, 5)] (-1)
  ∧ ∃ r, _findResultIndexNearPos twoLinesIndexer (Some 4) true _compareMatchResultToPos = Some r
         ∧ (∀ k, r = NearIndex k →
              0 ≤ k < getItemCount twoLinesIndexer
              ∧ is_Some (getMatchIndexStart twoLinesIndexer k)
              ∧ is_Some (getMatchIndexEnd twoLinesIndexer k))
         ∧ (r = NearUndefined ↔ getItemCount twoLinesIndexer = 0).
Proof.
  assert (holds twoLinesIndexer [(0, 2); (3, 5)] (-1)) as H1
    by (unfold holds; simpl; split_and!; [reflexivity | reflexivity | lia | lia | lia]).
  split; [exact H1|].
  apply (findResultIndexNearPos_in_range twoLinesIndexer [(0, 2); (3, 5)] (-1)); exact H1.
Defined.

(** The scan of the two-line document for ["ab"]. *)
Lemma twoLines_scan :
  _createRegexIndexer 20 twoLines (_createLineCharacterCountIndex twoLines newline) abQuery
    None None = Some (abQuery, twoLinesIndexer).
Proof. vm_compute. reflexivity. Qed.

(** X9 on the scan of the two-line document. *)
Lemma createRegexIndexer_table_witness :
  _createRegexIndexer 20 twoLines (_createLineCharacterCountIndex twoLines newline) abQuery
    None None = Some (abQuery, twoLinesIndexer)
  ∧ (source abQuery = source abQuery ∧ ignoreCaseFlag abQuery = ignoreCaseFlag abQuery)
  ∧ ri_docText twoLinesIndexer = twoLines
  ∧ ri_docLineIndex twoLinesIndexer = _createLineCharacterCountIndex twoLines newline
  ∧ getCurrentMatch twoLinesIndexer = None ∧ getCurrentMatchNumber twoLinesIndexer = -1
  ∧ ∃ ps, holds twoLinesIndexer ps (-1) ∧ getItemCount twoLinesIndexer = len ps
      ∧ (∀ (k : nat) a e, ps !! k = Some (a, e) →
           getMatchIndexStart twoLinesIndexer (Z.of_nat k) = Some a
           ∧ getMatchIndexEnd twoLinesIndexer (Z.of_nat k) = Some e
           ∧ 0 ≤ a ≤ e ∧ a ≤ len twoLines)
      ∧ (∀ k, ¬ 0 ≤ k < len ps →
           getMatchIndexStart twoLinesIndexer k = None
           ∧ getMatchIndexEnd twoLinesIndexer k = None).
Proof.
  split; [exact twoLines_scan|].
  apply (createRegexIndexer_table 20 twoLines (_createLineCharacterCountIndex twoLines newline)
           abQuery None None abQuery twoLinesIndexer).
  exact twoLines_scan.
Defined.

(** The scan of ["aaa"] for [a] from offset 2 with [maxResults = 2]: one
    match from the start position on, two before it. *)
Lemma aaa_scan_from_2 :
  _createRegexIndexer 20 (str "aaa") (_createLineCharacterCountIndex (str "aaa") newline)
    {| source := str "a"; ignoreCaseFlag := false; lastIndex := 0 |} (Some 2)
    (Some {| from := {| line := Some 0; ch := 2 |}; to := {| line := Some 0; ch := 2 |} |})
  = Some ({| source := str "a"; ignoreCaseFlag := false; lastIndex := 2 |},
          {| ri_docText := str "aaa";
             ri_docLineIndex := _createLineCharacterCountIndex (str "aaa") newline;
             ri_startEndIndexArray := _makeGroupArray [0; 1; 1; 2; 2; 3] 2 |}).
Proof. vm_compute. reflexivity. Qed.

(** X10 on that scan, which reaches the bound: three matches with
    [maxResults = 2]. *)
Lemma maxResults_bounds_table_witness :
  1 ≤ 2
  ∧ getItemCount {| ri_docText := str "aaa";
                    ri_docLineIndex := _createLineCharacterCountIndex (str "aaa") newline;
                    ri_startEndIndexArray := _makeGroupArray [0; 1; 1; 2; 2; 3] 2 |} = 3
  ∧ getItemCount {| ri_docText := str "aaa";
                    ri_docLineIndex := _createLineCharacterCountIndex (str "aaa") newline;
                    ri_startEndIndexArray := _makeGroupArray [0; 1; 1; 2; 2; 3] 2 |}
    ≤ 2 * 2 - 1.
Proof.
  assert (1 ≤ 2) as H1 by lia.
  split; [exact H1|]. split; [reflexivity|].
  apply (maxResults_bounds_table 20 (str "aaa")
           (_createLineCharacterCountIndex (str "aaa") newline)
           {| source := str "a"; ignoreCaseFlag := false; lastIndex := 0 |} 2
           (Some {| from := {| line := Some 0; ch := 2 |}; to := {| line := Some 0; ch := 2 |} |})
           {| source := str "a"; ignoreCaseFlag := false; lastIndex := 2 |});
    [exact H1 | exact aaa_scan_from_2].
Defined.

(** X11 on ["aaa"] searched for [a] with [maxResults = 2]. *)
Lemma maxResults_keeps_first_matches_witness :
  ((length (str "aaa") + 2 ≤ 10)%nat ∧ 1 ≤ 2 ∧ len (str "aaa") + 1 < 100)
  ∧ ∃ q1 ri1 q2 ri2,
      _createRegexIndexer 10 (str "aaa") (_createLineCharacterCountIndex (str "aaa") newline)
        {| source := str "a"; ignoreCaseFlag := false; lastIndex := 0 |} (Some 2) None
        = Some (q1, ri1)
      ∧ _createRegexIndexer 10 (str "aaa") (_createLineCharacterCountIndex (str "aaa") newline)
          {| source := str "a"; ignoreCaseFlag := false; lastIndex := 0 |} (Some 100) None
        = Some (q2, ri2)
      ∧ ga_array (ri_startEndIndexArray ri1)
        = take (Z.to_nat (2 * 2)) (ga_array (ri_startEndIndexArray ri2))
      ∧ getItemCount ri1 = Z.min 2 (getItemCount ri2).
Proof.
  assert (length (str "aaa") + 2 ≤ 10)%nat as H1 by (simpl; lia).
  assert (1 ≤ 2) as H2 by lia.
  assert (len (str "aaa") + 1 < 100) as H3 by (simpl; lia).
  split; [split_and!; [exact H1 | exact H2 | exact H3]|].
  apply (maxResults_keeps_first_matches 10 (str "aaa")
           (_createLineCharacterCountIndex (str "aaa") newline)
           {| source := str "a"; ignoreCaseFlag := false; lastIndex := 0 |} 2 100);
    [exact H1 | exact H2 | exact H3].
Defined.

(** X12 on the scan of the two-line document, at its first match. *)
Lemma scan_from_start_no_overlap_witness :
  (getMatchIndexStart twoLinesIndexer 0 = Some 0
   ∧ getMatchIndexEnd twoLinesIndexer 0 = Some 2
   ∧ getMatchIndexStart twoLinesIndexer (0 + 1) = Some 3)
  ∧ 2 ≤ 3 ∧ (0 = 2 → 2 < 3).
Proof.
  split; [split_and!; reflexivity|].
  apply (scan_from_start_no_overlap 20 twoLines
           (_createLineCharacterCountIndex twoLines newline) abQuery None abQuery
           twoLinesIndexer 0 0 2 3); [exact twoLines_scan | reflexivity..].
Defined.

(** X13 on the scan of the two-line document, at its second match. *)
Lemma getFullResultInfo_recovers_match_witness :
  (getMatchIndexStart twoLinesIndexer 1 = Some 3 ∧ getMatchIndexEnd twoLinesIndexer 1 = Some 5)
  ∧ ∃ m, getItemByMatchNumber twoLinesIndexer 1 = Some m
      ∧ getFullResultInfo (setCurrentMatchNumber twoLinesIndexer 1) 1 abQuery twoLines
        = (Some (m, Some 3), setLastIndex abQuery 5)
      ∧ fst (getFullResultInfo twoLinesIndexer 1 abQuery twoLines) = None.
Proof.
  split; [split; reflexivity|].
  apply (getFullResultInfo_recovers_match 20 twoLines
           (_createLineCharacterCountIndex twoLines newline) abQuery None None abQuery
           twoLinesIndexer 1 3 5 abQuery); [exact twoLines_scan | reflexivity..].
Defined.

Lemma twoLines_pairs_in_range (a e : Z) :
  (a, e) ∈ [(0, 2); (3, 5)] → 0 ≤ a ≤ e ∧ e < len twoLines + len newline.
Proof.
  intros Hin.
  repeat (apply elem_of_cons in Hin as [Hin|Hin]; [injection Hin as -> ->; simpl; lia|]).
  by apply elem_of_nil in Hin.
Qed.

Lemma twoLines_pairs_apart (i : nat) (a e b f : Z) :
  [(0, 2); (3, 5)] !! i = Some (a, e) → [(0, 2); (3, 5)] !! S i = Some (b, f) → e ≤ b.
Proof. destruct i as [|[|i]]; simpl; intros ? ?; simplify_eq; lia. Qed.

(** X14 on the two-line document and its table. *)
Lemma forEachMatch_agrees_with_getItemByMatchNumber_witness :
  (len twoLines + len newline < 2 ^ 32
   ∧ holds twoLinesIndexer [(0, 2); (3, 5)] (-1))
  ∧ ∃ calls, forEachMatch twoLinesIndexer = Some calls
      ∧ length calls = length [(0, 2); (3, 5)]
      ∧ ∀ k : nat, (k < length [(0, 2); (3, 5)])%nat →
          getItemByMatchNumber twoLinesIndexer (Z.of_nat k)
          = (λ c, {| from := c.1; to := c.2 |}) <$> calls !! k.
Proof.
  assert (len twoLines + len newline < 2 ^ 32) as H1 by (vm_compute; reflexivity).
  assert (holds twoLinesIndexer [(0, 2); (3, 5)] (-1)) as H2
    by (unfold holds; simpl; split_and!; [reflexivity | reflexivity | lia | lia | lia]).
  split; [split; [exact H1 | exact H2]|].
  apply (forEachMatch_agrees_with_getItemByMatchNumber twoLines newline H1 twoLinesIndexer
           [(0, 2); (3, 5)] (-1));
    [reflexivity | exact H2 | exact twoLines_pairs_in_range | exact twoLines_pairs_apart].
Defined.

Lemma oneCharState_fuel : enoughFuel 20 oneCharState oneCharDoc.
Proof.
  split; [simpl; lia|]. intros info H _. vm_compute in H. discriminate H.
Qed.

(** X16 on the new cursor over ["a"]. *)
Lemma updateResultsIfNeeded_settles_witness :
  (doc (cursor oneCharState) = Some oneCharDoc ∧ query (cursor oneCharState) = Some aQuery
   ∧ enoughFuel 20 oneCharState oneCharDoc)
  ∧ ∃ st', _updateResultsIfNeeded 20 oneCharState = Some st'
    ∧ _needToIndexDocument (_documentMap st') oneCharDoc = false
    ∧ resultsCurrent (cursor st') = true
    ∧ (∀ fuel', _updateResultsIfNeeded (S fuel') st' = Some st')
    ∧ (∀ id, id ≠ docId oneCharDoc → _documentMap st' !! id = _documentMap oneCharState !! id)
    ∧ (doc (cursor st') = Some oneCharDoc
       ∧ ignoreCase (cursor st') = ignoreCase (cursor oneCharState)
       ∧ maxResults (cursor st') = maxResults (cursor oneCharState)
       ∧ currentPosition (cursor st') = currentPosition (cursor oneCharState)
       ∧ atOccurrence (cursor st') = atOccurrence (cursor oneCharState))
    ∧ (∃ q', query (cursor st') = Some q'
             ∧ source q' = source aQuery ∧ ignoreCaseFlag q' = ignoreCaseFlag aQuery)
    ∧ (_needToIndexDocument (_documentMap oneCharState) oneCharDoc = false →
       resultsCurrent (cursor oneCharState) = true → st' = oneCharState)
    ∧ (_needToIndexDocument (_documentMap oneCharState) oneCharDoc = true ∨ resultsCurrent (cursor oneCharState) = false →
       ∃ ri ps, regexIndexer (cursor st') = Some ri ∧ holds ri ps (-1)
         ∧ _getDocumentText (_documentMap st') oneCharDoc = Some (ri_docText ri)
         ∧ _getDocumentIndex (_documentMap st') oneCharDoc = Some (ri_docLineIndex ri)
         ∧ (_needToIndexDocument (_documentMap oneCharState) oneCharDoc = true →
            ri_docText ri = getValue oneCharDoc
            ∧ ri_docLineIndex ri
              = _createLineCharacterCountIndex (getValue oneCharDoc) (lineSeparator oneCharDoc))).
Proof.
  split; [split_and!; [reflexivity | reflexivity | exact oneCharState_fuel]|].
  apply (updateResultsIfNeeded_settles 20 oneCharState oneCharDoc aQuery);
    [reflexivity | reflexivity | exact oneCharState_fuel].
Defined.

(** X17 on a cursor that was given nothing. *)
Lemma cursor_without_document_or_query_throws_witness :
  (doc (cursor (emptyState newCursor)) = None
   ∨ (query (cursor (emptyState newCursor)) = None
      ∧ resultsCurrent (cursor (emptyState newCursor)) = false))
  ∧ _updateResultsIfNeeded 20 (emptyState newCursor) = None
  ∧ scanDocumentAndStoreResultsInCursor 20 (emptyState newCursor) = None
  ∧ getMatchCount 20 (emptyState newCursor) = None
  ∧ getDocCharacterCount 20 (emptyState newCursor) = None
  ∧ cursorCurrentMatchNumber 20 (emptyState newCursor) = None
  ∧ find 20 false (emptyState newCursor) = None
  ∧ cursorForEachMatch 20 (emptyState newCursor) = None
  ∧ (doc (cursor (emptyState newCursor)) = None → getFullInfoForCurrentMatch (emptyState newCursor) = None).
Proof.
  split; [left; reflexivity|].
  apply (cursor_without_document_or_query_throws 20 (emptyState newCursor) false).
  left. reflexivity.
Defined.

Lemma oneCharState_ok : cursorOk (cursor oneCharState).
Proof. intros H. discriminate H. Qed.

(** X18 on the new cursor over ["a"], forward. *)
Lemma find_returns_and_selects_witness :
  (doc (cursor oneCharState) = Some oneCharDoc ∧ query (cursor oneCharState) = Some aQuery
   ∧ cursorOk (cursor oneCharState) ∧ enoughFuel 20 oneCharState oneCharDoc)
  ∧ ∃ r st', find 20 false oneCharState = Some (r, st')
    ∧ cursorOk (cursor st')
    ∧ resultsCurrent (cursor st') = true
    ∧ _needToIndexDocument (_documentMap st') oneCharDoc = false
    ∧ currentPosition (cursor st') = r
    ∧ atOccurrence (cursor st') = (if r is Some _ then true else false)
    ∧ (getCurrentMatch <$> regexIndexer (cursor st')) = Some r.
Proof.
  split; [split_and!; [reflexivity | reflexivity | exact oneCharState_ok
                      | exact oneCharState_fuel]|].
  apply (find_returns_and_selects 20 false oneCharState oneCharDoc aQuery);
    [reflexivity | reflexivity | exact oneCharState_ok | exact oneCharState_fuel].
Defined.

Lemma twoLinesState_indexed :
  _needToIndexDocument (_documentMap twoLinesState) twoLinesDoc = false.
Proof. vm_compute. reflexivity. Qed.

Lemma twoLinesState_index :
  _getDocumentIndex (_documentMap twoLinesState) twoLinesDoc
  = Some (_createLineCharacterCountIndex twoLines newline).
Proof. vm_compute. reflexivity. Qed.

Lemma twoLines_starts_ascending : ascending ([(0, 2); (3, 5)].*1).
Proof. apply ascendingb_sound. reflexivity. Qed.

(** X19 on the settled two-line state with match 0 selected, forward. *)
Lemma find_steps_from_current_match_witness :
  (holds (setCurrentMatchNumber twoLinesIndexer 0) [(0, 2); (3, 5)] 0 ∧ 0 ≤ 0)
  ∧ ∃ r st', find (S 0) false (twoLinesStateAt 0) = Some (r, st')
    ∧ (false = false → 0 + 1 < len [(0, 2); (3, 5)] →
       r = getItemByMatchNumber (setCurrentMatchNumber twoLinesIndexer 0) (0 + 1) ∧ is_Some r
       ∧ regexIndexer (cursor st') = Some (setCurrentMatchNumber (setCurrentMatchNumber twoLinesIndexer 0) (0 + 1)))
    ∧ (false = false → 0 + 1 = len [(0, 2); (3, 5)] →
       r = None ∧ (getCurrentMatchNumber <$> regexIndexer (cursor st')) = Some (-1))
    ∧ (false = true → 1 ≤ 0 →
       r = getItemByMatchNumber (setCurrentMatchNumber twoLinesIndexer 0) (0 - 1) ∧ is_Some r
       ∧ regexIndexer (cursor st') = Some (setCurrentMatchNumber (setCurrentMatchNumber twoLinesIndexer 0) (0 - 1)))
    ∧ (false = true → 0 = 0 →
       r = None ∧ (getCurrentMatchNumber <$> regexIndexer (cursor st')) = Some (-1)).
Proof.
  assert (holds (setCurrentMatchNumber twoLinesIndexer 0) [(0, 2); (3, 5)] 0) as H1
    by (apply twoLinesIndexer_holds; lia).
  assert (0 ≤ 0) as H2 by lia.
  split; [split; [exact H1 | exact H2]|].
  apply (find_steps_from_current_match 0 false (twoLinesStateAt 0) twoLinesDoc
           (setCurrentMatchNumber twoLinesIndexer 0) [(0, 2); (3, 5)] 0);
    [reflexivity | exact twoLinesState_indexed | reflexivity | reflexivity
    | exact H1 | exact H2].
Defined.

Lemma twoLinesIndexer_fresh : holds twoLinesIndexer [(0, 2); (3, 5)] (-1).
Proof. unfold holds. simpl. split_and!; [reflexivity | reflexivity | lia | lia | lia]. Qed.

(** X20 on the settled two-line state, from the start of the document. *)
Lemma find_forward_from_position_witness :
  (holds twoLinesIndexer [(0, 2); (3, 5)] (-1) ∧ ascending ([(0, 2); (3, 5)].*1))
  ∧ ∃ r st', find (S 0) false twoLinesState = Some (r, st')
    ∧ ([(0, 2); (3, 5)] = [] → r = None)
    ∧ (∀ (k : nat) a e, [(0, 2); (3, 5)] !! k = Some (a, e) → 0 ≤ a →
         (∀ (j : nat) a' e', (j < k)%nat → [(0, 2); (3, 5)] !! j = Some (a', e') → a' < 0) →
         r = getItemByMatchNumber twoLinesIndexer (Z.of_nat k) ∧ is_Some r
         ∧ regexIndexer (cursor st') = Some (setCurrentMatchNumber twoLinesIndexer (Z.of_nat k)))
    ∧ ([(0, 2); (3, 5)] ≠ [] → (∀ a e, (a, e) ∈ [(0, 2); (3, 5)] → a < 0) →
         r = getItemByMatchNumber twoLinesIndexer 0 ∧ is_Some r
         ∧ regexIndexer (cursor st') = Some (setCurrentMatchNumber twoLinesIndexer 0)).
Proof.
  split; [split; [exact twoLinesIndexer_fresh | exact twoLines_starts_ascending]|].
  apply (find_forward_from_position 0 twoLinesState twoLinesDoc twoLinesIndexer
           [(0, 2); (3, 5)] (_createLineCharacterCountIndex twoLines newline)
           {| from := {| line := Some 0; ch := 0 |}; to := {| line := Some 0; ch := 0 |} |} 0);
    [reflexivity | exact twoLinesState_indexed | reflexivity | reflexivity
    | exact twoLinesIndexer_fresh | exact twoLines_starts_ascending
    | exact twoLinesState_index | reflexivity | reflexivity].
Defined.

(** X21 on the settled two-line state, from the line after the last. *)
Lemma find_reverse_from_position_witness :
  (holds twoLinesIndexer [(0, 2); (3, 5)] (-1) ∧ ascending ([(0, 2); (3, 5)].*1))
  ∧ ∃ r st', find (S 0) true twoLinesState = Some (r, st')
    ∧ (∀ (k : nat) a e, [(0, 2); (3, 5)] !! k = Some (a, e) → a ≤ 6 →
         (∀ (j : nat) a' e', (k < j)%nat → [(0, 2); (3, 5)] !! j = Some (a', e') → 6 < a') →
         ((0 < k)%nat →
          r = getItemByMatchNumber twoLinesIndexer (Z.of_nat k) ∧ is_Some r
          ∧ regexIndexer (cursor st') = Some (setCurrentMatchNumber twoLinesIndexer (Z.of_nat k)))
         ∧ (k = 0%nat →
            r = None
            ∧ (getCurrentMatchNumber <$> regexIndexer (cursor st')) = Some (-1)))
    ∧ ((∀ a e, (a, e) ∈ [(0, 2); (3, 5)] → 6 < a) →
       r = None ∧ (getCurrentMatchNumber <$> regexIndexer (cursor st')) = Some (-1)).
Proof.
  split; [split; [exact twoLinesIndexer_fresh | exact twoLines_starts_ascending]|].
  apply (find_reverse_from_position 0 twoLinesState twoLinesDoc twoLinesIndexer
           [(0, 2); (3, 5)] (_createLineCharacterCountIndex twoLines newline)
           {| from := {| line := Some 2; ch := 0 |}; to := {| line := Some 2; ch := 0 |} |} 6);
    [reflexivity | exact twoLinesState_indexed | reflexivity | reflexivity
    | exact twoLinesIndexer_fresh | exact twoLines_starts_ascending
    | exact twoLinesState_index | reflexivity | reflexivity].
Defined.

(** X22 on the new cursor over ["a"]. *)
Lemma rescan_is_idempotent_witness :
  scanDocumentAndStoreResultsInCursor 20 oneCharState
  = Some (1, stateAfter oneCharState (scanDocumentAndStoreResultsInCursor 20 oneCharState))
  ∧ scanDocumentAndStoreResultsInCursor 20 (stateAfter oneCharState (scanDocumentAndStoreResultsInCursor 20 oneCharState)) = Some (1, (stateAfter oneCharState (scanDocumentAndStoreResultsInCursor 20 oneCharState)))
  ∧ getMatchCount 20 (stateAfter oneCharState (scanDocumentAndStoreResultsInCursor 20 oneCharState)) = Some (1, (stateAfter oneCharState (scanDocumentAndStoreResultsInCursor 20 oneCharState))).
Proof.
  assert (scanDocumentAndStoreResultsInCursor 20 oneCharState
          = Some (1, stateAfter oneCharState
                       (scanDocumentAndStoreResultsInCursor 20 oneCharState))) as H1
    by (vm_compute; reflexivity).
  split; [exact H1|].
  apply (rescan_is_idempotent 20 oneCharState 1
           (stateAfter oneCharState (scanDocumentAndStoreResultsInCursor 20 oneCharState))).
  exact H1.
Defined.

Lemma oneCharState_new :
  _needToIndexDocument (_documentMap oneCharState) oneCharDoc = true.
Proof. vm_compute. reflexivity. Qed.

Lemma oneCharDoc_size : len (getValue oneCharDoc) + len (lineSeparator oneCharDoc) < 2 ^ 32.
Proof. vm_compute. reflexivity. Qed.

(** X23 on the new cursor over ["a"]: the count is 2. *)
Lemma getDocCharacterCount_counts_a_separator_witness :
  (_needToIndexDocument (_documentMap oneCharState) oneCharDoc = true
   ∧ len (getValue oneCharDoc) + len (lineSeparator oneCharDoc) < 2 ^ 32)
  ∧ (getValue oneCharDoc ≠ [] ∨ lineSeparator oneCharDoc ≠ [] →
   fst <$> getDocCharacterCount 20 oneCharState
   = Some (Some (len (getValue oneCharDoc) + len (lineSeparator oneCharDoc))))
  ∧ (getValue oneCharDoc = [] → lineSeparator oneCharDoc = [] →
     fst <$> getDocCharacterCount 20 oneCharState = Some None).
Proof.
  split; [split; [exact oneCharState_new | exact oneCharDoc_size]|].
  apply (getDocCharacterCount_counts_a_separator 20 oneCharState oneCharDoc aQuery);
    [reflexivity | reflexivity | exact oneCharState_fuel | exact oneCharState_new
    | exact oneCharDoc_size].
Defined.

(** No match of ["ab"] in the two-line text ends after the text. *)
Lemma ab_matches_within_twoLines (p : Z) (k : nat) :
  0 ≤ p ≤ len (getValue twoLinesDoc) →
  regExpMatch (source (_convertToRegularExpression (QueryString (str "ab")) false)) false
    (getValue twoLinesDoc) p = Some k →
  p + Z.of_nat k ≤ len (getValue twoLinesDoc).
Proof.
  intros Hp H.
  assert (p = 0 ∨ p = 1 ∨ p = 2 ∨ p = 3 ∨ p = 4 ∨ p = 5) as Hcases by (simpl in Hp; lia).
  destruct Hcases as [Hc | [Hc | [Hc | [Hc | [Hc | Hc]]]]]; subst p; vm_compute in H;
    try discriminate H; injection H as <-; simpl; lia.
Qed.

Lemma twoLinesDoc_size : len (getValue twoLinesDoc) + len (lineSeparator twoLinesDoc) < 2 ^ 32.
Proof. vm_compute. reflexivity. Qed.

(** X24 on the two-line document searched for ["ab"]. *)
Lemma scanDocumentForMatches_agrees_with_cursor_witness :
  (_needToIndexDocument ∅ twoLinesDoc = true
   ∧ len (getValue twoLinesDoc) + 1 < 10000000
   ∧ (length (getValue twoLinesDoc) + 4 ≤ 20)%nat)
  ∧ ∃ calls m' st',
    scanDocumentForMatches 20 ∅ twoLinesDoc (QueryString (str "ab")) false None = Some (calls, m')
    ∧ cursorForEachMatch 20
        {| _documentMap := ∅;
           cursor := createSearchCursor
                       {| p_document := Some twoLinesDoc; p_searchQuery := Some (QueryString (str "ab"));
                          p_position := None; p_ignoreCase := Some false;
                          p_maxResults := None |} |}
      = Some (calls, st')
    ∧ _documentMap st' = m'.
Proof.
  assert (_needToIndexDocument ∅ twoLinesDoc = true) as H1 by (vm_compute; reflexivity).
  assert (len (getValue twoLinesDoc) + 1 < 10000000) as H2 by (simpl; lia).
  assert (length (getValue twoLinesDoc) + 4 ≤ 20)%nat as H3 by (simpl; lia).
  split; [split_and!; [exact H1 | exact H2 | exact H3]|].
  apply (scanDocumentForMatches_agrees_with_cursor 20 ∅ twoLinesDoc (QueryString (str "ab"))
           false);
    [exact H1 | reflexivity | exact twoLinesDoc_size | left; discriminate | exact H2
    | exact ab_matches_within_twoLines | exact H3].
Defined.

(** X25 on the new cursor over ["a"], forward. *)
Lemma getFullInfoForCurrentMatch_after_find_witness :
  (resultsCurrent (cursor oneCharState) = false ∧ enoughFuel 20 oneCharState oneCharDoc)
  ∧ ∃ r st', find 20 false oneCharState = Some (r, st')
    ∧ match r with
      | Some m =>
          ∃ ri a e q2,
            regexIndexer (cursor st') = Some ri
            ∧ getMatchIndexStart ri (getCurrentMatchNumber ri) = Some a
            ∧ getMatchIndexEnd ri (getCurrentMatchNumber ri) = Some e
            ∧ query (cursor st') = Some q2
            ∧ getFullInfoForCurrentMatch st'
              = Some ((m, Some a),
                      withCursor st' (setQueryField (cursor st') (Some (setLastIndex q2 e))))
      | None => getFullInfoForCurrentMatch st' = None
      end.
Proof.
  split; [split; [reflexivity | exact oneCharState_fuel]|].
  apply (getFullInfoForCurrentMatch_after_find 20 false oneCharState oneCharDoc aQuery);
    [reflexivity | reflexivity | reflexivity | exact oneCharState_fuel].
Defined.

Lemma twoLines_first_start (a e : Z) : [(0, 2); (3, 5)] !! 0%nat = Some (a, e) → 0 ≤ a.
Proof. intros H. simpl in H. simplify_eq. lia. Qed.

Lemma twoLines_last_line : len (ri_docLineIndex twoLinesIndexer) - 1 ≤ 1.
Proof. vm_compute. discriminate. Qed.

(** X26 on the two-line document and its table. *)
Lemma forEachMatchWithinRange_whole_document_witness :
  (holds twoLinesIndexer [(0, 2); (3, 5)] (-1) ∧ ascending ([(0, 2); (3, 5)].*1)
   ∧ len (ri_docLineIndex twoLinesIndexer) - 1 ≤ 1)
  ∧ is_Some (forEachMatch twoLinesIndexer)
  ∧ forEachMatchWithinRange twoLinesIndexer twoLinesIndexer {| line := Some 0; ch := 0 |}
      {| line := Some 1; ch := 0 |}
    = forEachMatch twoLinesIndexer.
Proof.
  split; [split_and!; [exact twoLinesIndexer_fresh | exact twoLines_starts_ascending
                      | exact twoLines_last_line]|].
  apply (forEachMatchWithinRange_whole_document twoLinesIndexer [(0, 2); (3, 5)] (-1) 1 0);
    [exact twoLinesIndexer_fresh | exact twoLines_starts_ascending
    | exact twoLines_first_start | exact twoLines_last_line].
Defined.

(** X27 on the two-line document, over the range of both lines. *)
Lemma scan_of_a_range_stays_within_witness :
  (length twoLines + 2 ≤ 20)%nat
  ∧ ∃ calls ps,
    _scanDocumentUsingRegularExpression 20 (_createLineCharacterCountIndex twoLines newline) twoLines abQuery (Some {| from := {| line := Some 0; ch := 0 |}; to := {| line := Some 1; ch := 2 |} |}) = Some calls
    ∧ calls = positionsFrom (_createLineCharacterCountIndex twoLines newline) (Some 0) ps
    ∧ (∀ a e, (a, e) ∈ ps →
         execAt twoLines abQuery a = Some (a, e)
         ∧ 0 ≤ a ≤ e
         ∧ (∀ s, _indexFromPos (_createLineCharacterCountIndex twoLines newline) (from {| from := {| line := Some 0; ch := 0 |}; to := {| line := Some 1; ch := 2 |} |}) = Some s → s ≤ a)
         ∧ ∃ E, _indexFromPos (_createLineCharacterCountIndex twoLines newline) (to {| from := {| line := Some 0; ch := 0 |}; to := {| line := Some 1; ch := 2 |} |}) = Some E ∧ e ≤ E)
    ∧ (_indexFromPos (_createLineCharacterCountIndex twoLines newline) (to {| from := {| line := Some 0; ch := 0 |}; to := {| line := Some 1; ch := 2 |} |}) = None → calls = []).
Proof.
  assert (length twoLines + 2 ≤ 20)%nat as H1 by (simpl; lia).
  split; [exact H1|].
  apply (scan_of_a_range_stays_within 20 (_createLineCharacterCountIndex twoLines newline)
           twoLines abQuery
           {| from := {| line := Some 0; ch := 0 |}; to := {| line := Some 1; ch := 2 |} |}).
  exact H1.
Defined.

(** X28 on the two-line document, at its second match. *)
Lemma match_range_denotes_offsets_witness :
  (len twoLines + len newline < 2 ^ 32 ∧ holds twoLinesIndexer [(0, 2); (3, 5)] (-1)
   ∧ 0 ≤ 3 ≤ 5 ∧ 5 < len twoLines + len newline)
  ∧ ∃ m (lf lt : Z),
    getItemByMatchNumber twoLinesIndexer (Z.of_nat 1%nat) = Some m
    ∧ _indexFromPos (_createLineCharacterCountIndex twoLines newline) (from m) = Some 3
    ∧ _indexFromPos (_createLineCharacterCountIndex twoLines newline) (to m) = Some 5
    ∧ line (from m) = Some lf ∧ line (to m) = Some lt
    ∧ 0 ≤ lf ≤ lt ∧ lt < len (split twoLines newline)
    ∧ 0 ≤ ch (from m) ∧ 0 ≤ ch (to m).
Proof.
  assert (len twoLines + len newline < 2 ^ 32) as H1 by (vm_compute; reflexivity).
  assert (0 ≤ 3 ≤ 5) as H2 by lia.
  assert (5 < len twoLines + len newline) as H3 by (simpl; lia).
  split; [split_and!; [exact H1 | exact twoLinesIndexer_fresh | exact (proj1 H2)
                      | exact (proj2 H2) | exact H3]|].
  apply (match_range_denotes_offsets twoLines newline H1 twoLinesIndexer [(0, 2); (3, 5)]
           (-1) 1%nat 3 5);
    [reflexivity | exact twoLinesIndexer_fresh | reflexivity | exact H2 | exact H3].
Defined.

End FurtherInstances.
